(** * Logos front ends: a shallow embedding of the view logic

    The observability dashboard (eval_server/frontend) and the banking
    assistant result card (frontend) are React components.  This file embeds
    the parts of them that compute: the API client, the dashboard's fetch
    fan-out, derived statistics and pagination, the trace view's splitting of
    a diagnosis text into prose and code, the agent graph's zoom/pan state
    and node layout, the chart selection of the result card, and the route
    table of the application.

    Conventions.
    - A React component is a record of its [useState] cells; an event
      handler is a function on that record (or a computation in the small
      state-and-exception monad [JS.M] where the source uses try/catch).
    - An awaited promise is given by its outcome: a [JS.Completion] for
      [await], a [JS.PromiseSettledResult] for [Promise.allSettled].
    - JS numbers that are integers (array lengths, indices, page numbers,
      counters) are [Z]; arithmetic on them is exact below 2^53.  Other
      numbers are rationals, and every operation that JS rounds to a double
      goes through [JS.rnd], an abstract round-to-nearest (see [JS.Rounding]).
    - JS strings that are only compared or displayed are [string]; the text
      scanned by the regular expression is a list of UTF-16 code units. *)

From Stdlib Require Import ZArith NArith Ascii String QArith Qround Qabs Lia Lqa.
From stdpp Require Import base option list strings gmap pretty.

#[local] Open Scope Z_scope.

(** ** The JavaScript runtime pieces the components rely on *)

Module JS.

(** Values thrown by the code under study.  [Error] is what the source
    constructs with [new Error(..)]; the other classes are raised by the
    platform ([response.json()], property access on undefined, a failed
    network request). *)
Inductive JsError :=
| Error (message : string)
| TypeError (message : string)
| SyntaxError (message : string).

(** The outcome of evaluating a statement or awaiting a promise. *)
Inductive Completion (A : Type) :=
| Normal (value : A)
| Throw (reason : JsError).
Arguments Normal {A} value.
Arguments Throw {A} reason.

(** An element of the array [Promise.allSettled] resolves to. *)
Inductive PromiseSettledResult (A : Type) :=
| fulfilled (value : A)
| rejected (reason : JsError).
Arguments fulfilled {A} value.
Arguments rejected {A} reason.

Definition settle {A} (c : Completion A) : PromiseSettledResult A :=
  match c with
  | Normal v => fulfilled v
  | Throw e => rejected e
  end.

Definition is_rejected {A} (r : PromiseSettledResult A) : bool :=
  match r with rejected _ => true | fulfilled _ => false end.

(** Computations of an event handler: they read and write the component
    state [S] and complete normally or abruptly. *)
Definition M (S A : Type) : Type := S -> Completion A * S.

Definition ret {S A} (a : A) : M S A := fun s => (Normal a, s).

Definition bind {S A B} (m : M S A) (k : A -> M S B) : M S B :=
  fun s =>
    match m s with
    | (Normal a, s') => k a s'
    | (Throw e, s') => (Throw e, s')
    end.

Definition throw {S A} (e : JsError) : M S A := fun s => (Throw e, s).

(** [await p] for a promise whose outcome is [c]. *)
Definition await {S A} (c : Completion A) : M S A := fun s => (c, s).

Definition modify {S} (f : S -> S) : M S unit := fun s => (Normal tt, f s).

(** [try { body } catch (err) { handler err } finally { fin }] *)
Definition try_catch_finally {S A}
    (body : M S A) (handler : JsError -> M S A) (fin : M S unit) : M S A :=
  fun s =>
    let '(r, s1) :=
      match body s with
      | (Normal a, s') => (Normal a, s')
      | (Throw e, s') => handler e s'
      end in
    match fin s1 with
    | (Normal _, s2) => (r, s2)
    | (Throw e, s2) => (Throw e, s2)
    end.

(** The monad structure, so that handlers read [x ← m; k] and [m;; k]. *)
#[export] Instance M_ret {S} : MRet (M S) := fun A a => ret a.
#[export] Instance M_bind {S} : MBind (M S) := fun A B k m => bind m k.

(** [Array.prototype.slice(start, end)] on a list, as ECMA-262 defines it:
    a negative bound counts from the end, both bounds are clamped to the
    array, and an empty range gives the empty array. *)
Definition slice {A} (start end_ : Z) (l : list A) : list A :=
  let len := Z.of_nat (length l) in
  let k := if start <? 0 then Z.max (len + start) 0 else Z.min start len in
  let final := if end_ <? 0 then Z.max (len + end_) 0 else Z.min end_ len in
  let count := Z.max (final - k) 0 in
  take (Z.to_nat count) (drop (Z.to_nat k) l).

(** [Array.prototype.findIndex]: the first index whose element satisfies
    the predicate, or -1. *)
Fixpoint findIndex_from {A} (p : A -> bool) (l : list A) (i : Z) : Z :=
  match l with
  | [] => -1
  | x :: l' => if p x then i else findIndex_from p l' (i + 1)
  end.
Definition findIndex {A} (p : A -> bool) (l : list A) : Z :=
  findIndex_from p l 0.

(** *** Numbers

    A double operation is the exact operation followed by rounding to the
    nearest double.  The development uses only what every such rounding
    satisfies: it is monotone, it leaves doubles alone, the integers up to
    2^53 are doubles, and between 2^-64 and 2^64 in magnitude (far inside
    the range of normal doubles) the relative error is at most the unit
    roundoff 2^-53.
    Outside that range, where a double operation can overflow or lose
    relative precision, only monotonicity is used. *)
Definition unit_roundoff : Q := 1 # 9007199254740992.
Definition range_min : Q := 1 # 18446744073709551616.
Definition range_max : Q := 18446744073709551616.

Class Rounding := {
  rnd : Q -> Q;
  rnd_mono : forall x y : Q, (x <= y)%Q -> (rnd x <= rnd y)%Q;
  rnd_idem : forall x : Q, (rnd (rnd x) == rnd x)%Q;
  rnd_int : forall z : Z, Z.abs z <= 2 ^ 53 -> (rnd (inject_Z z) == inject_Z z)%Q;
  rnd_err : forall x : Q,
    (range_min <= Qabs x)%Q -> (Qabs x <= range_max)%Q ->
    (Qabs (rnd x - x) <= Qabs x * unit_roundoff)%Q
}.

(** The value of a decimal literal such as [0.1] is the nearest double. *)
Definition literal `{Rounding} (q : Q) : Q := rnd q.

Definition mul `{Rounding} (x y : Q) : Q := rnd (x * y).
Definition add `{Rounding} (x y : Q) : Q := rnd (x + y).
Definition sub `{Rounding} (x y : Q) : Q := rnd (x - y).

Definition Math_max (x y : Q) : Q := if Qlt_le_dec x y then y else x.
Definition Math_min (x y : Q) : Q := if Qlt_le_dec y x then y else x.

(** A number that may also be one of the non-finite doubles; needed where
    the divisor of a division can be zero. *)
Inductive number :=
| Num (q : Q)
| NaN
| Infinity (negative : bool).

(** [x / y] on finite operands; a zero divisor is the positive zero (an
    array length is never the negative one). *)
Definition div `{Rounding} (x y : Q) : number :=
  if Qeq_bool y 0 then
    (if Qeq_bool x 0 then NaN else Infinity (if Qlt_le_dec x 0 then true else false))
  else Num (rnd (x / y)).

(** [x * y] with a finite right operand different from zero. *)
Definition mul_by `{Rounding} (x : number) (y : Q) : number :=
  match x with
  | Num q => Num (rnd (q * y))
  | NaN => NaN
  | Infinity s => Infinity (if Qlt_le_dec y 0 then negb s else s)
  end.

(** [Math.round]: the nearest integer, ties towards +Infinity. *)
Definition Math_round (x : number) : number :=
  match x with
  | Num q => Num (inject_Z (Qfloor (q + (1 # 2))))
  | other => other
  end.

(** [x / y] where the divisor is a constant different from zero. *)
Definition fdiv `{Rounding} (x y : Q) : Q := rnd (x / y).

(** [Math.ceil] and [Math.floor] of a finite number. *)
Definition Math_ceil (q : Q) : Z := Qceiling q.
Definition Math_floor (q : Q) : Z := Qfloor q.

(** No array is longer than 2^32 - 1. *)
Definition max_array_length : Z := 2 ^ 32 - 1.

End JS.

Import JS.

(** ** types.ts: the shapes the servers send *)

Module Types.

Record InterventionRequest := {
  function_name : string;
  url : option string
}.

Record InterventionEvent := {
  timestamp : string;
  request : InterventionRequest;
  content_preview : string;
  content_length : Z;
  decision : string;
  final_output : string
}.

Record TraceEvent := {
  ev_trace_id : string;
  span_id : string;
  parent_span_id : option string;
  event_type : string;
  name : string;
  category : option string;
  ev_status : string;
  ev_timestamp : string;
  server_ts : option string;
  ev_duration_ms : option Q;
  args_preview : option string;
  kwargs_preview : option string;
  result_preview : option string;
  error_type : option string;
  error_message : option string
}.

Record TraceRow := {
  trace_id : string;
  span_count : Z;
  error_count : Z;
  duration_ms : Q
}.

Record DatabaseStatus := {
  connected : bool;
  db_status : string;
  db_trace_count : Z
}.

Record MemoryStatus := {
  mem_trace_count : Z
}.

Record SystemStatus := {
  sys_ok : bool;
  database : DatabaseStatus;
  memory : MemoryStatus;
  data_source : string
}.

(** The body of [GET /dashboard]. *)
Record DashboardData := {
  total : Z;
  dd_trace_count : Z;
  dd_traces : list TraceRow;
  insights : option string
}.

End Types.

Import Types.

(** ** api.ts: the API client *)

Module Api.

(** Why [response.json()] can reject. *)
Inductive BodyFailure :=
| NotJson (message : string)
| BodyUnusable (message : string).

(** What [fetchJson] reads of a [Response]: [ok], [status], and the
    outcome of [json()], already typed as the [T] the caller expects. *)
Record Response (T : Type) := {
  ok : bool;
  status : Z;
  body : T + BodyFailure
}.
Arguments ok {T} _.
Arguments status {T} _.
Arguments body {T} _.

Definition json {T} (response : Response T) : Completion T :=
  match body response with
  | inl v => Normal v
  | inr (NotJson m) => Throw (SyntaxError m)
  | inr (BodyUnusable m) => Throw (TypeError m)
  end.

Definition http_error_message (status : Z) : string :=
  "HTTP error! status: " +:+ pretty status.

(** [fetchJson], from the outcome of [fetch(url)] on. *)
Definition fetchJson {T} (fetched : Completion (Response T)) : Completion T :=
  match fetched with
  | Throw e => Throw e
  | Normal response =>
      if negb (ok response) then Throw (Error (http_error_message (status response)))
      else json response
  end.

(** The typed endpoints; each is [fetchJson] on its URL, and two of them
    project a field of the body. *)
Record TraceDetails := {
  td_trace_id : string;
  td_count : Z;
  td_events : list TraceEvent
}.

Record RecentError := {
  re_timestamp : string;
  re_trace_id : string;
  re_name : string;
  re_error_type : option string;
  re_error_message : option string
}.

Record ErrorsBody := {
  errors : list RecentError
}.

Record GraphNode := {
  gn_id : string;
  gn_label : string;
  gn_type : string
}.

Record GraphEdge := {
  ge_source : string;
  ge_target : string;
  ge_label : string
}.

Record AgentGraphBody := {
  ag_nodes : list GraphNode;
  ag_edges : list GraphEdge;
  ag_description : string
}.

Definition getInterventionHistory
    (fetched : Completion (Response (list InterventionEvent)))
  : Completion (list InterventionEvent) := fetchJson fetched.

Definition getSystemStatus (fetched : Completion (Response SystemStatus))
  : Completion SystemStatus := fetchJson fetched.

Definition getDashboardData (fetched : Completion (Response DashboardData))
  : Completion DashboardData := fetchJson fetched.

Definition getTraceDetails (fetched : Completion (Response TraceDetails))
  : Completion (list TraceEvent) :=
  match fetchJson fetched with
  | Normal response => Normal (td_events response)
  | Throw e => Throw e
  end.

Definition getRecentErrors (fetched : Completion (Response ErrorsBody))
  : Completion (list RecentError) :=
  match fetchJson fetched with
  | Normal response => Normal (errors response)
  | Throw e => Throw e
  end.

Definition getAgentGraph (fetched : Completion (Response AgentGraphBody))
  : Completion AgentGraphBody := fetchJson fetched.

End Api.

(** ** components/Dashboard.tsx *)

Module Dashboard.

Record State := {
  status : option SystemStatus;
  traces : list TraceRow;
  interventions : list InterventionEvent;
  loading : bool;
  error : option string;
  currentPage : Z
}.

(** The [useState] initialisers. *)
Definition initial : State := {|
  status := None;
  traces := [];
  interventions := [];
  loading := true;
  error := None;
  currentPage := 1
|}.

Definition tracesPerPage : Z := 10.

Definition setStatus (v : option SystemStatus) : M State unit :=
  modify (fun s => {| status := v; traces := traces s; interventions := interventions s;
                      loading := loading s; error := error s; currentPage := currentPage s |}).
Definition setTraces (v : list TraceRow) : M State unit :=
  modify (fun s => {| status := status s; traces := v; interventions := interventions s;
                      loading := loading s; error := error s; currentPage := currentPage s |}).
Definition setInterventions (v : list InterventionEvent) : M State unit :=
  modify (fun s => {| status := status s; traces := traces s; interventions := v;
                      loading := loading s; error := error s; currentPage := currentPage s |}).
Definition setLoading (v : bool) : M State unit :=
  modify (fun s => {| status := status s; traces := traces s; interventions := interventions s;
                      loading := v; error := error s; currentPage := currentPage s |}).
Definition setError (v : option string) : M State unit :=
  modify (fun s => {| status := status s; traces := traces s; interventions := interventions s;
                      loading := loading s; error := v; currentPage := currentPage s |}).
Definition setCurrentPage (f : Z -> Z) : State -> State :=
  fun s => {| status := status s; traces := traces s; interventions := interventions s;
              loading := loading s; error := error s; currentPage := f (currentPage s) |}.

(** [fetchData], given what the three promises handed to
    [Promise.allSettled] settle to.  [console.error] has no effect on the
    state and is left out. *)
Definition fetchData
    (statusResult : PromiseSettledResult SystemStatus)
    (dashboardResult : PromiseSettledResult DashboardData)
    (interventionsResult : PromiseSettledResult (list InterventionEvent))
  : M State unit :=
  try_catch_finally
    (setLoading true;;
     match statusResult with
     | fulfilled value => setStatus (Some value)
     | rejected _ => setStatus None
     end;;
     match dashboardResult with
     | fulfilled value => setTraces (dd_traces value)
     | rejected _ => setTraces []
     end;;
     match interventionsResult with
     | fulfilled value => setInterventions (slice 0 5 value)
     | rejected _ => setInterventions []
     end;;
     if is_rejected statusResult && is_rejected dashboardResult
     then setError (Some "Failed to fetch dashboard data")
     else setError None)
    (fun err => setError (Some "Failed to fetch dashboard data"))
    (setLoading false).

(** The statistics computed in the render body. *)
Definition totalTraces (s : State) : Z :=
  match status s with
  | Some st => if connected (database st) then db_trace_count (database st)
               else mem_trace_count (memory st)
  | None => 0
  end.

Definition errorTraces (s : State) : Z :=
  Z.of_nat (length (filter (fun t => 0 < error_count t) (traces s))).

Definition traces_length (s : State) : Z := Z.of_nat (length (traces s)).

(** The "Error Rate" figure of the insights panel. *)
Definition errorRate `{Rounding} (s : State) : number :=
  if 0 <? traces_length s
  then Math_round (mul_by (div (inject_Z (errorTraces s)) (inject_Z (traces_length s))) 100)
  else Num 0.

(** Pagination. *)
Definition totalPages `{Rounding} (s : State) : Z :=
  Math_ceil (fdiv (inject_Z (traces_length s)) (inject_Z tracesPerPage)).
Definition startIndex (s : State) : Z := (currentPage s - 1) * tracesPerPage.
Definition endIndex (s : State) : Z := startIndex s + tracesPerPage.
Definition currentTraces (s : State) : list TraceRow :=
  slice (startIndex s) (endIndex s) (traces s).

Definition goToPage (page : Z) : State -> State := setCurrentPage (fun _ => page).
Definition goToPrevious : State -> State :=
  setCurrentPage (fun prev => Z.max 1 (prev - 1)).
Definition goToNext `{Rounding} (s : State) : State :=
  setCurrentPage (fun prev => Z.min (totalPages s) (prev + 1)) s.


(** What the user and the refresh timer can do to the component.  The
    pagination controls exist when there are traces and more than one page;
    "Previous" is disabled on page 1 and "Next" on the last page; a page
    button exists for the first, the last and the pages next to the current
    one. *)
Inductive Interaction :=
| Refreshed (statusResult : PromiseSettledResult SystemStatus)
            (dashboardResult : PromiseSettledResult DashboardData)
            (interventionsResult : PromiseSettledResult (list InterventionEvent))
| Previous
| Next
| Page (page : Z).

Section Interactions.
Context `{Rounding}.

Definition paginated (s : State) : bool :=
  (0 <? traces_length s) && (1 <? totalPages s).

Definition showPage (s : State) (page : Z) : bool :=
  (page =? 1) || (page =? totalPages s)
  || ((currentPage s - 1 <=? page) && (page <=? currentPage s + 1)).

Definition interact (s : State) (e : Interaction) : State :=
  match e with
  | Refreshed r0 r1 r2 => (fetchData r0 r1 r2 s).2
  | Previous =>
      if paginated s && negb (currentPage s =? 1) then goToPrevious s else s
  | Next =>
      if paginated s && negb (currentPage s =? totalPages s) then goToNext s else s
  | Page page =>
      if paginated s && (1 <=? page) && (page <=? totalPages s) && showPage s page
      then goToPage page s else s
  end.

Definition run (es : list Interaction) : State := foldl interact initial es.

End Interactions.

End Dashboard.

(** ** Regular expressions and [String.prototype.split]

    The backtracking matcher of ECMA-262 (22.2.2), in continuation-passing
    style, for the constructs that occur in the source: characters and
    classes, concatenation, capturing groups, the greedy [?] and [+] and the
    lazy [*?].  Every repeated atom of the source consumes one code unit, so
    the number of iterations of a loop is bounded by what is left of the
    input, which serves as fuel. *)

Module RegExp.

(** A UTF-16 code unit. *)
Definition char : Type := N.
Definition jsstring : Type := list char.

(** A literal of ASCII characters as code units. *)
Fixpoint codeUnits (s : string) : jsstring :=
  match s with
  | EmptyString => []
  | String a s' => N_of_ascii a :: codeUnits s'
  end.

Inductive regex :=
| Chr (c : char)
| Cls (p : char -> bool)
| Cat (r1 r2 : regex)
| Group (i : nat) (r : regex)
| OptGreedy (r : regex)
| PlusGreedy (r : regex)
| StarLazy (r : regex).

(** What is left of the input, and the captures so far ([None] is
    undefined). *)
Definition MatchState : Type := jsstring * list (option jsstring).
Definition Continuation : Type := MatchState -> option MatchState.

Fixpoint matcher (r : regex) (k : Continuation) (x : MatchState) {struct r}
  : option MatchState :=
  match r with
  | Chr c =>
      match x.1 with
      | ch :: rest => if N.eqb ch c then k (rest, x.2) else None
      | [] => None
      end
  | Cls p =>
      match x.1 with
      | ch :: rest => if p ch then k (rest, x.2) else None
      | [] => None
      end
  | Cat r1 r2 => matcher r1 (matcher r2 k) x
  | Group i r1 =>
      matcher r1
        (fun y => k (y.1, <[i := Some (take (length x.1 - length y.1) x.1)]> y.2)) x
  | OptGreedy r1 =>
      match matcher r1 k x with
      | Some y => Some y
      | None => k x
      end
  | PlusGreedy r1 =>
      matcher r1
        ((fix more (n : nat) (y : MatchState) : option MatchState :=
            match n with
            | O => k y
            | S n' =>
                match matcher r1 (more n') y with
                | Some z => Some z
                | None => k y
                end
            end) (length x.1)) x
  | StarLazy r1 =>
      (fix more (n : nat) (y : MatchState) : option MatchState :=
         match n with
         | O => k y
         | S n' =>
             match k y with
             | Some z => Some z
             | None => matcher r1 (more n') y
             end
         end) (length x.1) x
  end.

(** A sticky match of [r], which has [ngroups] capturing groups, at the
    start of [s]: what follows the match, and the captures 1..ngroups. *)
Definition exec (r : regex) (ngroups : nat) (s : jsstring)
  : option (jsstring * list (option jsstring)) :=
  match matcher r Some (s, replicate (S ngroups) None) with
  | Some (rest, caps) => Some (rest, drop 1 caps)
  | None => None
  end.

(** The loop of [RegExp.prototype[Symbol.split]] without a limit: [pending]
    is the text between the end of the last match (p) and the current
    position (q), [s] the text from q on. *)
Fixpoint split_loop (r : regex) (ngroups : nat) (fuel : nat)
    (pending s : jsstring) : list (option jsstring) :=
  match fuel with
  | O => [Some (pending ++ s)]
  | S fuel' =>
      match s with
      | [] => [Some pending]
      | ch :: s' =>
          match exec r ngroups s with
          | None => split_loop r ngroups fuel' (pending ++ [ch]) s'
          | Some (rest, caps) =>
              if bool_decide (length rest = length s ∧ pending = [])
              then split_loop r ngroups fuel' (pending ++ [ch]) s'
              else Some pending :: caps ++ split_loop r ngroups fuel' [] rest
          end
      end
  end.

Definition split (r : regex) (ngroups : nat) (s : jsstring) : list (option jsstring) :=
  match s with
  | [] => match exec r ngroups [] with Some _ => [] | None => [Some []] end
  | _ => split_loop r ngroups (2 * length s + 1) [] s
  end.

(** [\w] without the i and u flags. *)
Definition is_word (c : char) : bool :=
  ((48 <=? c) && (c <=? 57) || (65 <=? c) && (c <=? 90)
   || (97 <=? c) && (c <=? 122) || (c =? 95))%N.

(** [[\s\S]]: every code unit. *)
Definition any_char (c : char) : bool := true.

(** WhiteSpace and LineTerminator code units, which [trim] removes. *)
Definition is_space (c : char) : bool :=
  ((9 <=? c) && (c <=? 13) || (c =? 32) || (c =? 160) || (c =? 5760)
   || (8192 <=? c) && (c <=? 8202) || (c =? 8232) || (c =? 8233)
   || (c =? 8239) || (c =? 8287) || (c =? 12288) || (c =? 65279))%N.

Fixpoint trimStart (s : jsstring) : jsstring :=
  match s with
  | c :: s' => if is_space c then trimStart s' else s
  | [] => []
  end.
Definition trimEnd (s : jsstring) : jsstring := reverse (trimStart (reverse s)).
Definition trim (s : jsstring) : jsstring := trimEnd (trimStart s).

(** A string is truthy when it is not empty. *)
Definition truthy (s : jsstring) : bool :=
  match s with [] => false | _ => true end.

End RegExp.

(** ** components/TraceView.tsx *)

Module TraceView.

Import RegExp.

Record State := {
  events : list TraceEvent;
  loading : bool;
  error : option string;
  expandedPreviews : gset Z;
  diagnosing : bool;
  diagnosis : option jsstring;
  diagnosisError : option string;
  showDiagnosisModal : bool
}.

(** The [useState] initialisers. *)
Definition initial : State := {|
  events := [];
  loading := true;
  error := None;
  expandedPreviews := ∅;
  diagnosing := false;
  diagnosis := None;
  diagnosisError := None;
  showDiagnosisModal := false
|}.

Definition setEvents (v : list TraceEvent) : M State unit :=
  modify (fun s => {| events := v; loading := loading s; error := error s;
                      expandedPreviews := expandedPreviews s; diagnosing := diagnosing s;
                      diagnosis := diagnosis s; diagnosisError := diagnosisError s;
                      showDiagnosisModal := showDiagnosisModal s |}).
Definition setLoading (v : bool) : M State unit :=
  modify (fun s => {| events := events s; loading := v; error := error s;
                      expandedPreviews := expandedPreviews s; diagnosing := diagnosing s;
                      diagnosis := diagnosis s; diagnosisError := diagnosisError s;
                      showDiagnosisModal := showDiagnosisModal s |}).
Definition setError (v : option string) : M State unit :=
  modify (fun s => {| events := events s; loading := loading s; error := v;
                      expandedPreviews := expandedPreviews s; diagnosing := diagnosing s;
                      diagnosis := diagnosis s; diagnosisError := diagnosisError s;
                      showDiagnosisModal := showDiagnosisModal s |}).
Definition setExpandedPreviews (v : gset Z) (s : State) : State :=
  {| events := events s; loading := loading s; error := error s;
     expandedPreviews := v; diagnosing := diagnosing s;
     diagnosis := diagnosis s; diagnosisError := diagnosisError s;
     showDiagnosisModal := showDiagnosisModal s |}.

(** [!traceId]: the route parameter is missing or empty. *)
Definition no_traceId (traceId : option string) : bool :=
  match traceId with
  | None => true
  | Some id => String.eqb id ""
  end.

(** [fetchTraceDetails], given the outcome of [apiClient.getTraceDetails]. *)
Definition fetchTraceDetails (traceId : option string)
    (traceData : Completion (list TraceEvent)) : M State unit :=
  if no_traceId traceId then mret tt
  else
    try_catch_finally
      (setLoading true;;
       data ← await traceData;
       setEvents data;;
       setError None)
      (fun err => setError (Some "Failed to fetch trace details"))
      (setLoading false).

Definition togglePreviewExpansion (index : Z) (s : State) : State :=
  let newExpanded := expandedPreviews s in
  setExpandedPreviews
    (if bool_decide (index ∈ newExpanded) then newExpanded ∖ {[index]}
     else newExpanded ∪ {[index]}) s.

(** [/```(\w+)?\n([\s\S]*?)```/] *)
Definition backtick : char := 96%N.
Definition newline : char := 10%N.
Definition fence : regex :=
  Cat (Chr backtick) (Cat (Chr backtick) (Cat (Chr backtick)
  (Cat (OptGreedy (Group 1 (PlusGreedy (Cls is_word))))
  (Cat (Chr newline)
  (Cat (Group 2 (StarLazy (Cls any_char)))
  (Cat (Chr backtick) (Cat (Chr backtick) (Chr backtick)))))))).

(** What [formatDiagnosisText] pushes on [elements]: a [span] of prose or
    the [div] of a code block with its language label; [key] is the index
    of the part. *)
Inductive Element :=
| Span (key : nat) (text : jsstring)
| CodeBlock (key : nat) (language : jsstring) (code : option jsstring).

(** [parts[i - 1] || 'javascript'] *)
Definition language_of (tag : option (option jsstring)) : jsstring :=
  match tag with
  | Some (Some l) => if truthy l then l else codeUnits "javascript"
  | _ => codeUnits "javascript"
  end.

(** The body of the loop at index [i]; calling [trim] on a part that is
    undefined throws. *)
Definition format_part (parts : list (option jsstring)) (i : nat)
  : Completion (list Element) :=
  if (i mod 3 =? 0)%nat then
    match parts !! i with
    | Some (Some text) =>
        if truthy (trim text) then Normal [Span i text] else Normal []
    | _ => Throw (TypeError "Cannot read properties of undefined (reading 'trim')")
    end
  else if (i mod 3 =? 2)%nat then
    Normal [CodeBlock i (language_of (parts !! (i - 1)%nat)) (mjoin (parts !! i))]
  else Normal [].

Fixpoint format_loop (parts : list (option jsstring)) (i n : nat)
  : Completion (list Element) :=
  match n with
  | O => Normal []
  | S n' =>
      match format_part parts i with
      | Throw e => Throw e
      | Normal here =>
          match format_loop parts (S i) n' with
          | Throw e => Throw e
          | Normal later => Normal (here ++ later)
          end
      end
  end.

Definition formatDiagnosisText (text : jsstring) : Completion (list Element) :=
  let parts := split fence 2 text in
  format_loop parts 0 (length parts).

End TraceView.

(** ** components/AgentGraph.tsx *)

Module AgentGraph.

Record Node := {
  id : string;
  label : string;
  type : string;
  x : option Z;
  y : option Z
}.

Record Edge := {
  source : string;
  target : string;
  edge_label : string
}.

Record GraphData := {
  nodes : list Node;
  edges : list Edge;
  description : string
}.

Record State := {
  graphData : option GraphData;
  loading : bool;
  error : option string;
  zoom : Q;
  panX : Q;
  panY : Q;
  isDragging : bool;
  lastMousePos : Q * Q
}.

(** The [useState] initialisers. *)
Definition initial : State := {|
  graphData := None;
  loading := true;
  error := None;
  zoom := 1;
  panX := 0;
  panY := 0;
  isDragging := false;
  lastMousePos := (0, 0)%Q
|}.

Definition setGraphData (v : option GraphData) : M State unit :=
  modify (fun s => {| graphData := v; loading := loading s; error := error s;
                      zoom := zoom s; panX := panX s; panY := panY s;
                      isDragging := isDragging s; lastMousePos := lastMousePos s |}).
Definition setLoading (v : bool) : M State unit :=
  modify (fun s => {| graphData := graphData s; loading := v; error := error s;
                      zoom := zoom s; panX := panX s; panY := panY s;
                      isDragging := isDragging s; lastMousePos := lastMousePos s |}).
Definition setError (v : option string) : M State unit :=
  modify (fun s => {| graphData := graphData s; loading := loading s; error := v;
                      zoom := zoom s; panX := panX s; panY := panY s;
                      isDragging := isDragging s; lastMousePos := lastMousePos s |}).
Definition setZoom (f : Q -> Q) (s : State) : State :=
  {| graphData := graphData s; loading := loading s; error := error s;
     zoom := f (zoom s); panX := panX s; panY := panY s;
     isDragging := isDragging s; lastMousePos := lastMousePos s |}.
Definition setPanX (f : Q -> Q) (s : State) : State :=
  {| graphData := graphData s; loading := loading s; error := error s;
     zoom := zoom s; panX := f (panX s); panY := panY s;
     isDragging := isDragging s; lastMousePos := lastMousePos s |}.
Definition setPanY (f : Q -> Q) (s : State) : State :=
  {| graphData := graphData s; loading := loading s; error := error s;
     zoom := zoom s; panX := panX s; panY := f (panY s);
     isDragging := isDragging s; lastMousePos := lastMousePos s |}.
Definition setIsDragging (v : bool) (s : State) : State :=
  {| graphData := graphData s; loading := loading s; error := error s;
     zoom := zoom s; panX := panX s; panY := panY s;
     isDragging := v; lastMousePos := lastMousePos s |}.
Definition setLastMousePos (v : Q * Q) (s : State) : State :=
  {| graphData := graphData s; loading := loading s; error := error s;
     zoom := zoom s; panX := panX s; panY := panY s;
     isDragging := isDragging s; lastMousePos := v |}.

Section Handlers.
Context `{Rounding}.

Definition handleWheel (deltaY : Q) : State -> State :=
  let zoomFactor := if Qlt_le_dec 0 deltaY then literal (9 # 10) else literal (11 # 10) in
  setZoom (fun prev => Math_max (literal (1 # 10)) (Math_min 3 (mul prev zoomFactor))).

Definition handleMouseDown (clientX clientY : Q) (s : State) : State :=
  setLastMousePos (clientX, clientY) (setIsDragging true s).

(** [handleMouseMove] is a closure of the render that created it: it finds
    [isDragging] and [lastMousePos] as that render saw them, in [rendered],
    while its updaters [prev => prev + delta] work on the latest pan, in
    [s]. *)
Definition handleMouseMove (rendered : State) (clientX clientY : Q) (s : State) : State :=
  if negb (isDragging rendered) then s
  else
    let deltaX := sub clientX (lastMousePos rendered).1 in
    let deltaY := sub clientY (lastMousePos rendered).2 in
    setLastMousePos (clientX, clientY)
      (setPanY (fun prev => add prev deltaY)
         (setPanX (fun prev => add prev deltaX) s)).

Definition handleMouseUp : State -> State := setIsDragging false.

Definition zoomIn : State -> State :=
  setZoom (fun prev => Math_min 3 (mul prev (literal (12 # 10)))).

Definition zoomOut : State -> State :=
  setZoom (fun prev => Math_max (literal (1 # 10)) (fdiv prev (literal (12 # 10)))).

Definition resetView (s : State) : State :=
  setPanY (fun _ => 0%Q) (setPanX (fun _ => 0%Q) (setZoom (fun _ => 1%Q) s)).

(** The interactions wired to the canvas and to the toolbar buttons. *)
Inductive Interaction :=
| Wheel (deltaY : Q)
| MouseDown (clientX clientY : Q)
| MouseMove (clientX clientY : Q)
| MouseUp
| MouseLeave
| ZoomIn
| ZoomOut
| ResetView.

(** An interaction handled by the handlers of the render that saw
    [rendered], on the latest state [s].  Every other handler sets cells or
    updates them from their latest value and reads nothing of its render. *)
Definition handle (rendered s : State) (e : Interaction) : State :=
  match e with
  | Wheel deltaY => handleWheel deltaY s
  | MouseDown cx cy => handleMouseDown cx cy s
  | MouseMove cx cy => handleMouseMove rendered cx cy s
  | MouseUp => handleMouseUp s
  | MouseLeave => handleMouseUp s
  | ZoomIn => zoomIn s
  | ZoomOut => zoomOut s
  | ResetView => resetView s
  end.

(** An interaction that finds the component rendered with its latest
    state: a render has followed the interaction before it. *)
Definition interact (s : State) (e : Interaction) : State := handle s s e.

Definition run (es : list Interaction) : State := foldl interact initial es.

(** The component between two renders: the state that the last render saw,
    whose handlers are the ones attached to the canvas, and the latest
    state, which the next render will see. *)
Record Canvas := {
  rendered : State;
  latest : State
}.

Inductive Step :=
| Handle (e : Interaction)
| Render.

Definition step (c : Canvas) (t : Step) : Canvas :=
  match t with
  | Handle e => {| rendered := rendered c; latest := handle (rendered c) (latest c) e |}
  | Render => {| rendered := latest c; latest := latest c |}
  end.

Definition play (c : Canvas) (ts : list Step) : Canvas := foldl step c ts.

End Handlers.

(** A [Map] keeps its keys in the order of their first insertion; setting
    a key that is present replaces the value where it stands. *)
Definition JsMap (V : Type) : Type := list (string * V).

Fixpoint map_set {V} (k : string) (v : V) (m : JsMap V) : JsMap V :=
  match m with
  | [] => [(k, v)]
  | (k', v') :: m' =>
      if String.eqb k' k then (k', v) :: m' else (k', v') :: map_set k v m'
  end.

Fixpoint map_get {V} (k : string) (m : JsMap V) : option V :=
  match m with
  | [] => None
  | (k', v') :: m' => if String.eqb k' k then Some v' else map_get k m'
  end.

Definition new_Map {V} (entries : list (string * V)) : JsMap V :=
  foldl (fun m e => map_set e.1 e.2 m) [] entries.

Definition map_values {V} (m : JsMap V) : list V := m.*2.

(** The own properties of the object literal [positions]. *)
Definition positions : list (string * (Z * Z)) :=
  [ ("__start__", (400, 50));
    ("plan_workflow", (400, 150));
    ("guardrails", (200, 250));
    ("db_agent", (300, 350));
    ("viz_agent", (400, 350));
    ("web_agent", (500, 350));
    ("respond", (400, 450));
    ("__end__", (400, 550)) ].

(** [positions] is a plain object, so a lookup that finds no own property
    goes on to [Object.prototype], whose properties are these. *)
Definition Object_prototype_keys : list string :=
  [ "constructor"; "__defineGetter__"; "__defineSetter__"; "hasOwnProperty";
    "__lookupGetter__"; "__lookupSetter__"; "isPrototypeOf";
    "propertyIsEnumerable"; "toString"; "valueOf"; "__proto__";
    "toLocaleString" ].

(** The value of [positions[key]]: an entry of the table, a member of
    [Object.prototype] (a function or an object, which is truthy and has
    neither [x] nor [y]), or undefined. *)
Inductive Property :=
| Own (px py : Z)
| Inherited
| Undefined.

Definition positions_get (key : string) : Property :=
  match map_get key positions with
  | Some (px, py) => Own px py
  | None => if bool_decide (key ∈ Object_prototype_keys) then Inherited else Undefined
  end.

(** A node or an edge as the server sends it, seen at the component's
    types: the optional coordinates are absent. *)
Definition of_api_node (n : Api.GraphNode) : Node :=
  {| id := Api.gn_id n; label := Api.gn_label n; type := Api.gn_type n;
     x := None; y := None |}.
Definition of_api_edge (e : Api.GraphEdge) : Edge :=
  {| source := Api.ge_source e; target := Api.ge_target e;
     edge_label := Api.ge_label e |}.

Definition set_xy (n : Node) (nx ny : option Z) : Node :=
  {| id := id n; label := label n; type := type n; x := nx; y := ny |}.

Section Layout.
Context `{Rounding}.

(** The body of [nodes.forEach]; the node found in the map is updated in
    place. *)
Definition place (nodes : list Node) (nodeMap : JsMap Node) (node : Node) : JsMap Node :=
  match map_get (id node) nodeMap with
  | Some mapNode =>
      match positions_get (id node) with
      | Own px py => map_set (id node) (set_xy mapNode (Some px) (Some py)) nodeMap
      | Inherited => map_set (id node) (set_xy mapNode None None) nodeMap
      | Undefined =>
          let index := findIndex (fun n => String.eqb (id n) (id node)) nodes in
          map_set (id node)
            (set_xy mapNode
               (Some (100 + Z.rem index 5 * 150))
               (Some (100 + Math_floor (fdiv (inject_Z index) 5) * 100)))
            nodeMap
      end
  | None => nodeMap
  end.

Definition positionNodes (nodes : list Node) (edges : list Edge) : list Node :=
  let nodeMap := new_Map (map (fun n => (id n, n)) nodes) in
  map_values (foldl (place nodes) nodeMap nodes).

(** [fetchGraphData], given the outcome of [apiClient.getAgentGraph]. *)
Definition fetchGraphData (fetched : Completion Api.AgentGraphBody) : M State unit :=
  try_catch_finally
    (setLoading true;;
     data ← await fetched;
     let positionedNodes :=
       positionNodes (map of_api_node (Api.ag_nodes data))
                     (map of_api_edge (Api.ag_edges data)) in
     setGraphData (Some {| nodes := positionedNodes;
                           edges := map of_api_edge (Api.ag_edges data);
                           description := Api.ag_description data |});;
     setError None)
    (fun err => setError (Some "Failed to fetch agent graph"))
    (setLoading false).

End Layout.

End AgentGraph.

(** ** frontend/src/components/ResultCard.tsx

    The payload is typed [any]: it is whatever JSON the ask endpoint
    answered. *)

Module ResultCard.

#[warnings="-register-all"]
Inductive value :=
| undefined
| null
| boolean (b : bool)
| num (q : Q)
| str (s : string)
| arr (items : list value)
| obj (fields : list (string * value)).

(** ToBoolean. *)
Definition truthy (v : value) : bool :=
  match v with
  | undefined | null => false
  | boolean b => b
  | num q => negb (Qeq_bool q 0)
  | str s => negb (String.eqb s "")
  | arr _ | obj _ => true
  end.

Fixpoint field (name : string) (fields : list (string * value)) : value :=
  match fields with
  | [] => undefined
  | (k, v) :: rest => if String.eqb k name then v else field name rest
  end.

(** [v.name] for one of the names read by the component ([chartjs], [type],
    [data], [options], ...), none of which is a property of a primitive, of
    an array or of [Object.prototype]. *)
Definition get (v : value) (name : string) : Completion value :=
  match v with
  | undefined | null =>
      Throw (TypeError ("Cannot read properties of undefined (reading '" +:+ name +:+ "')"))
  | obj fields => Normal (field name fields)
  | _ => Normal undefined
  end.

(** [a && b] and [a || b], with [b] evaluated only when needed. *)
Definition and_then (a : value) (b : Completion value) : Completion value :=
  if truthy a then b else Normal a.
Definition or_else (a : Completion value) (b : value) : Completion value :=
  match a with
  | Normal v => if truthy v then Normal v else Normal b
  | Throw e => Throw e
  end.

(** [toLowerCase] on the ASCII letters.  On other characters the model
    leaves the string alone where JS may change it; no character outside
    A-Z lowercases to exactly one of the letters of [line], so the comparison
    below is not affected. *)
Definition lower_ascii (a : ascii) : ascii :=
  let n := nat_of_ascii a in
  if ((65 <=? n) && (n <=? 90))%nat then ascii_of_nat (n + 32) else a.
Fixpoint lower (s : string) : string :=
  match s with
  | EmptyString => EmptyString
  | String a s' => String (lower_ascii a) (lower s')
  end.
Definition toLowerCase (v : value) : Completion string :=
  match v with
  | str s => Normal (lower s)
  | undefined | null =>
      Throw (TypeError "Cannot read properties of undefined (reading 'toLowerCase')")
  | _ => Throw (TypeError "toLowerCase is not a function")
  end.

(** The chart components imported from react-chartjs-2. *)
Inductive Chart :=
| Bar (data options : value)
| Line (data options : value)
| Pie (data options : value).

Definition chartPayload (payload : value) : Completion value :=
  and_then payload (get payload "chartjs").

Definition bind {A B} (c : Completion A) (k : A -> Completion B) : Completion B :=
  match c with
  | Normal a => k a
  | Throw e => Throw e
  end.

(** [renderChart]; [None] is the [null] it returns without a chart
    payload. *)
Definition renderChart (payload : value) : Completion (option Chart) :=
  bind (chartPayload payload) (fun chartPayload =>
  if negb (truthy chartPayload) then Normal None
  else
    bind (or_else (get chartPayload "type") (str "bar")) (fun type0 =>
    bind (toLowerCase type0) (fun type =>
    bind (or_else (get chartPayload "data")
            (obj [("labels", arr []); ("datasets", arr [])])) (fun data =>
    bind (or_else (get chartPayload "options") (obj [])) (fun options =>
    if String.eqb type "line" then Normal (Some (Line data options))
    else Normal (Some (Bar data options))))))).

End ResultCard.

(** ** App.tsx: the routes and the components they render *)

Module App.

(** The components that the routes of [App] render. *)
Inductive Component :=
| DashboardComponent
| TraceViewComponent
| AgentGraphComponent.

(** The three [Route] elements inside [Routes], in their order, with
    their [path] and their [element]. *)
Inductive Route :=
| IndexRoute
| TraceRoute
| AgentGraphRoute.


Definition element (r : Route) : Component :=
  match r with
  | IndexRoute => DashboardComponent
  | TraceRoute => TraceViewComponent
  | AgentGraphRoute => AgentGraphComponent
  end.

(** Where the router is: what [Routes] matched for the URL, with the value
    of the parameter of the trace route, or no route at all. *)
Inductive Location :=
| Root
| TracePage (traceId : string)
| AgentGraphPage
| NoMatch.

Definition route_of (l : Location) : option Route :=
  match l with
  | Root => Some IndexRoute
  | TracePage _ => Some TraceRoute
  | AgentGraphPage => Some AgentGraphRoute
  | NoMatch => None
  end.

(** The component instance at the place of [Routes], with its state
    cells; for a TraceView also what [useParams] gives it.  An instance
    owns its cells: no component of the repository hands a cell or a
    setter to another. *)
Inductive View :=
| DashboardView (s : Dashboard.State)
| TraceViewView (traceId : string) (s : TraceView.State)
| AgentGraphView (s : AgentGraph.State)
| Nothing.

(** Mounting runs the [useState] initialisers. *)
Definition mount (l : Location) : View :=
  match l with
  | Root => DashboardView Dashboard.initial
  | TracePage traceId => TraceViewView traceId TraceView.initial
  | AgentGraphPage => AgentGraphView AgentGraph.initial
  | NoMatch => Nothing
  end.

(** The instance is one of the component [c]. *)
Definition is_instance (v : View) (c : Component) : bool :=
  match v, c with
  | DashboardView _, DashboardComponent => true
  | TraceViewView _ _, TraceViewComponent => true
  | AgentGraphView _, AgentGraphComponent => true
  | _, _ => false
  end.

(** An instance that is rendered again at a new location keeps its cells;
    [useParams] gives it the parameter of the new match. *)
Definition rerender (v : View) (l : Location) : View :=
  match v, l with
  | TraceViewView _ s, TracePage traceId => TraceViewView traceId s
  | _, _ => v
  end.

(** A change of location.  [Routes] stands at one place of the tree of
    [App] and renders there the element of the route that matches.  React
    keeps the instance at a place, with its cells, as long as the element
    rendered there is of the same component, and replaces it by a new
    instance when the element is of another component (or removes it when
    there is no element). *)
Definition navigate (v : View) (l : Location) : View :=
  match route_of l with
  | Some r => if is_instance v (element r) then rerender v l else mount l
  | None => Nothing
  end.

(** The page: where the router is, and the instance that is rendered. *)
Record Page := {
  location : Location;
  view : View
}.

(** Loading the application at a location. *)
Definition load (l : Location) : Page := {| location := l; view := mount l |}.

(** A handler or an effect of a component: it changes the cells of the
    instance it belongs to, and runs only while that instance is
    mounted. *)
Inductive Handler :=
| OfDashboard (h : Dashboard.State -> Dashboard.State)
| OfTraceView (h : string -> TraceView.State -> TraceView.State)
| OfAgentGraph (h : AgentGraph.State -> AgentGraph.State).

Definition handle (v : View) (h : Handler) : View :=
  match v, h with
  | DashboardView s, OfDashboard f => DashboardView (f s)
  | TraceViewView traceId s, OfTraceView f => TraceViewView traceId (f traceId s)
  | AgentGraphView s, OfAgentGraph f => AgentGraphView (f s)
  | _, _ => v
  end.

(** What happens to the page: a navigation (a link, or the history of the
    browser), [window.location.reload()], which starts the application
    again at the same URL, and the handlers of the mounted component. *)
Inductive Event :=
| Go (l : Location)
| Reload
| Handle (h : Handler).

Definition step (p : Page) (e : Event) : Page :=
  match e with
  | Go l => {| location := l; view := navigate (view p) l |}
  | Reload => load (location p)
  | Handle h => {| location := location p; view := handle (view p) h |}
  end.

Definition run (l0 : Location) (es : list Event) : Page := foldl step (load l0) es.

End App.

(** ** Vocabulary of the statements

    Definitions that the theorems below are stated with: what the
    specification says in its own words, direct descriptions of what a
    piece of the source computes, and sample inputs. *)

(** The identity is a rounding: arithmetic without rounding error. *)
Definition exact : Rounding.
Proof.
  refine {| rnd := fun q => q |}.
  - intros x y Hxy. exact Hxy.
  - intros x. reflexivity.
  - intros z _. reflexivity.
  - intros x _ _. assert (E : (x - x == 0)%Q) by ring. rewrite E.
    apply Qmult_le_0_compat; [apply Qabs_nonneg | discriminate].
Defined.

(** How many traces have errors, counted one trace at a time. *)
Fixpoint count_errors (l : list TraceRow) : Z :=
  match l with
  | [] => 0
  | t :: l' => (if 0 <? error_count t then 1 else 0) + count_errors l'
  end.

(** The layout as the specification words it: a node whose id is in the
    table gets the coordinates of the table, any other node the grid
    position of its index [i] in the input; id, label and type are kept. *)
Definition claimed_position (i : nat) (n : AgentGraph.Node) : Z * Z :=
  match AgentGraph.map_get (AgentGraph.id n) AgentGraph.positions with
  | Some xy => xy
  | None => (100 + (Z.of_nat i mod 5) * 150, 100 + (Z.of_nat i / 5) * 100)
  end.
Definition claimed_layout (nodes : list AgentGraph.Node) : list AgentGraph.Node :=
  imap (fun i n =>
          AgentGraph.set_xy n (Some (claimed_position i n).1)
                              (Some (claimed_position i n).2))
       nodes.

(** The eight ids of the workflow graph. *)
Definition known_ids : list string :=
  [ "__start__"; "plan_workflow"; "guardrails"; "db_agent"; "viz_agent";
    "web_agent"; "respond"; "__end__" ].

(** Whether the value of [chartPayload.type] selects the line chart: it is
    a string of the four letters l, i, n, e, each in either case. *)
Definition letter (lowercase uppercase a : ascii) : bool :=
  Ascii.eqb a lowercase || Ascii.eqb a uppercase.
Definition selects_line (type0 : ResultCard.value) : bool :=
  match type0 with
  | ResultCard.str (String a (String b (String c (String d EmptyString)))) =>
      letter "l" "L" a && letter "i" "I" b && letter "n" "N" c && letter "e" "E" d
  | _ => false
  end.

(** The data and the options handed to the chart: those of the chart
    payload, or the defaults of [renderChart] where they are missing. *)
Definition chart_data (cp : ResultCard.value) : ResultCard.value :=
  match ResultCard.get cp "data" with
  | Normal d =>
      if ResultCard.truthy d then d
      else ResultCard.obj [("labels", ResultCard.arr []); ("datasets", ResultCard.arr [])]
  | Throw _ => ResultCard.undefined
  end.
Definition chart_options (cp : ResultCard.value) : ResultCard.value :=
  match ResultCard.get cp "options" with
  | Normal o => if ResultCard.truthy o then o else ResultCard.obj []
  | Throw _ => ResultCard.undefined
  end.


Import RegExp.

(** *** The shape of a diagnosis text

    A direct description of what the regular expression of
    [formatDiagnosisText] matches, and of the text as prose interleaved with
    fenced blocks. *)


(** The text after three backticks, when the string starts with them. *)
Definition starts_fence (s : jsstring) : option jsstring :=
  match s with
  | a :: b :: c :: rest =>
      if ((a =? 96) && (b =? 96) && (c =? 96))%N then Some rest else None
  | _ => None
  end.

(** The longest prefix of word characters, and what follows it. *)
Fixpoint word_run (s : jsstring) : jsstring * jsstring :=
  match s with
  | c :: s' =>
      if is_word c then (c :: (word_run s').1, (word_run s').2) else ([], s)
  | [] => ([], [])
  end.

(** The text up to the first three backticks, and what follows them. *)
Fixpoint until_fence (s : jsstring) : option (jsstring * jsstring) :=
  match starts_fence s with
  | Some rest => Some ([], rest)
  | None =>
      match s with
      | [] => None
      | c :: s' =>
          match until_fence s' with
          | Some (code, rest) => Some (c :: code, rest)
          | None => None
          end
      end
  end.

(** A fenced block at the start of [s]: the opening fence, a language tag
    of word characters (absent when there is none), a newline, the code up
    to the first closing fence.  The result is what follows the block and
    the two captures. *)
Definition match_fence (s : jsstring) : option (jsstring * list (option jsstring)) :=
  match starts_fence s with
  | None => None
  | Some r =>
      match (word_run r).2 with
      | c :: r2 =>
          if (c =? 10)%N then
            match until_fence r2 with
            | Some (code, rest) =>
                Some (rest, [ (if truthy (word_run r).1 then Some (word_run r).1 else None);
                              Some code ])
            | None => None
            end
          else None
      | [] => None
      end
  end.

(** A fenced block with the prose that follows it: (tag, code, prose). *)
Definition Block : Type := option jsstring * jsstring * jsstring.

Definition fence_text (tag : option jsstring) (code : jsstring) : jsstring :=
  [96; 96; 96]%N ++ default [] tag ++ [10%N] ++ code ++ [96; 96; 96]%N.

(** The text made of the prose [p0] and of the blocks, in order. *)
Fixpoint unsplit (p0 : jsstring) (blocks : list Block) : jsstring :=
  match blocks with
  | [] => p0
  | (tag, code, prose) :: blocks' => p0 ++ fence_text tag code ++ unsplit prose blocks'
  end.

(** [p0] and [blocks] are the prose and the fenced blocks of [text] found
    by scanning from the left: where a fenced block starts there is a
    block, and the scan goes on after it; elsewhere the character is
    prose. *)
Inductive scanned : jsstring -> jsstring -> list Block -> Prop :=
| scanned_end : scanned [] [] []
| scanned_prose c text p0 blocks :
    match_fence (c :: text) = None ->
    scanned text p0 blocks ->
    scanned (c :: text) (c :: p0) blocks
| scanned_block text tag code rest prose blocks :
    match_fence text = Some (rest, [tag; Some code]) ->
    scanned rest prose blocks ->
    scanned text [] ((tag, code, prose) :: blocks).

(** The tag is a non-empty run of word characters when present, and the
    code ends at the first closing fence. *)
Definition block_ok (b : Block) : Prop :=
  match b.1.1 with
  | Some w => w ≠ [] ∧ forallb is_word w = true
  | None => True
  end
  ∧ until_fence (b.1.2 ++ [96; 96; 96]%N) = Some (b.1.2, []).

(** The elements of a prose segment and of the blocks: a span for prose
    that is not all white space (with the text as it is), a code block with
    the tag, or [javascript] without a tag, for a fenced block.  The segment
    number [k] fixes the keys. *)
Definition span (k : nat) (prose : jsstring) : list TraceView.Element :=
  if truthy (trim prose) then [TraceView.Span (3 * k) prose] else [].

Fixpoint render_blocks (k : nat) (blocks : list Block) : list TraceView.Element :=
  match blocks with
  | [] => []
  | (tag, code, prose) :: blocks' =>
      TraceView.CodeBlock (3 * k + 2) (default (codeUnits "javascript") tag) (Some code)
      :: span (S k) prose ++ render_blocks (S k) blocks'
  end.

Definition render (p0 : jsstring) (blocks : list Block) : list TraceView.Element :=
  span 0 p0 ++ render_blocks 0 blocks.

(** The array [split] returns for that prose and those blocks. *)
Fixpoint flat_blocks (blocks : list Block) : list (option jsstring) :=
  match blocks with
  | [] => []
  | (tag, code, prose) :: blocks' => tag :: Some code :: Some prose :: flat_blocks blocks'
  end.
Definition parts_of (p0 : jsstring) (blocks : list Block) : list (option jsstring) :=
  Some p0 :: flat_blocks blocks.

(** *** Auxiliary definitions of the proofs *)

Section Auxiliary.
Context `{Rounding}.
Import AgentGraph.

(** The zoom factor is within the bounds of the canvas. *)
Definition zoom_in_range (s : State) : Prop :=
  (literal (1 # 10) <= zoom s ∧ zoom s <= 3)%Q.

(** The entry of a node in the map of [positionNodes]. *)
Definition entry (n : Node) : string * Node := (id n, n).

(** What [place] makes of a node, as a function of the node. *)
Definition placed (nodes : list Node) (n : Node) : Node :=
  match positions_get (id n) with
  | Own px py => set_xy n (Some px) (Some py)
  | Inherited => set_xy n None None
  | Undefined =>
      let index := findIndex (fun m => String.eqb (id m) (id n)) nodes in
      set_xy n (Some (100 + Z.rem index 5 * 150))
               (Some (100 + Math_floor (fdiv (inject_Z index) 5) * 100))
  end.

End Auxiliary.

Section FenceAuxiliary.
Import TraceView.

(** The three closing backticks. *)
Definition closing : regex := Cat (Chr backtick) (Cat (Chr backtick) (Chr backtick)).

(** The loop of the lazy [[\s\S]*?] with continuation [k]. *)
Definition lazy_any (k : Continuation) : nat -> MatchState -> option MatchState :=
  fix more (n : nat) (y : MatchState) : option MatchState :=
    match n with
    | O => k y
    | S n' =>
        match k y with
        | Some z => Some z
        | None => matcher (Cls any_char) (more n') y
        end
    end.

(** The loop of the greedy [\w+] with continuation [k]. *)
Definition greedy_word (k : Continuation) : nat -> MatchState -> option MatchState :=
  fix more (n : nat) (y : MatchState) : option MatchState :=
    match n with
    | O => k y
    | S n' =>
        match matcher (Cls is_word) (more n') y with
        | Some z => Some z
        | None => k y
        end
    end.

(** What follows the optional tag: the newline, the code, the closing
    fence. *)
Definition body : regex :=
  Cat (Chr newline) (Cat (Group 2 (StarLazy (Cls any_char))) closing).

End FenceAuxiliary.

(** *** Sample inputs *)

(** The brain server refuses the history request. *)
Definition sample_response : Api.Response (list InterventionEvent) :=
  {| Api.ok := false; Api.status := 403; Api.body := inr (Api.NotJson "Unexpected token <") |}.

(** The observability server answers the status request with 200 and a
    page of HTML. *)
Definition unreadable_response : Api.Response SystemStatus :=
  {| Api.ok := true; Api.status := 200; Api.body := inr (Api.NotJson "Unexpected token <") |}.

(** A dashboard with 23 traces, on page 3; the traces with an odd number
    have an error. *)
Definition sample_trace (n : Z) : TraceRow :=
  {| trace_id := pretty n; span_count := 1; error_count := n mod 2; duration_ms := 5 |}.
Definition sample_dashboard : Dashboard.State :=
  {| Dashboard.status := None;
     Dashboard.traces := map sample_trace (seqZ 0 23);
     Dashboard.interventions := [];
     Dashboard.loading := false;
     Dashboard.error := None;
     Dashboard.currentPage := 3 |}.

(** Two nodes with the same id, and a node named like a member of
    [Object.prototype]. *)
Definition node_a1 : AgentGraph.Node :=
  {| AgentGraph.id := "a"; AgentGraph.label := "first"; AgentGraph.type := "agent";
     AgentGraph.x := None; AgentGraph.y := None |}.
Definition node_a2 : AgentGraph.Node :=
  {| AgentGraph.id := "a"; AgentGraph.label := "second"; AgentGraph.type := "control";
     AgentGraph.x := None; AgentGraph.y := None |}.
Definition node_ctor : AgentGraph.Node :=
  {| AgentGraph.id := "constructor"; AgentGraph.label := "c"; AgentGraph.type := "agent";
     AgentGraph.x := None; AgentGraph.y := None |}.

(** Two nodes of the workflow and one that the table does not know. *)
Definition node_start : AgentGraph.Node :=
  {| AgentGraph.id := "__start__"; AgentGraph.label := "Start"; AgentGraph.type := "control";
     AgentGraph.x := None; AgentGraph.y := None |}.
Definition node_db : AgentGraph.Node :=
  {| AgentGraph.id := "db_agent"; AgentGraph.label := "DB"; AgentGraph.type := "agent";
     AgentGraph.x := None; AgentGraph.y := None |}.
Definition node_summary : AgentGraph.Node :=
  {| AgentGraph.id := "summarise"; AgentGraph.label := "Summary"; AgentGraph.type := "agent";
     AgentGraph.x := None; AgentGraph.y := None |}.
Definition sample_nodes : list AgentGraph.Node := [node_start; node_db; node_summary].

(** Answers of the ask endpoint that ask for a line chart in capitals, and
    for a chart whose type is a number. *)
Definition line_payload : ResultCard.value :=
  ResultCard.obj
    [ ("chartjs", ResultCard.obj [ ("type", ResultCard.str "LINE");
                                   ("data", ResultCard.arr [ResultCard.num 1]) ]) ].
Definition numeric_type_payload : ResultCard.value :=
  ResultCard.obj [ ("chartjs", ResultCard.obj [ ("type", ResultCard.num 5) ]) ].

(** An answer of the ask endpoint that asks for a pie chart. *)
Definition pie_payload : ResultCard.value :=
  ResultCard.obj
    [ ("answer", ResultCard.str "Spending by vendor");
      ("chartjs", ResultCard.obj [ ("type", ResultCard.str "pie") ]) ].


(** ** More of the components

    The rest of what the components compute: the page buttons of the
    dashboard, the preview, the timestamp cell and the diagnosis of the
    trace view, what the agent graph draws, the ask form of the banking
    assistant, and the proxy in front of the API client. *)

(** *** components/Dashboard.tsx: the pagination controls *)

Module DashboardRender.

Import Dashboard.


Section Pages.
Context `{Rounding}.

(** [Array.from({ length: totalPages }, (_, i) => i + 1)] *)
Definition pages (s : State) : list Z := seqZ 1 (totalPages s).



(** The traces of page [page]: what [currentTraces] is once [goToPage] has
    run. *)
Definition tracesOfPage (s : State) (page : Z) : list TraceRow :=
  currentTraces (goToPage page s).

End Pages.


End DashboardRender.

(** *** components/TraceView.tsx: the table cells and the diagnosis *)

Module TraceViewRender.

Import RegExp TraceView.

(** A string that is not empty. *)
Definition nonempty (s : option string) : bool :=
  match s with
  | Some v => negb (String.eqb v "")
  | None => false
  end.

(** [`${v}`] for an optional string. *)
Definition template (s : option string) : string := default "undefined" s.

Definition getPreview (event : TraceEvent) : string :=
  if String.eqb (event_type event) "span_start" then
    let parts :=
      (if nonempty (args_preview event)
       then ["args=" +:+ default "" (args_preview event)] else [])
      ++ (if nonempty (kwargs_preview event)
          then ["kwargs=" +:+ default "" (kwargs_preview event)] else []) in
    String.concat "  " parts
  else if String.eqb (event_type event) "span_end" then
    if String.eqb (ev_status event) "error"
    then template (error_type event) +:+ ": " +:+ template (error_message event)
    else if nonempty (result_preview event) then default "" (result_preview event) else ""
  else "".

(** The preview cell is there when the preview is not empty. *)
Definition showsPreview (event : TraceEvent) : bool :=
  negb (String.eqb (getPreview event) "").

(** [event.timestamp ? event.timestamp.slice(-12, -4) : ''], on the code
    units of the timestamp; [String.prototype.slice] treats its bounds as
    [Array.prototype.slice] does. *)
Definition timestampCell {A} (timestamp : list A) : list A :=
  match timestamp with
  | [] => []
  | _ => slice (-12) (-4) timestamp
  end.




(** [err.message]; every value thrown here is an [Error]. *)
Definition message (e : JsError) : string :=
  match e with
  | Error m | TypeError m | SyntaxError m => m
  end.





End TraceViewRender.

(** *** components/AgentGraph.tsx: what is drawn *)

Module AgentGraphRender.

Import AgentGraph.

(** A coordinate that is there and not zero: [!node.x] is false. *)
Definition coordinate (c : option Z) : bool :=
  match c with
  | Some v => negb (v =? 0)
  | None => false
  end.

(** A node is drawn unless [!node.x || !node.y]. *)
Definition drawsNode (node : Node) : bool := coordinate (x node) && coordinate (y node).

(** [nodes.find(n => n.id === key)] *)
Definition findNode (nodes : list Node) (key : string) : option Node :=
  List.find (fun n => String.eqb (id n) key) nodes.

(** An edge is drawn when both of its ends are found and have
    coordinates. *)
Definition drawsEdge (nodes : list Node) (edge : Edge) : bool :=
  match findNode nodes (source edge), findNode nodes (target edge) with
  | Some sourceNode, Some targetNode => drawsNode sourceNode && drawsNode targetNode
  | _, _ => false
  end.

Definition getNodeColor (type : string) : string :=
  if String.eqb type "agent" then "#4f46e5"
  else if String.eqb type "control" then "#06b6d4"
  else "#6b7280".

(** [s.split(sep)] for a separator of one character: the pieces between
    the separators, at least one. *)
Fixpoint split (sep : ascii) (s : string) : list string :=
  match s with
  | EmptyString => [EmptyString]
  | String a s' =>
      if Ascii.eqb a sep then EmptyString :: split sep s'
      else match split sep s' with
           | piece :: pieces => String a piece :: pieces
           | [] => [String a EmptyString]
           end
  end.

(** The label on an edge: [edge.target.split('_')[0]]. *)
Definition edgeLabel (edge : Edge) : string :=
  default EmptyString (head (split "_" (target edge))).

(** The percentage between the zoom buttons: [Math.round(zoom * 100)]. *)
Definition zoomLabel `{Rounding} (s : State) : number :=
  Math_round (Num (mul (zoom s) 100)).

End AgentGraphRender.

(** *** frontend/src/App.tsx: the ask form of the banking assistant *)

Module AskApp.

Import RegExp.

Record State := {
  question : jsstring;
  loading : bool;
  payload : ResultCard.value;
  error : option string
}.

(** The [useState] initialisers. *)
Definition initial : State :=
  {| question := []; loading := false; payload := ResultCard.null; error := None |}.

Definition setError (v : option string) : M State unit :=
  modify (fun s => {| question := question s; loading := loading s;
                      payload := payload s; error := v |}).
Definition setLoading (v : bool) : M State unit :=
  modify (fun s => {| question := question s; loading := v;
                      payload := payload s; error := error s |}).
Definition setPayload (v : ResultCard.value) : M State unit :=
  modify (fun s => {| question := question s; loading := loading s;
                      payload := v; error := error s |}).

(** What [handleAsk] reads of the response: only the outcome of [json()];
    it does not look at [ok] or [status]. *)
Record AskResponse := {
  a_ok : bool;
  a_status : Z;
  a_body : ResultCard.value + Api.BodyFailure
}.

Definition a_json (response : AskResponse) : Completion ResultCard.value :=
  match a_body response with
  | inl v => Normal v
  | inr (Api.NotJson m) => Throw (SyntaxError m)
  | inr (Api.BodyUnusable m) => Throw (TypeError m)
  end.

(** ['result' in data] for an object. *)
Fixpoint has_field (name : string) (fields : list (string * ResultCard.value)) : bool :=
  match fields with
  | [] => false
  | (k, _) :: rest => String.eqb k name || has_field name rest
  end.

(** [data && typeof data === 'object' && 'result' in data ? data.result : data];
    an array has no [result]. *)
Definition normalize (data : ResultCard.value) : ResultCard.value :=
  match data with
  | ResultCard.obj fields =>
      if has_field "result" fields then ResultCard.field "result" fields else data
  | _ => data
  end.

(** [String(e)] for an error: its name, then its message when it has
    one. *)
Definition String_of_error (e : JsError) : string :=
  let named (name m : string) :=
    if String.eqb m "" then name else name +:+ ": " +:+ m in
  match e with
  | Error m => named "Error" m
  | TypeError m => named "TypeError" m
  | SyntaxError m => named "SyntaxError" m
  end.

(** [handleAsk], given the outcome of the [fetch] it would make. *)
Definition handleAsk (fetched : Completion AskResponse) : M State unit :=
  fun s =>
    let q := trim (question s) in
    if negb (truthy q) then setError (Some "Please enter a question.") s
    else
      (setError None;;
       setLoading true;;
       setPayload ResultCard.null;;
       try_catch_finally
         (resp ← await fetched;
          data ← await (a_json resp);
          setPayload (normalize data))
         (fun e => setError (Some (String_of_error e)))
         (setLoading false)) s.

(** [canAsk]: the Ask button is enabled. *)
Definition canAsk (s : State) : bool :=
  (0 <? Z.of_nat (length (trim (question s)))) && negb (loading s).

End AskApp.

(** *** vite.config and api.ts: the URLs of the client behind the proxy *)

Module Proxy.




End Proxy.

(** *** Vocabulary of the further statements *)

(** The ids of a list with every id kept where it first occurs: an id is
    added at the end of those seen so far unless it is among them. *)
Definition first_seen (seen : list string) (k : string) : list string :=
  if bool_decide (k ∈ seen) then seen else seen ++ [k].
Definition first_occurrences (ids : list string) : list string :=
  foldl first_seen [] ids.

(** Every entry of the map of [positionNodes] is filed under the id of its
    node. *)
Definition filed_by_id (m : AgentGraph.JsMap AgentGraph.Node) : Prop :=
  Forall (fun e => AgentGraph.id e.2 = e.1) m.

(** The interactions that bear on the zoom, and those that bear on the
    pan. *)
Definition zoom_interactions (es : list AgentGraph.Interaction) : list AgentGraph.Interaction :=
  List.filter (fun e => match e with
                        | AgentGraph.Wheel _ | AgentGraph.ZoomIn
                        | AgentGraph.ZoomOut | AgentGraph.ResetView => true
                        | _ => false
                        end) es.
Definition pan_interactions (es : list AgentGraph.Interaction) : list AgentGraph.Interaction :=
  List.filter (fun e => match e with
                        | AgentGraph.Wheel _ | AgentGraph.ZoomIn | AgentGraph.ZoomOut => false
                        | _ => true
                        end) es.

(** A mouse move at a pointer position. *)
Definition move_to (p : Z * Z) : AgentGraph.Interaction :=
  AgentGraph.MouseMove (inject_Z p.1) (inject_Z p.2).

(** A drag in which a render follows every event: the button goes down at
    [start] and the pointer moves through [points]. *)
Definition drag_rendered (start : Z * Z) (points : list (Z * Z)) : list AgentGraph.Step :=
  AgentGraph.Handle (AgentGraph.MouseDown (inject_Z start.1) (inject_Z start.2))
  :: AgentGraph.Render
  :: flat_map (fun p => [AgentGraph.Handle (move_to p); AgentGraph.Render]) points.

(** The same drag with no render between the moves. *)
Definition drag_batched (start : Z * Z) (points : list (Z * Z)) : list AgentGraph.Step :=
  AgentGraph.Handle (AgentGraph.MouseDown (inject_Z start.1) (inject_Z start.2))
  :: AgentGraph.Render
  :: map (fun p => AgentGraph.Handle (move_to p)) points.

(** The sum of the offsets of the coordinates [xs] from [origin]. *)
Definition offsets (origin : Z) (xs : list Z) : Z :=
  foldr (fun x acc => (x - origin) + acc) 0 xs.

(** A pointer position on a screen. *)
Definition on_screen (p : Z * Z) : Prop :=
  Z.abs p.1 <= 2 ^ 31 ∧ Z.abs p.2 <= 2 ^ 31.

(** The React key of an element of a formatted diagnosis. *)
Definition element_key (e : TraceView.Element) : nat :=
  match e with
  | TraceView.Span key _ | TraceView.CodeBlock key _ _ => key
  end.

(** Every number of the list is at least [lo] and less than the next. *)
Fixpoint increasing (lo : nat) (l : list nat) : Prop :=
  match l with
  | [] => True
  | k :: l' => (lo <= k)%nat ∧ increasing (S k) l'
  end.

(** What every reachable state of the dashboard satisfies. *)
Definition dashboard_invariant (s : Dashboard.State) : Prop :=
  1 <= Dashboard.currentPage s
  ∧ (length (Dashboard.interventions s) <= 5)%nat
  ∧ (Dashboard.error s = None
     ∨ Dashboard.error s = Some "Failed to fetch dashboard data"%string
       ∧ Dashboard.status s = None ∧ Dashboard.traces s = []).

(** *** Further sample inputs *)

(** An event of a trace, with the fields that the preview reads. *)
Definition sample_event (type status : string) (args result : option string) : TraceEvent :=
  {| ev_trace_id := "10b29b05"; span_id := "s1"; parent_span_id := None;
     event_type := type; name := "plan"; category := None; ev_status := status;
     ev_timestamp := "2025-01-01 12:34:56.789012"; server_ts := None;
     ev_duration_ms := None; args_preview := args; kwargs_preview := None;
     result_preview := result; error_type := None; error_message := None |}.


(** The ask form with a question, with a blank question, and an answer of
    the ask endpoint that comes with status 500. *)
Definition sample_ask : AskApp.State :=
  {| AskApp.question := codeUnits "spending?"; AskApp.loading := false;
     AskApp.payload := ResultCard.null; AskApp.error := None |}.
Definition blank_ask : AskApp.State :=
  {| AskApp.question := codeUnits "  "; AskApp.loading := false;
     AskApp.payload := pie_payload; AskApp.error := None |}.
Definition sample_answer : AskApp.AskResponse :=
  {| AskApp.a_ok := false; AskApp.a_status := 500;
     AskApp.a_body :=
       inl (ResultCard.obj [ ("result", ResultCard.obj [ ("answer", ResultCard.str "down") ]) ]) |}.

(** The canvas of the agent graph as it is first rendered. *)
Definition mounted_canvas : AgentGraph.Canvas :=
  {| AgentGraph.rendered := AgentGraph.initial; AgentGraph.latest := AgentGraph.initial |}.

(** An edge of the workflow, and an edge to a node that is not there. *)
Definition edge_start_db : AgentGraph.Edge :=
  {| AgentGraph.source := "__start__"; AgentGraph.target := "db_agent";
     AgentGraph.edge_label := "" |}.
Definition edge_ctor : AgentGraph.Edge :=
  {| AgentGraph.source := "__start__"; AgentGraph.target := "constructor";
     AgentGraph.edge_label := "" |}.

(** The agent graph as the server sends it: the start node and the
    database agent, with the edge between them. *)
Definition sample_graph : Api.Response Api.AgentGraphBody :=
  {| Api.ok := true; Api.status := 200;
     Api.body :=
       inl {| Api.ag_nodes :=
                [ {| Api.gn_id := "__start__"; Api.gn_label := "Start";
                     Api.gn_type := "control" |};
                  {| Api.gn_id := "db_agent"; Api.gn_label := "DB";
                     Api.gn_type := "agent" |} ];
              Api.ag_edges :=
                [ {| Api.ge_source := "__start__"; Api.ge_target := "db_agent";
                     Api.ge_label := "" |} ];
              Api.ag_description := "workflow" |} |}.

(** * Properties *)

(** ** Arrays *)

Lemma slice_window {A} (a n : Z) (l : list A) :
  0 <= a -> 0 <= n -> slice a (a + n) l = take (Z.to_nat n) (drop (Z.to_nat a) l).
Proof.
  intros Ha Hn. unfold slice.
  destruct (a <? 0) eqn:E1; [apply Z.ltb_lt in E1; lia|].
  destruct (a + n <? 0) eqn:E2; [apply Z.ltb_lt in E2; lia|].
  set (len := Z.of_nat (length l)).
  assert (Hlen : length (drop (Z.to_nat a) l) = (length l - Z.to_nat a)%nat)
    by apply length_drop.
  destruct (Z.le_gt_cases len a) as [Hle|Hgt].
  - rewrite (drop_ge l (Z.to_nat (Z.min a len))) by (subst len; lia).
    rewrite (drop_ge l (Z.to_nat a)) by (subst len; lia).
    by rewrite !take_nil.
  - rewrite (Z.min_l a len) by lia.
    destruct (Z.le_gt_cases (a + n) len) as [Hle2|Hgt2].
    + rewrite Z.min_l, Z.max_l by lia. do 2 f_equal. lia.
    + rewrite Z.min_r, Z.max_l by lia.
      rewrite !take_ge; [done| |]; rewrite Hlen; subst len; lia.
Qed.

Lemma slice_from_zero {A} (n : Z) (l : list A) :
  0 <= n -> slice 0 n l = take (Z.to_nat n) l.
Proof.
  intros Hn. pose proof (slice_window 0 n l) as W.
  rewrite Z.add_0_l in W. rewrite W by lia. by rewrite drop_0.
Qed.

(** ** Numbers *)

Section RoundingFacts.
Context `{Rounding}.

#[local] Open Scope Q_scope.

Lemma rnd_proper (x y : Q) : x == y -> rnd x == rnd y.
Proof.
  intros E. apply Qle_antisym; apply rnd_mono; rewrite E; apply Qle_refl.
Qed.

Lemma rnd_0 : rnd 0 == 0.
Proof. apply (rnd_int 0%Z). simpl. lia. Qed.

Lemma rnd_1 : rnd 1 == 1.
Proof. apply (rnd_int 1%Z). simpl. lia. Qed.

Lemma rnd_3 : rnd 3 == 3.
Proof. apply (rnd_int 3%Z). simpl. lia. Qed.

Lemma rnd_100 : rnd 100 == 100.
Proof. apply (rnd_int 100%Z). simpl. lia. Qed.

Lemma rnd_nonneg (x : Q) : 0 <= x -> 0 <= rnd x.
Proof. intros Hx. rewrite <- rnd_0. by apply rnd_mono. Qed.

Lemma rnd_le_int (x : Q) (z : Z) :
  (Z.abs z <= 2 ^ 53)%Z -> x <= inject_Z z -> rnd x <= inject_Z z.
Proof. intros Hz Hx. rewrite <- (rnd_int z Hz). by apply rnd_mono. Qed.

Lemma rnd_ge_int (x : Q) (z : Z) :
  (Z.abs z <= 2 ^ 53)%Z -> inject_Z z <= x -> inject_Z z <= rnd x.
Proof. intros Hz Hx. rewrite <- (rnd_int z Hz). by apply rnd_mono. Qed.

End RoundingFacts.


(** ** Dashboard *)

Section DashboardFacts.
Import Dashboard.

Lemma fetchData_run r0 r1 r2 (s : State) :
  fetchData r0 r1 r2 s =
  (Normal tt,
   {| status := match r0 with fulfilled v => Some v | rejected _ => None end;
      traces := match r1 with fulfilled v => dd_traces v | rejected _ => [] end;
      interventions := match r2 with fulfilled v => slice 0 5 v | rejected _ => [] end;
      loading := false;
      error := if is_rejected r0 && is_rejected r1
               then Some "Failed to fetch dashboard data"%string else None;
      currentPage := currentPage s |}).
Proof. by destruct r0, r1, r2. Qed.

End DashboardFacts.

(** C1.  Whatever the three fetches of the dashboard settle to, [fetchData]
    completes normally; afterwards the top-level error is set if and only
    if both the status fetch and the dashboard-data fetch were rejected, and
    each state cell holds what its fetch delivered, or null, the empty trace
    list or the empty intervention list when that fetch was rejected. *)
Theorem C1_fetchData_settle_all
    (statusResult : PromiseSettledResult SystemStatus)
    (dashboardResult : PromiseSettledResult DashboardData)
    (interventionsResult : PromiseSettledResult (list InterventionEvent))
    (s : Dashboard.State) :
  let out := Dashboard.fetchData statusResult dashboardResult interventionsResult s in
  out.1 = Normal tt
  ∧ (is_Some (Dashboard.error out.2)
     ↔ is_rejected statusResult = true ∧ is_rejected dashboardResult = true)
  ∧ Dashboard.status out.2
    = match statusResult with fulfilled v => Some v | rejected _ => None end
  ∧ Dashboard.traces out.2
    = match dashboardResult with fulfilled v => dd_traces v | rejected _ => [] end
  ∧ Dashboard.interventions out.2
    = match interventionsResult with fulfilled v => take 5 v | rejected _ => [] end
  ∧ Dashboard.loading out.2 = false
  ∧ Dashboard.currentPage out.2 = Dashboard.currentPage s.
Proof.
  intros out. subst out. rewrite fetchData_run. simpl.
  split; [done|]. split.
  { destruct statusResult, dashboardResult; simpl;
      (split; [intros [? ?]; done | intros [? ?]; by eauto]). }
  split; [done|]. split; [done|]. split; [|done].
  destruct interventionsResult; [|done]. by rewrite (slice_from_zero 5).
Qed.

Section QuotientFacts.
Context `{Rounding}.
#[local] Open Scope Q_scope.

(** The rounded quotient of two integers below 2^53 lies strictly between
    the same two integers as the exact quotient, and is the exact quotient
    when that is an integer. *)
Lemma rnd_quotient (n d : Z) :
  (0 <= n < 2 ^ 53)%Z -> (0 < d <= 2 ^ 53)%Z ->
  ((n mod d)%Z = 0%Z -> rnd (inject_Z n / inject_Z d) == inject_Z (n / d)%Z)
  ∧ ((n mod d)%Z <> 0%Z ->
       inject_Z (n / d)%Z < rnd (inject_Z n / inject_Z d)
       ∧ rnd (inject_Z n / inject_Z d) < inject_Z (n / d + 1)%Z).
Proof.
  intros Hn Hd.
  pose proof (Z.div_mod n d ltac:(lia)) as Hdm.
  pose proof (Z.mod_pos_bound n d ltac:(lia)) as Hr.
  assert (Hk : (0 <= n / d <= n)%Z).
  { split; [apply Z.div_pos; lia|]. apply Z.div_le_upper_bound; nia. }
  set (k := (n / d)%Z) in *. set (r := (n mod d)%Z) in *.
  assert (Hqd : 0 < inject_Z d) by (change 0 with (inject_Z 0); rewrite <- Zlt_Qlt; lia).
  assert (Hdne : ~ inject_Z d == 0) by lra.
  assert (Ex : inject_Z n / inject_Z d == inject_Z k + inject_Z r / inject_Z d).
  { rewrite Hdm. rewrite inject_Z_plus, inject_Z_mult. field. exact Hdne. }
  split.
  - intros Hr0. rewrite (rnd_proper _ (inject_Z k)).
    + apply rnd_int. lia.
    + rewrite Ex, Hr0. change (inject_Z 0) with 0. field. exact Hdne.
  - intros Hr0.
    set (y := / inject_Z d).
    assert (Hy : 0 < y) by (by apply Qinv_lt_0_compat).
    assert (Hyd : inject_Z d * y == 1) by (unfold y; field; exact Hdne).
    set (x := inject_Z n / inject_Z d) in *.
    assert (Exy : x == inject_Z n * y) by (unfold x, y; field; exact Hdne).
    assert (Hx0 : 0 <= x).
    { rewrite Exy. apply Qmult_le_0_compat; [|lra].
      change 0 with (inject_Z 0). rewrite <- Zle_Qle. lia. }
    assert (Hy1 : y <= 1).
    { assert (A : 1 * y <= inject_Z d * y).
      { apply Qmult_le_compat_r; [|lra].
        change 1 with (inject_Z 1). rewrite <- Zle_Qle. lia. }
      lra. }
    assert (Hy53 : unit_roundoff <= y).
    { assert (A : inject_Z d * y <= inject_Z (2 ^ 53) * y).
      { apply Qmult_le_compat_r; [|lra]. rewrite <- Zle_Qle. lia. }
      change (inject_Z (2 ^ 53)) with 9007199254740992 in A.
      unfold unit_roundoff. lra. }
    assert (Hn1 : 1 <= inject_Z n).
    { change 1 with (inject_Z 1). rewrite <- Zle_Qle.
      destruct (Z.eq_dec n 0%Z) as [En|]; [|lia].
      exfalso. apply Hr0. subst r. rewrite En. apply Z.mod_0_l. lia. }
    assert (Hn53 : inject_Z n < 9007199254740992).
    { assert (Hn' : inject_Z n < inject_Z (2 ^ 53)) by (rewrite <- Zlt_Qlt; lia).
      exact Hn'. }
    assert (Hxy : y <= x).
    { assert (A : 1 * y <= inject_Z n * y) by (apply Qmult_le_compat_r; lra).
      lra. }
    assert (Hxn : x <= inject_Z n).
    { assert (A : inject_Z n * y <= inject_Z n * 1).
      { rewrite !(Qmult_comm (inject_Z n)). apply Qmult_le_compat_r; lra. }
      lra. }
    pose proof (rnd_err x) as He. rewrite (Qabs_pos x Hx0) in He.
    unfold unit_roundoff, range_min, range_max in *.
    specialize (He ltac:(lra) ltac:(lra)).
    apply Qabs_Qle_condition in He. destruct He as [He1 He2].
    assert (Hry1 : y <= inject_Z r * y).
    { assert (A : 1 * y <= inject_Z r * y).
      { apply Qmult_le_compat_r; [|lra].
        change 1 with (inject_Z 1). rewrite <- Zle_Qle. lia. }
      lra. }
    assert (Hry2 : inject_Z r * y <= 1 - y).
    { assert (A : inject_Z r * y <= (inject_Z d - 1) * y).
      { apply Qmult_le_compat_r; [|lra].
        change 1 with (inject_Z 1). unfold Qminus.
        rewrite <- inject_Z_opp, <- inject_Z_plus, <- Zle_Qle. lia. }
      lra. }
    assert (Hsmall : x * (1 # 9007199254740992) < y).
    { assert (A : inject_Z n * (1 # 9007199254740992) * y < 1 * y).
      { apply Qmult_lt_compat_r; [exact Hy|]. lra. }
      assert (B : x * (1 # 9007199254740992)
                  == inject_Z n * (1 # 9007199254740992) * y) by (rewrite Exy; ring).
      lra. }
    assert (Ex' : x == inject_Z k + inject_Z r * y).
    { rewrite Ex. unfold y. field. exact Hdne. }
    rewrite inject_Z_plus. change (inject_Z 1) with 1.
    split; lra.
Qed.

Lemma Qceiling_unique (x : Q) (z : Z) :
  inject_Z (z - 1) < x -> x <= inject_Z z -> Qceiling x = z.
Proof.
  intros H1 H2.
  pose proof (Qle_ceiling x) as C1. pose proof (Qceiling_lt x) as C2.
  assert (A : (z - 1 < Qceiling x)%Z) by (rewrite Zlt_Qlt; lra).
  assert (B : (Qceiling x - 1 < z)%Z) by (rewrite Zlt_Qlt; lra).
  lia.
Qed.

Lemma Qfloor_unique (x : Q) (z : Z) :
  inject_Z z <= x -> x < inject_Z (z + 1) -> Qfloor x = z.
Proof.
  intros H1 H2.
  pose proof (Qfloor_le x) as C1. pose proof (Qlt_floor x) as C2.
  assert (A : (z < Qfloor x + 1)%Z) by (rewrite Zlt_Qlt; lra).
  assert (B : (Qfloor x < z + 1)%Z) by (rewrite Zlt_Qlt; lra).
  lia.
Qed.

(** [Math.ceil(n / d)] and [Math.floor(n / d)] are the integer ceiling and
    floor of the quotient for integers in the range of array lengths. *)
Lemma Math_ceil_quotient (n d : Z) :
  (0 <= n < 2 ^ 53)%Z -> (0 < d <= 2 ^ 53)%Z ->
  Math_ceil (fdiv (inject_Z n) (inject_Z d)) = ((n + d - 1) / d)%Z.
Proof.
  intros Hn Hd. unfold Math_ceil, fdiv.
  destruct (rnd_quotient n d Hn Hd) as [H0 H1].
  pose proof (Z.div_mod n d ltac:(lia)) as Hdm.
  pose proof (Z.mod_pos_bound n d ltac:(lia)) as Hr.
  destruct (Z.eq_dec (n mod d)%Z 0%Z) as [E|E].
  - assert (Ek : ((n + d - 1) / d = n / d)%Z).
    { symmetry. apply (Z.div_unique _ _ _ (d - 1)); lia. }
    rewrite Ek. apply Qceiling_unique.
    + rewrite (H0 E). rewrite <- Zlt_Qlt. lia.
    + rewrite (H0 E). apply Qle_refl.
  - assert (Ek : ((n + d - 1) / d = n / d + 1)%Z).
    { symmetry. apply (Z.div_unique _ _ _ (n mod d - 1)); lia. }
    rewrite Ek. destruct (H1 E) as [A B]. apply Qceiling_unique.
    + replace (n / d + 1 - 1)%Z with (n / d)%Z by lia. exact A.
    + apply Qlt_le_weak. exact B.
Qed.

Lemma Math_floor_quotient (n d : Z) :
  (0 <= n < 2 ^ 53)%Z -> (0 < d <= 2 ^ 53)%Z ->
  Math_floor (fdiv (inject_Z n) (inject_Z d)) = (n / d)%Z.
Proof.
  intros Hn Hd. unfold Math_floor, fdiv.
  destruct (rnd_quotient n d Hn Hd) as [H0 H1].
  destruct (Z.eq_dec (n mod d)%Z 0%Z) as [E|E].
  - apply Qfloor_unique.
    + rewrite (H0 E). apply Qle_refl.
    + rewrite (H0 E). rewrite <- Zlt_Qlt. lia.
  - destruct (H1 E) as [A B]. apply Qfloor_unique.
    + apply Qlt_le_weak. exact A.
    + exact B.
Qed.

End QuotientFacts.


Section DashboardStatistics.
Context `{Rounding}.
Import Dashboard.

Lemma errorTraces_count (s : State) : errorTraces s = count_errors (traces s).
Proof.
  unfold errorTraces. induction (traces s) as [|t l IH]; [done|].
  rewrite filter_cons. simpl count_errors.
  destruct (0 <? error_count t) eqn:E.
  - apply Z.ltb_lt in E. rewrite decide_True by done. simpl length. lia.
  - apply Z.ltb_ge in E. rewrite decide_False by lia. lia.
Qed.

Lemma errorTraces_bounds (s : State) : 0 <= errorTraces s <= traces_length s.
Proof.
  unfold errorTraces, traces_length.
  pose proof (length_filter (fun t => 0 < error_count t) (traces s)). lia.
Qed.

Lemma div_nonzero (a b : Q) : ¬ (b == 0)%Q -> div a b = Num (fdiv a b).
Proof.
  intros Hb. unfold div, fdiv.
  destruct (Qeq_bool b 0) eqn:E; [|done].
  apply Qeq_bool_iff in E. contradiction.
Qed.

(** C10.  The statistics of the dashboard are total.  The error rate is
    the constant 0 when there is no trace and otherwise
    [Math.round(errorTraces / traces.length * 100)], where the division has
    a divisor different from zero, so that the figure is always a finite
    integer (between 0 and 100), never NaN or Infinity.  [errorTraces] is
    the number of traces whose [error_count] is positive.  Total Events is
    the database count when the database is connected, the memory count
    when it is not, and 0 when there is no status. *)
Theorem C10_statistics_total (s : State) :
  errorRate s
  = (if 0 <? traces_length s
     then Math_round
            (Num (mul (fdiv (inject_Z (errorTraces s)) (inject_Z (traces_length s))) 100))
     else Num 0)
  ∧ (∃ z : Z, errorRate s = Num (inject_Z z) ∧ 0 <= z <= 100)
  ∧ errorTraces s = count_errors (traces s)
  ∧ totalTraces s
    = match status s with
      | Some st =>
          if connected (database st) then db_trace_count (database st)
          else mem_trace_count (memory st)
      | None => 0
      end.
Proof.
  assert (Hrate : errorRate s
    = (if 0 <? traces_length s
       then Math_round
              (Num (mul (fdiv (inject_Z (errorTraces s)) (inject_Z (traces_length s))) 100))
       else Num 0)).
  { unfold errorRate. destruct (0 <? traces_length s) eqn:E; [|done].
    apply Z.ltb_lt in E. rewrite div_nonzero; [done|].
    intros Hz. unfold Qeq in Hz. simpl in Hz. lia. }
  split; [exact Hrate|]. split; [|split; [apply errorTraces_count | done]].
  rewrite Hrate. destruct (0 <? traces_length s) eqn:E.
  - apply Z.ltb_lt in E. pose proof (errorTraces_bounds s) as [He0 He1].
    unfold Math_round. eexists. split; [reflexivity|].
    set (e := inject_Z (errorTraces s)). set (n := inject_Z (traces_length s)).
    assert (Hn : (0 < n)%Q) by (subst n; change 0%Q with (inject_Z 0); rewrite <- Zlt_Qlt; lia).
    assert (He : (0 <= e)%Q) by (subst e; change 0%Q with (inject_Z 0); rewrite <- Zle_Qle; lia).
    assert (Hen : (e <= n)%Q) by (subst e n; rewrite <- Zle_Qle; lia).
    assert (Hq0 : (0 <= e / n)%Q).
    { apply Qle_shift_div_l; [exact Hn|]. lra. }
    assert (Hq1 : (e / n <= 1)%Q).
    { apply Qle_shift_div_r; [exact Hn|]. lra. }
    assert (Hf0 : (0 <= fdiv e n)%Q) by (unfold fdiv; by apply rnd_nonneg).
    assert (Hf1 : (fdiv e n <= 1)%Q).
    { unfold fdiv. apply (rnd_le_int _ 1); [simpl; lia | exact Hq1]. }
    generalize dependent (fdiv e n). intros f Hf0 Hf1.
    assert (Hm0 : (0 <= mul f 100)%Q).
    { unfold mul. apply rnd_nonneg. lra. }
    assert (Hm1 : (mul f 100 <= 100)%Q).
    { unfold mul. apply (rnd_le_int _ 100); [simpl; lia|].
      change (inject_Z 100) with 100%Q. lra. }
    split.
    + change 0 with (Qfloor 0). apply Qfloor_resp_le. lra.
    + assert (A : Qfloor (mul f 100 + (1 # 2)) <= Qfloor (100 + (1 # 2))).
      { apply Qfloor_resp_le. lra. }
      change (Qfloor (100 + (1 # 2))) with 100 in A. exact A.
  - exists 0. split; [done | lia].
Qed.

End DashboardStatistics.

Section DashboardPagination.
Context `{Rounding}.
Import Dashboard.

Lemma traces_length_range (s : State) :
  traces_length s <= max_array_length -> 0 <= traces_length s < 2 ^ 53.
Proof. unfold traces_length, max_array_length. lia. Qed.

Lemma totalPages_ceiling (s : State) :
  traces_length s <= max_array_length ->
  totalPages s = (traces_length s + 9) / 10.
Proof.
  intros Hlen. unfold totalPages, tracesPerPage.
  rewrite Math_ceil_quotient by (by apply traces_length_range || lia).
  f_equal. lia.
Qed.

Lemma totalPages_nonneg (s : State) :
  traces_length s <= max_array_length -> 0 <= totalPages s.
Proof.
  intros Hlen. rewrite totalPages_ceiling by done.
  apply Z.div_pos; unfold traces_length; lia.
Qed.

(** The page cursor of a dashboard that was mounted and then used is a
    page number: it never drops below 1. *)
Lemma interact_page_positive (s : State) (e : Interaction) :
  1 <= currentPage s -> 1 <= currentPage (interact s e).
Proof.
  intros Hp. destruct e as [r0 r1 r2| | |page]; simpl.
  - rewrite fetchData_run. simpl. exact Hp.
  - destruct (paginated s && negb (currentPage s =? 1)); simpl; lia.
  - destruct (paginated s && negb (currentPage s =? totalPages s)) eqn:E; [|done].
    apply andb_prop in E as [E1 _]. unfold paginated in E1.
    apply andb_prop in E1 as [_ E1]. apply Z.ltb_lt in E1. simpl. lia.
  - destruct (paginated s && (1 <=? page) && (page <=? totalPages s) && showPage s page)
      eqn:E; [|done].
    apply andb_prop in E as [E _]. apply andb_prop in E as [E _].
    apply andb_prop in E as [_ E]. apply Z.leb_le in E. simpl. exact E.
Qed.

Lemma run_page_positive (es : list Interaction) : 1 <= currentPage (run es).
Proof.
  unfold run. induction es as [|e es IH] using rev_ind; [simpl; lia|].
  rewrite foldl_app. simpl. by apply interact_page_positive.
Qed.

(** C2.  With any list of traces (an array, so of length at most 2^32 - 1)
    and any page number [p >= 1] as the current page: a page has 10 traces;
    the number of pages is the ceiling of [length / 10]; the table shows, in
    order, exactly the traces at the zero-based indices [(p-1)*10 + i] for
    [i < 10] that exist in the list; Previous never leads below page 1 and
    Next never leads above the number of pages. *)
Theorem C2_pagination (s : State) :
  traces_length s <= max_array_length ->
  1 <= currentPage s ->
  tracesPerPage = 10
  ∧ 10 * (totalPages s - 1) < traces_length s <= 10 * totalPages s
  ∧ (∀ i : nat,
       currentTraces s !! i
       = if (i <? 10)%nat
         then traces s !! (Z.to_nat ((currentPage s - 1) * 10) + i)%nat
         else None)
  ∧ 1 <= currentPage (goToPrevious s)
  ∧ currentPage (goToNext s) <= totalPages s.
Proof.
  intros Hlen Hp. split; [done|]. split; [|split; [|split]].
  - rewrite totalPages_ceiling by done.
    pose proof (traces_length_range s Hlen) as [Hn _].
    pose proof (Z.div_mod (traces_length s + 9) 10 ltac:(lia)) as Hdm.
    pose proof (Z.mod_pos_bound (traces_length s + 9) 10 ltac:(lia)) as Hr.
    lia.
  - intros i. unfold currentTraces, endIndex, startIndex, tracesPerPage.
    rewrite slice_window by lia. change (Z.to_nat 10) with 10%nat.
    destruct (i <? 10)%nat eqn:E.
    + apply Nat.ltb_lt in E. rewrite lookup_take_lt by done. by rewrite lookup_drop.
    + apply Nat.ltb_ge in E. by rewrite lookup_take_ge.
  - simpl. lia.
  - simpl. lia.
Qed.

End DashboardPagination.

Lemma C2_pagination_witness :
  Dashboard.totalPages (H := exact) sample_dashboard = 3
  ∧ Dashboard.currentTraces sample_dashboard = map sample_trace [20; 21; 22]
  ∧ 10 * (Dashboard.totalPages (H := exact) sample_dashboard - 1)
    < Dashboard.traces_length sample_dashboard
    <= 10 * Dashboard.totalPages (H := exact) sample_dashboard.
Proof.
  split; [reflexivity|]. split; [reflexivity|].
  apply (C2_pagination (H := exact) sample_dashboard); vm_compute; congruence.
Defined.

(** ** AgentGraph: zoom and pan *)

Section AgentGraphZoom.
Context `{Rounding}.
Import AgentGraph.
#[local] Open Scope Q_scope.

Lemma Math_max_lub (a b : Q) : a <= Math_max a b ∧ b <= Math_max a b.
Proof. unfold Math_max. destruct (Qlt_le_dec a b); split; lra. Qed.

Lemma Math_max_le (a b c : Q) : a <= c -> b <= c -> Math_max a b <= c.
Proof. unfold Math_max. by destruct (Qlt_le_dec a b). Qed.

Lemma Math_min_glb (a b : Q) : Math_min a b <= a ∧ Math_min a b <= b.
Proof. unfold Math_min. destruct (Qlt_le_dec b a); split; lra. Qed.

Lemma Math_min_ge (a b c : Q) : c <= a -> c <= b -> c <= Math_min a b.
Proof. unfold Math_min. by destruct (Qlt_le_dec b a). Qed.

(** The literal [0.1] is a double between 0 and 1, the literal [1.2] one
    that is at least 1. *)
Lemma literal_tenth_range : 0 <= literal (1 # 10) ∧ literal (1 # 10) <= 1.
Proof.
  unfold literal. split.
  - apply rnd_nonneg. lra.
  - apply (rnd_le_int _ 1); [simpl; lia|]. change (inject_Z 1) with 1. lra.
Qed.

Lemma literal_twelve_tenths_ge_1 : 1 <= literal (12 # 10).
Proof.
  unfold literal. apply (rnd_ge_int _ 1); [simpl; lia|].
  change (inject_Z 1) with 1. lra.
Qed.

Lemma initial_in_range : zoom_in_range initial.
Proof.
  pose proof literal_tenth_range. unfold zoom_in_range. simpl. lra.
Qed.

Lemma rnd_ge_tenth (v : Q) : literal (1 # 10) <= v -> literal (1 # 10) <= rnd v.
Proof.
  intros Hv. unfold literal in *. rewrite <- (rnd_idem (1 # 10)). by apply rnd_mono.
Qed.

Lemma interact_in_range (s : State) (e : Interaction) :
  zoom_in_range s -> zoom_in_range (interact s e).
Proof.
  intros [Hlo Hhi]. pose proof literal_tenth_range as [Ht0 Ht1].
  pose proof literal_twelve_tenths_ge_1 as Hk.
  destruct e as [deltaY|cx cy|cx cy| | | | | ]; unfold zoom_in_range; simpl.
  - split.
    + apply Math_max_lub.
    + apply Math_max_le; [lra|]. apply Math_min_glb.
  - done.
  - unfold handleMouseMove. by destruct (negb (isDragging s)).
  - done.
  - done.
  - split.
    + apply Math_min_ge; [lra|]. unfold mul. apply rnd_ge_tenth.
      assert (A : zoom s * 1 <= zoom s * literal (12 # 10)).
      { rewrite !(Qmult_comm (zoom s)). apply Qmult_le_compat_r; lra. }
      lra.
    + apply Math_min_glb.
  - split.
    + apply Math_max_lub.
    + apply Math_max_le; [lra|]. unfold fdiv.
      apply (rnd_le_int _ 3); [simpl; lia|]. change (inject_Z 3) with 3.
      apply Qle_shift_div_r; [lra|].
      assert (A : 3 * 1 <= 3 * literal (12 # 10)).
      { rewrite !(Qmult_comm 3). apply Qmult_le_compat_r; lra. }
      lra.
  - pose proof literal_tenth_range. lra.
Qed.

Lemma foldl_in_range (es : list Interaction) (s : State) :
  zoom_in_range s -> zoom_in_range (foldl interact s es).
Proof.
  revert s. induction es as [|e es IH]; intros s Hs; [done|].
  simpl. apply IH. by apply interact_in_range.
Qed.

(** C4.  From the initial view, after any finite sequence of wheel events,
    zoom-in and zoom-out clicks, drags and resets, the zoom factor is at
    least the literal [0.1] and at most 3; and the reset, from any state,
    sets the zoom to exactly 1 and both pan offsets to exactly 0. *)
Theorem C4_zoom_bounds (es : list Interaction) (s : State) :
  (literal (1 # 10) <= zoom (run es) ∧ zoom (run es) <= 3)
  ∧ zoom initial = 1 ∧ panX initial = 0 ∧ panY initial = 0
  ∧ zoom (resetView s) = 1 ∧ panX (resetView s) = 0 ∧ panY (resetView s) = 0.
Proof.
  split; [|done]. apply foldl_in_range, initial_in_range.
Qed.

End AgentGraphZoom.

(** ** AgentGraph: node layout *)

Section AgentGraphLayout.
Context `{Rounding}.
Import AgentGraph.

Lemma map_get_app_notin {V} (k : string) (m1 m2 : JsMap V) :
  k ∉ m1.*1 -> map_get k (m1 ++ m2) = map_get k m2.
Proof.
  induction m1 as [|[k' v'] m1 IH]; intros Hk; [done|].
  simpl in *. apply not_elem_of_cons in Hk as [Hne Hk].
  destruct (String.eqb_spec k' k) as [->|_]; [done|]. by apply IH.
Qed.

Lemma map_set_app_notin {V} (k : string) (v : V) (m1 m2 : JsMap V) :
  k ∉ m1.*1 -> map_set k v (m1 ++ m2) = m1 ++ map_set k v m2.
Proof.
  induction m1 as [|[k' v'] m1 IH]; intros Hk; [done|].
  simpl in *. apply not_elem_of_cons in Hk as [Hne Hk].
  destruct (String.eqb_spec k' k) as [->|_]; [done|]. by rewrite IH.
Qed.

Lemma map_set_notin {V} (k : string) (v : V) (m : JsMap V) :
  k ∉ m.*1 -> map_set k v m = m ++ [(k, v)].
Proof.
  intros Hk. rewrite <- (app_nil_r m) at 1.
  by rewrite map_set_app_notin.
Qed.

(** With distinct ids, [new Map] lists the entries in input order. *)
Lemma new_Map_distinct (m : JsMap Node) (nodes : list Node) :
  NoDup (m.*1 ++ map id nodes) ->
  foldl (fun m e => map_set e.1 e.2 m) m (map entry nodes) = m ++ map entry nodes.
Proof.
  revert m. induction nodes as [|n nodes IH]; intros m Hnd; simpl.
  - by rewrite app_nil_r.
  - assert (Hn : id n ∉ m.*1).
    { apply NoDup_app in Hnd as (_ & Hd & _). intros Hin. apply (Hd _ Hin). left. }
    rewrite map_set_notin by done. rewrite IH.
    + by rewrite <- app_assoc.
    + rewrite fmap_app. simpl. rewrite <- app_assoc. exact Hnd.
Qed.

Lemma placed_id nodes n : id (placed nodes n) = id n.
Proof. unfold placed. by destruct (positions_get (id n)). Qed.

Lemma place_fresh (nodes : list Node) (m1 m2 : JsMap Node) (n : Node) :
  id n ∉ m1.*1 ->
  place nodes (m1 ++ entry n :: m2) n = m1 ++ entry (placed nodes n) :: m2.
Proof.
  intros Hn. unfold place.
  rewrite map_get_app_notin by done. simpl. rewrite String.eqb_refl.
  unfold placed, entry.
  destruct (positions_get (id n)); rewrite map_set_app_notin by done;
    simpl; by rewrite String.eqb_refl.
Qed.

Lemma foldl_place_distinct (nodes : list Node) (m : JsMap Node) (todo : list Node) :
  NoDup (m.*1 ++ map id todo) ->
  foldl (place nodes) (m ++ map entry todo) todo = m ++ map (fun n => entry (placed nodes n)) todo.
Proof.
  revert m. induction todo as [|n todo IH]; intros m Hnd; [done|].
  simpl. assert (Hn : id n ∉ m.*1).
  { apply NoDup_app in Hnd as (_ & Hd & _). intros Hin. apply (Hd _ Hin). left. }
  rewrite place_fresh by done.
  rewrite (cons_middle (entry (placed nodes n))), app_assoc. rewrite IH.
  - by rewrite <- app_assoc.
  - rewrite fmap_app. simpl. rewrite placed_id, <- app_assoc. exact Hnd.
Qed.

Lemma positionNodes_distinct (nodes : list Node) (edges : list Edge) :
  NoDup (map id nodes) ->
  positionNodes nodes edges = map (placed nodes) nodes.
Proof.
  intros Hnd. unfold positionNodes, new_Map.
  change (map (fun n => (id n, n)) nodes) with (map entry nodes).
  pose proof (new_Map_distinct [] nodes Hnd) as E1.
  pose proof (foldl_place_distinct nodes [] nodes Hnd) as E2.
  rewrite app_nil_l in E1, E2. rewrite E1, E2.
  unfold map_values. rewrite app_nil_l.
  generalize (placed nodes). intros g. clear.
  induction nodes as [|n l IH]; [done|]. simpl. by rewrite <- IH.
Qed.

Lemma findIndex_from_distinct (nodes : list Node) (i : nat) (n : Node) (base : Z) :
  NoDup (map id nodes) -> nodes !! i = Some n ->
  findIndex_from (fun m => String.eqb (id m) (id n)) nodes base = base + Z.of_nat i.
Proof.
  revert i base. induction nodes as [|m nodes IH]; intros i base Hnd Hi; [done|].
  simpl in Hnd. apply NoDup_cons in Hnd as [Hm Hnd].
  destruct i as [|i]; simpl in *.
  - injection Hi as ->. rewrite String.eqb_refl. lia.
  - destruct (String.eqb_spec (id m) (id n)) as [E|_].
    + exfalso. apply Hm. rewrite E. apply list_elem_of_In, in_map, list_elem_of_In.
      by eapply list_elem_of_lookup_2.
    + rewrite (IH i) by done. lia.
Qed.

Lemma positions_get_own (k : string) (xy : Z * Z) :
  map_get k positions = Some xy -> positions_get k = Own xy.1 xy.2.
Proof. unfold positions_get. intros ->. by destruct xy. Qed.

Lemma positions_get_unknown (k : string) :
  map_get k positions = None -> k ∉ Object_prototype_keys ->
  positions_get k = Undefined.
Proof.
  unfold positions_get. intros -> Hk. by rewrite bool_decide_eq_false_2.
Qed.

(** C5, amended.  For a list of nodes (an array) with pairwise distinct
    ids, none of which is the name of a property of [Object.prototype]:
    [positionNodes] returns the nodes in input order, each with its id,
    label and type unchanged; a node whose id is one of the eight workflow
    ids of the table gets the coordinates of the table, and any other node,
    at input index [i], gets [x = 100 + (i mod 5) * 150] and
    [y = 100 + floor(i / 5) * 100]. *)
Theorem C5_positionNodes_distinct_ids (nodes : list Node) (edges : list Edge) :
  Z.of_nat (length nodes) <= max_array_length ->
  NoDup (map id nodes) ->
  Forall (fun n => id n ∉ Object_prototype_keys) nodes ->
  positions.*1 = known_ids
  ∧ positionNodes nodes edges = claimed_layout nodes.
Proof.
  intros Hlen Hnd Hproto. split; [done|].
  rewrite positionNodes_distinct by done. unfold claimed_layout.
  apply list_eq. intros i. rewrite list_lookup_fmap, list_lookup_imap.
  destruct (nodes !! i) as [n|] eqn:Hi; [|done]. simpl. f_equal.
  unfold placed, claimed_position.
  destruct (map_get (id n) positions) as [xy|] eqn:Hk.
  - by rewrite (positions_get_own _ xy).
  - rewrite positions_get_unknown; [|done|].
    2:{ rewrite Forall_forall in Hproto. apply Hproto. by eapply list_elem_of_lookup_2. }
    unfold findIndex. rewrite (findIndex_from_distinct nodes i n 0) by done.
    rewrite Z.add_0_l. pose proof (lookup_lt_Some _ _ _ Hi) as Hlt.
    change 5%Q with (inject_Z 5).
    rewrite Math_floor_quotient by (unfold max_array_length in Hlen; lia).
    rewrite Z.rem_mod_nonneg by lia. simpl. done.
Qed.

End AgentGraphLayout.

(** Two nodes that share an id come back as one node, which carries the
    label and type of the second and the grid position of the first; and a
    node named like a member of [Object.prototype] gets no coordinates. *)
Lemma C5_counterexample :
  AgentGraph.positionNodes (H := exact) [node_a1; node_a2] []
  = [ AgentGraph.set_xy node_a2 (Some 100) (Some 100) ]
  ∧ claimed_layout [node_a1; node_a2]
    = [ AgentGraph.set_xy node_a1 (Some 100) (Some 100);
        AgentGraph.set_xy node_a2 (Some 250) (Some 100) ]
  ∧ AgentGraph.positionNodes (H := exact) [node_a1; node_a2] []
    ≠ claimed_layout [node_a1; node_a2]
  ∧ AgentGraph.positionNodes (H := exact) [node_ctor] []
    = [ AgentGraph.set_xy node_ctor None None ]
  ∧ AgentGraph.positionNodes (H := exact) [node_ctor] [] ≠ claimed_layout [node_ctor].
Proof.
  split; [reflexivity|]. split; [reflexivity|]. split; [discriminate|].
  split; [reflexivity | discriminate].
Qed.

Lemma C5_positionNodes_witness :
  AgentGraph.positionNodes (H := exact) sample_nodes []
  = [ AgentGraph.set_xy node_start (Some 400) (Some 50);
      AgentGraph.set_xy node_db (Some 300) (Some 350);
      AgentGraph.set_xy node_summary (Some 400) (Some 100) ].
Proof.
  change (AgentGraph.positionNodes (H := exact) sample_nodes [] = claimed_layout sample_nodes).
  apply (C5_positionNodes_distinct_ids (H := exact) sample_nodes []).
  - vm_compute. congruence.
  - compute_done.
  - compute_done.
Defined.

(** ** The API client and its call sites *)

Section ApiFacts.
Import Api.

Lemma fetchJson_response {T} (response : Response T) :
  fetchJson (Normal response)
  = if ok response then json response
    else Throw (Error (http_error_message (status response))).
Proof. unfold fetchJson. by destruct (ok response). Qed.

(** [response.json()] rejects with a [SyntaxError] or a [TypeError], never
    with an [Error] made by [new Error]. *)
Lemma json_not_Error {T} (response : Response T) (m : string) :
  json response ≠ Throw (Error m).
Proof. unfold json. by destruct (body response) as [?|[?|?]]. Qed.

End ApiFacts.

Lemma fetchTraceDetails_run (traceId : option string)
    (traceData : Completion (list TraceEvent)) (s : TraceView.State) :
  TraceView.fetchTraceDetails traceId traceData s
  = (Normal tt,
     if TraceView.no_traceId traceId then s
     else match traceData with
          | Normal data =>
              {| TraceView.events := data; TraceView.loading := false;
                 TraceView.error := None;
                 TraceView.expandedPreviews := TraceView.expandedPreviews s;
                 TraceView.diagnosing := TraceView.diagnosing s;
                 TraceView.diagnosis := TraceView.diagnosis s;
                 TraceView.diagnosisError := TraceView.diagnosisError s;
                 TraceView.showDiagnosisModal := TraceView.showDiagnosisModal s |}
          | Throw _ =>
              {| TraceView.events := TraceView.events s; TraceView.loading := false;
                 TraceView.error := Some "Failed to fetch trace details"%string;
                 TraceView.expandedPreviews := TraceView.expandedPreviews s;
                 TraceView.diagnosing := TraceView.diagnosing s;
                 TraceView.diagnosis := TraceView.diagnosis s;
                 TraceView.diagnosisError := TraceView.diagnosisError s;
                 TraceView.showDiagnosisModal := TraceView.showDiagnosisModal s |}
          end).
Proof.
  unfold TraceView.fetchTraceDetails.
  destruct (TraceView.no_traceId traceId); [done|]. by destruct traceData.
Qed.

Lemma fetchGraphData_run `{Rounding} (fetched : Completion Api.AgentGraphBody)
    (s : AgentGraph.State) :
  (AgentGraph.fetchGraphData fetched s).1 = Normal tt
  ∧ AgentGraph.loading (AgentGraph.fetchGraphData fetched s).2 = false
  ∧ match fetched with
    | Normal data =>
        AgentGraph.error (AgentGraph.fetchGraphData fetched s).2 = None
        ∧ AgentGraph.graphData (AgentGraph.fetchGraphData fetched s).2
          = Some {| AgentGraph.nodes :=
                      AgentGraph.positionNodes
                        (map AgentGraph.of_api_node (Api.ag_nodes data))
                        (map AgentGraph.of_api_edge (Api.ag_edges data));
                    AgentGraph.edges := map AgentGraph.of_api_edge (Api.ag_edges data);
                    AgentGraph.description := Api.ag_description data |}
    | Throw _ =>
        AgentGraph.error (AgentGraph.fetchGraphData fetched s).2
        = Some "Failed to fetch agent graph"%string
        ∧ AgentGraph.graphData (AgentGraph.fetchGraphData fetched s).2
          = AgentGraph.graphData s
    end.
Proof. by destruct fetched. Qed.

(** C6, amended.  For every HTTP response, [fetchJson] throws the error
    that names the status code if and only if the response is not ok, and
    otherwise hands on what [response.json()] gives, unchanged: the parsed
    body when the body can be read as JSON, and the rejection of
    [response.json()], which is never the error that names the status,
    when it cannot; a request that failed passes its error on.  Every
    component that calls the client contains the failure: the handlers of
    TraceView and AgentGraph (try/catch) and of the Dashboard (settle-all
    inside try/catch) complete normally whatever the fetch did, and a
    failed call leaves a message in the component's [error] cell or the
    empty value of the cell it was to fill. *)
Theorem C6_fetchJson_contained `{Rounding} {T : Type} (response : Api.Response T)
    (traceId : option string)
    (traceFetch : Completion (Api.Response Api.TraceDetails))
    (graphFetch : Completion (Api.Response Api.AgentGraphBody))
    (statusFetch : Completion (Api.Response SystemStatus))
    (dashboardFetch : Completion (Api.Response DashboardData))
    (historyFetch : Completion (Api.Response (list InterventionEvent)))
    (st : TraceView.State) (sg : AgentGraph.State) (sd : Dashboard.State) :
  (Api.fetchJson (Normal response)
     = Throw (Error (Api.http_error_message (Api.status response)))
   ↔ Api.ok response = false)
  ∧ Api.fetchJson (Normal response)
    = (if Api.ok response then Api.json response
       else Throw (Error (Api.http_error_message (Api.status response))))
  ∧ (∀ v, Api.ok response = true -> Api.body response = inl v ->
       Api.fetchJson (Normal response) = Normal v)
  ∧ (∀ failure, Api.ok response = true -> Api.body response = inr failure ->
       ∃ e, Api.fetchJson (Normal response) = Throw e ∧ ∀ m, e ≠ Error m)
  ∧ (∀ e, Api.fetchJson (T := T) (Throw e) = Throw e)
  ∧ (let out := TraceView.fetchTraceDetails traceId (Api.getTraceDetails traceFetch) st in
     out.1 = Normal tt
     ∧ if TraceView.no_traceId traceId then out.2 = st
       else TraceView.loading out.2 = false
            ∧ match Api.getTraceDetails traceFetch with
              | Normal data =>
                  TraceView.events out.2 = data ∧ TraceView.error out.2 = None
              | Throw _ =>
                  TraceView.events out.2 = TraceView.events st
                  ∧ TraceView.error out.2 = Some "Failed to fetch trace details"%string
              end)
  ∧ (let out := AgentGraph.fetchGraphData (Api.getAgentGraph graphFetch) sg in
     out.1 = Normal tt
     ∧ AgentGraph.loading out.2 = false
     ∧ match Api.getAgentGraph graphFetch with
       | Normal data => AgentGraph.error out.2 = None
       | Throw _ =>
           AgentGraph.error out.2 = Some "Failed to fetch agent graph"%string
           ∧ AgentGraph.graphData out.2 = AgentGraph.graphData sg
       end)
  ∧ (let out := Dashboard.fetchData (settle (Api.getSystemStatus statusFetch))
                  (settle (Api.getDashboardData dashboardFetch))
                  (settle (Api.getInterventionHistory historyFetch)) sd in
     out.1 = Normal tt
     ∧ Dashboard.loading out.2 = false
     ∧ match Api.getSystemStatus statusFetch with
       | Normal v => Dashboard.status out.2 = Some v
       | Throw _ => Dashboard.status out.2 = None
       end
     ∧ match Api.getDashboardData dashboardFetch with
       | Normal v => Dashboard.traces out.2 = dd_traces v
       | Throw _ => Dashboard.traces out.2 = []
       end
     ∧ match Api.getInterventionHistory historyFetch with
       | Normal v => Dashboard.interventions out.2 = take 5 v
       | Throw _ => Dashboard.interventions out.2 = []
       end).
Proof.
  split; [|split; [apply fetchJson_response|
                    split; [|split; [|split; [done|split; [|split]]]]]].
  - rewrite fetchJson_response. destruct (Api.ok response); split; try done.
    intros E. by apply json_not_Error in E.
  - intros v Hok Hbody. rewrite fetchJson_response, Hok. unfold Api.json.
    by rewrite Hbody.
  - intros failure Hok Hbody. rewrite fetchJson_response, Hok. unfold Api.json.
    rewrite Hbody. destruct failure; eexists; (split; [done|]); by intros m.
  - intros out. subst out. rewrite fetchTraceDetails_run. simpl. split; [done|].
    destruct (TraceView.no_traceId traceId); [done|].
    by destruct (Api.getTraceDetails traceFetch).
  - intros out. subst out.
    pose proof (fetchGraphData_run (Api.getAgentGraph graphFetch) sg) as (E1 & E2 & E3).
    split; [done|]. split; [done|].
    destruct (Api.getAgentGraph graphFetch); [apply E3 | exact E3].
  - intros out. subst out. rewrite fetchData_run. simpl.
    split; [done|]. split; [done|].
    destruct (Api.getSystemStatus statusFetch), (Api.getDashboardData dashboardFetch),
      (Api.getInterventionHistory historyFetch); simpl;
      rewrite ?(slice_from_zero 5) by lia; done.
Qed.

(** ** ResultCard *)

Section ResultCardFacts.
Import ResultCard.

Lemma get_truthy (v : value) (name : string) :
  truthy v = true -> ∃ w, get v name = Normal w.
Proof. destruct v; simpl; try done; eauto. Qed.

Lemma renderChart_never_Pie (payload : value) (d o : value) :
  renderChart payload ≠ Normal (Some (Pie d o)).
Proof.
  unfold renderChart, bind.
  destruct (chartPayload payload) as [cp|]; [|done].
  destruct (negb (truthy cp)); [done|].
  destruct (or_else (get cp "type") (str "bar")) as [t|]; [|done].
  destruct (toLowerCase t) as [t'|]; [|done].
  destruct (or_else (get cp "data") _) as [data|]; [|done].
  destruct (or_else (get cp "options") _) as [options|]; [|done].
  by destruct (String.eqb t' "line").
Qed.

Lemma lower_ascii_l (a : ascii) : Ascii.eqb (lower_ascii a) "l" = letter "l" "L" a.
Proof. by destruct a as [[] [] [] [] [] [] [] []]. Qed.
Lemma lower_ascii_i (a : ascii) : Ascii.eqb (lower_ascii a) "i" = letter "i" "I" a.
Proof. by destruct a as [[] [] [] [] [] [] [] []]. Qed.
Lemma lower_ascii_n (a : ascii) : Ascii.eqb (lower_ascii a) "n" = letter "n" "N" a.
Proof. by destruct a as [[] [] [] [] [] [] [] []]. Qed.
Lemma lower_ascii_e (a : ascii) : Ascii.eqb (lower_ascii a) "e" = letter "e" "E" a.
Proof. by destruct a as [[] [] [] [] [] [] [] []]. Qed.

(** A string lowercases to [line] exactly when it is l, i, n, e in any
    case. *)
Lemma lower_line (s : string) :
  String.eqb (lower s) "line" = selects_line (str s).
Proof.
  destruct s as [|a [|b [|c [|d [|e s]]]]]; cbn [lower selects_line String.eqb];
    rewrite ?lower_ascii_l, ?lower_ascii_i, ?lower_ascii_n, ?lower_ascii_e;
    repeat match goal with
           | |- context [letter ?l ?u ?x] => destruct (letter l u x)
           end;
    done.
Qed.

(** C9, amended.  For a payload whose [chartjs] field is truthy and whose
    chart type is a string or falsy (missing, say): [renderChart] gives a
    Line chart exactly when the type lowercases to [line], that is, when it
    is the letters l, i, n, e in any case, and a Bar chart in every other
    case, which includes the type missing (it defaults to [bar]) and the
    type [pie]; and for no payload at all does it give a Pie chart. *)
Theorem C9_chart_selection (payload cp type0 : value) :
  chartPayload payload = Normal cp ->
  truthy cp = true ->
  get cp "type" = Normal type0 ->
  (truthy type0 = false ∨ ∃ s, type0 = str s) ->
  renderChart payload
  = Normal (Some (if selects_line type0
                  then Line (chart_data cp) (chart_options cp)
                  else Bar (chart_data cp) (chart_options cp)))
  ∧ (∀ (p d o : value), renderChart p ≠ Normal (Some (Pie d o))).
Proof.
  intros Hcp Hcpt Hty Hstr. split; [|intros p d o; apply renderChart_never_Pie].
  unfold renderChart, chart_data, chart_options.
  rewrite Hcp. simpl. rewrite Hcpt. simpl. rewrite Hty.
  destruct (get_truthy cp "data" Hcpt) as [d0 Hd0].
  destruct (get_truthy cp "options" Hcpt) as [o0 Ho0].
  rewrite Hd0, Ho0. unfold or_else.
  assert (Hsel : bind (if truthy type0 then Normal type0 else Normal (str "bar"))
                   (fun t => bind (toLowerCase t) (fun t' => Normal (String.eqb t' "line")))
                 = Normal (selects_line type0)).
  { destruct Hstr as [Hf|[s ->]].
    - rewrite Hf. simpl. destruct type0; simpl in *; try done.
      apply negb_false_iff, String.eqb_eq in Hf. by subst.
    - rewrite <- lower_line. simpl. destruct (negb (s =? "")%string) eqn:E; simpl; [done|].
      apply negb_false_iff, String.eqb_eq in E. by subst. }
  destruct (if truthy type0 then Normal type0 else Normal (str "bar")) as [t|e];
    [|done]. simpl in Hsel |- *.
  destruct (toLowerCase t) as [t'|e]; [|done]. simpl in Hsel |- *.
  injection Hsel as Hsel. rewrite Hsel.
  destruct (truthy d0), (truthy o0); simpl; by destruct (selects_line type0).
Qed.

End ResultCardFacts.

Lemma C9_chart_selection_witness :
  ResultCard.renderChart pie_payload
  = Normal (Some (ResultCard.Bar
                    (ResultCard.obj [ ("labels", ResultCard.arr []);
                                      ("datasets", ResultCard.arr []) ])
                    (ResultCard.obj [])))
  ∧ ResultCard.renderChart line_payload
    = Normal (Some (ResultCard.Line (ResultCard.arr [ResultCard.num 1])
                                    (ResultCard.obj []))).
Proof.
  split.
  - apply (C9_chart_selection pie_payload
             (ResultCard.obj [ ("type", ResultCard.str "pie") ]) (ResultCard.str "pie"));
      [reflexivity | reflexivity | reflexivity | right; by eexists].
  - apply (C9_chart_selection line_payload
             (ResultCard.obj [ ("type", ResultCard.str "LINE");
                               ("data", ResultCard.arr [ResultCard.num 1]) ])
             (ResultCard.str "LINE"));
      [reflexivity | reflexivity | reflexivity | right; by eexists].
Defined.

(** ** Routes and navigation *)

Section AppFacts.
Import App.







End AppFacts.



(** ** TraceView: the diagnosis text *)

Section FenceFacts.
Import RegExp TraceView.

Lemma starts_fence_Some (s rest : jsstring) :
  starts_fence s = Some rest -> s = [96; 96; 96]%N ++ rest.
Proof.
  destruct s as [|a [|b [|c s]]]; try done; simpl.
  destruct (N.eqb_spec a 96) as [->|]; [|done].
  destruct (N.eqb_spec b 96) as [->|]; [|done].
  destruct (N.eqb_spec c 96) as [->|]; [|done].
  by intros [= ->].
Qed.

Lemma starts_fence_app (rest : jsstring) :
  starts_fence ([96; 96; 96]%N ++ rest) = Some rest.
Proof. done. Qed.

Lemma matcher_closing (k : Continuation) (s : jsstring) (caps : list (option jsstring)) :
  matcher closing k (s, caps)
  = match starts_fence s with
    | Some rest => k (rest, caps)
    | None => None
    end.
Proof.
  destruct s as [|a [|b [|c s]]]; simpl; try done.
  - by destruct (a =? backtick)%N.
  - destruct (a =? backtick)%N; [|done]. by destruct (b =? backtick)%N.
  - unfold backtick.
    destruct (a =? 96)%N; [|done]. destruct (b =? 96)%N; [|done].
    by destruct (c =? 96)%N.
Qed.

Lemma lazy_any_ext (k k' : Continuation) (n : nat) (x : MatchState) :
  (∀ y, k y = k' y) -> lazy_any k n x = lazy_any k' n x.
Proof.
  intros Hk. revert x. induction n as [|n IH]; intros x; simpl; [done|].
  rewrite Hk. destruct (k' x); [done|].
  destruct x.1 as [|c s]; [done|]. destruct (any_char c); [|done]. apply IH.
Qed.

Lemma lazy_any_until (f : MatchState -> list (option jsstring))
    (n : nat) (s : jsstring) (caps : list (option jsstring)) :
  (length s <= n)%nat ->
  lazy_any (fun y => match starts_fence y.1 with
                     | Some rest => Some (rest, f y)
                     | None => None
                     end) n (s, caps)
  = match until_fence s with
    | Some (code, rest) => Some (rest, f (drop (length code) s, caps))
    | None => None
    end.
Proof.
  revert s. induction n as [|n IH]; intros s Hn.
  - destruct s; [|simpl in Hn; lia]. done.
  - simpl lazy_any. cbn [fst]. destruct s as [|c s].
    + done.
    + cbn [until_fence]. destruct (starts_fence (c :: s)) as [rest|] eqn:E; [done|].
      simpl matcher. change (lazy_any ?k n) with (lazy_any k n).
      fold (lazy_any (fun y => match starts_fence y.1 with
                               | Some rest => Some (rest, f y)
                               | None => None
                               end)).
      rewrite IH by (simpl in Hn; lia).
      by destruct (until_fence s) as [[code rest]|].
Qed.

Lemma greedy_word_run (k : Continuation) (n : nat) (s : jsstring)
    (caps : list (option jsstring)) :
  (∀ c s' caps', is_word c = true -> k (c :: s', caps') = None) ->
  (length s <= n)%nat ->
  greedy_word k n (s, caps) = k ((word_run s).2, caps).
Proof.
  intros Hk. revert s. induction n as [|n IH]; intros s Hn.
  - destruct s; [done | simpl in Hn; lia].
  - simpl greedy_word. destruct s as [|c s]; [done|]. cbn [matcher fst snd].
    simpl word_run. destruct (is_word c) eqn:Hc; [|done].
    fold (greedy_word k). rewrite IH by (simpl in Hn; lia). cbn [snd].
    destruct (k ((word_run s).2, caps)); [done|]. by apply Hk.
Qed.

Lemma word_run_app (s : jsstring) : s = (word_run s).1 ++ (word_run s).2.
Proof.
  induction s as [|c s IH]; [done|]. simpl.
  destruct (is_word c); [|done]. simpl. by rewrite <- IH.
Qed.

Lemma word_run_words (s : jsstring) : forallb is_word (word_run s).1 = true.
Proof.
  induction s as [|c s IH]; [done|]. simpl.
  destruct (is_word c) eqn:E; [|done]. simpl. by rewrite E.
Qed.

Lemma word_run_length (s : jsstring) :
  (length s - length (word_run s).2 = length (word_run s).1)%nat.
Proof.
  rewrite (word_run_app s) at 1. rewrite length_app. lia.
Qed.

Lemma is_word_not_newline (c : char) : is_word c = true -> (c =? 10)%N = false.
Proof.
  unfold is_word. intros Hc. apply N.eqb_neq. intros ->. done.
Qed.

Lemma until_fence_app (s code rest : jsstring) :
  until_fence s = Some (code, rest) -> s = code ++ [96; 96; 96]%N ++ rest.
Proof.
  revert code rest. induction s as [|c s IH]; intros code rest; [done|].
  cbn [until_fence]. destruct (starts_fence (c :: s)) as [r|] eqn:E.
  - intros [= <- <-]. by apply starts_fence_Some.
  - destruct (until_fence s) as [[code' rest']|]; [|done].
    intros [= <- <-]. by rewrite (IH code' rest').
Qed.

Lemma starts_fence_None (s : jsstring) :
  starts_fence s = None ↔ take 3 s ≠ [96; 96; 96]%N.
Proof.
  destruct s as [|a [|b [|c s]]]; simpl; try done.
  destruct (N.eqb_spec a 96) as [->|]; [|split; [intros _ [=] | ]; done].
  destruct (N.eqb_spec b 96) as [->|]; [|split; [intros _ [=] | ]; done].
  destruct (N.eqb_spec c 96) as [->|]; [|split; [intros _ [=] | ]; done].
  rewrite take_0. simpl. split; [done|]. intros Hne. by destruct Hne.
Qed.

Lemma until_fence_first (s code rest : jsstring) :
  until_fence s = Some (code, rest) ->
  until_fence (code ++ [96; 96; 96]%N) = Some (code, []).
Proof.
  revert code rest. induction s as [|c s IH]; intros code rest; [done|].
  cbn [until_fence]. destruct (starts_fence (c :: s)) as [r|] eqn:E.
  - by intros [= <- <-].
  - destruct (until_fence s) as [[code' rest']|] eqn:E'; [|done].
    intros [= <- <-]. pose proof (until_fence_app _ _ _ E') as ->.
    change ((c :: code') ++ [96; 96; 96]%N) with (c :: (code' ++ [96; 96; 96]%N)).
    cbn [until_fence].
    assert (Hs : starts_fence (c :: code' ++ [96; 96; 96]%N) = None).
    { apply starts_fence_None. apply starts_fence_None in E.
      intros Ht. apply E.
      assert (Es : c :: code' ++ [96; 96; 96]%N ++ rest'
                   = (c :: code' ++ [96; 96; 96]%N) ++ rest').
      { simpl. by rewrite <- app_assoc. }
      rewrite Es. rewrite take_app_le; [exact Ht|].
      simpl. rewrite length_app. simpl. lia. }
    rewrite Hs, (IH code' rest'); done.
Qed.

(** The equations of the matcher, one per construct. *)
Lemma matcher_Chr (c : char) (k : Continuation) (s : jsstring)
    (caps : list (option jsstring)) :
  matcher (Chr c) k (s, caps)
  = match s with
    | ch :: rest => if (ch =? c)%N then k (rest, caps) else None
    | [] => None
    end.
Proof. done. Qed.

Lemma matcher_Cat (r1 r2 : regex) (k : Continuation) (x : MatchState) :
  matcher (Cat r1 r2) k x = matcher r1 (matcher r2 k) x.
Proof. done. Qed.

Lemma matcher_Group (i : nat) (r : regex) (k : Continuation) (x : MatchState) :
  matcher (Group i r) k x
  = matcher r (fun y => k (y.1, <[i := Some (take (length x.1 - length y.1) x.1)]> y.2)) x.
Proof. done. Qed.

Lemma matcher_OptGreedy (r : regex) (k : Continuation) (x : MatchState) :
  matcher (OptGreedy r) k x
  = match matcher r k x with Some y => Some y | None => k x end.
Proof. done. Qed.

Lemma matcher_plus_word (k : Continuation) (s : jsstring) (caps : list (option jsstring)) :
  matcher (PlusGreedy (Cls is_word)) k (s, caps)
  = match s with
    | ch :: rest =>
        if is_word ch then greedy_word k (length s) (rest, caps) else None
    | [] => None
    end.
Proof. done. Qed.

Lemma matcher_lazy_any (k : Continuation) (x : MatchState) :
  matcher (StarLazy (Cls any_char)) k x = lazy_any k (length x.1) x.
Proof. done. Qed.

Lemma matcher_body (s : jsstring) (caps : list (option jsstring)) :
  matcher body Some (s, caps)
  = match s with
    | ch :: r2 =>
        if (ch =? 10)%N then
          match until_fence r2 with
          | Some (code, rest) => Some (rest, <[2%nat := Some code]> caps)
          | None => None
          end
        else None
    | [] => None
    end.
Proof.
  unfold body. rewrite matcher_Cat, matcher_Chr.
  destruct s as [|ch r2]; [done|]. unfold newline.
  destruct (ch =? 10)%N; [|done].
  rewrite matcher_Cat, matcher_Group, matcher_lazy_any. cbn [fst snd].
  rewrite (lazy_any_ext _
             (fun y => match starts_fence y.1 with
                       | Some rest =>
                           Some (rest, <[2%nat := Some (take (length r2 - length y.1) r2)]> y.2)
                       | None => None
                       end))
    by (intros y; by rewrite matcher_closing).
  rewrite (lazy_any_until
             (fun y => <[2%nat := Some (take (length r2 - length y.1) r2)]> y.2))
    by lia.
  destruct (until_fence r2) as [[code rest]|] eqn:E; [|done].
  cbn [fst snd]. pose proof (until_fence_app _ _ _ E) as Er2.
  rewrite length_drop.
  assert (Hlen : (length code <= length r2)%nat).
  { rewrite Er2, length_app. lia. }
  replace (length r2 - (length r2 - length code))%nat with (length code) by lia.
  rewrite Er2 at 1. by rewrite take_app_length.
Qed.

Lemma matcher_body_word (c : char) (s : jsstring) (caps : list (option jsstring)) :
  is_word c = true -> matcher body Some (c :: s, caps) = None.
Proof.
  intros Hc. rewrite matcher_body. by rewrite (is_word_not_newline c Hc).
Qed.

(** The optional tag followed by the body. *)
Lemma matcher_tag_body (r : jsstring) (caps : list (option jsstring)) :
  matcher (Cat (OptGreedy (Group 1 (PlusGreedy (Cls is_word)))) body) Some (r, caps)
  = matcher body Some
      ((word_run r).2,
       if truthy (word_run r).1 then <[1%nat := Some (word_run r).1]> caps else caps).
Proof.
  rewrite matcher_Cat, matcher_OptGreedy, matcher_Group, matcher_plus_word.
  destruct r as [|c r]; [done|]. simpl word_run.
  destruct (is_word c) eqn:Hc; [|done]. cbn [fst snd truthy].
  rewrite (greedy_word_run _ (length (c :: r)) r caps).
  2: { intros c' s' caps' Hc'. cbn [fst snd]. by apply matcher_body_word. }
  2: { simpl. lia. }
  cbn [fst snd].
  assert (Etake : take (length (c :: r) - length (word_run r).2) (c :: r)
                  = c :: (word_run r).1).
  { pose proof (word_run_length r) as Hl.
    assert (Hle : (length (word_run r).2 <= length r)%nat).
    { rewrite (word_run_app r) at 2. rewrite length_app. lia. }
    replace (length (c :: r) - length (word_run r).2)%nat
      with (S (length (word_run r).1)) by (simpl; lia).
    simpl. f_equal. rewrite (word_run_app r) at 2. by rewrite take_app_length. }
  rewrite Etake.
  destruct (matcher body Some _) as [y|]; [done|].
  by apply matcher_body_word.
Qed.

(** The expression of [formatDiagnosisText] matches exactly the fenced
    blocks, and captures the tag and the code. *)
Lemma exec_fence (s : jsstring) : exec fence 2 s = match_fence s.
Proof.
  unfold exec, match_fence, fence. fold closing. fold body.
  rewrite matcher_Cat, matcher_Chr.
  destruct s as [|a s]; [done|]. unfold backtick. cbn [starts_fence].
  destruct (a =? 96)%N; [|by destruct s as [|? [|? ?]]].
  rewrite matcher_Cat, matcher_Chr.
  destruct s as [|b s]; [done|].
  destruct (b =? 96)%N; [|by destruct s as [|? ?]].
  rewrite matcher_Cat, matcher_Chr.
  destruct s as [|c r]; [done|].
  destruct (c =? 96)%N; [|done]. cbn [andb].
  rewrite matcher_tag_body, matcher_body.
  destruct (word_run r).2 as [|ch r2]; [done|].
  destruct (ch =? 10)%N; [|done].
  destruct (until_fence r2) as [[code rest]|]; [|done].
  by destruct (truthy (word_run r).1).
Qed.

End FenceFacts.

Section SplitFacts.
Import RegExp TraceView.

Lemma match_fence_Some (s rest : jsstring) (caps : list (option jsstring)) :
  match_fence s = Some (rest, caps) ->
  ∃ tag code,
    caps = [tag; Some code]
    ∧ s = fence_text tag code ++ rest
    ∧ block_ok (tag, code, [])
    ∧ (length rest < length s)%nat.
Proof.
  unfold match_fence. destruct (starts_fence s) as [r|] eqn:Es; [|done].
  apply starts_fence_Some in Es. pose proof (word_run_app r) as Er.
  pose proof (word_run_words r) as Hw.
  destruct (word_run r) as [w r1]. cbn [fst snd] in *.
  destruct r1 as [|ch r2]; [done|].
  destruct (N.eqb_spec ch 10) as [->|]; [|done].
  destruct (until_fence r2) as [[code rest']|] eqn:Eu; [|done].
  intros [= <- <-].
  pose proof (until_fence_app _ _ _ Eu) as Er2.
  pose proof (until_fence_first _ _ _ Eu) as Hfirst.
  exists (if truthy w then Some w else None), code.
  split; [done|]. split; [|split].
  - rewrite Es, Er, Er2. unfold fence_text.
    destruct w; simpl; repeat (rewrite <- app_assoc; simpl); done.
  - split; [|done]. destruct w; simpl; [done|]. split; done.
  - rewrite Es, Er, Er2. repeat (rewrite length_app; simpl). lia.
Qed.

Lemma split_loop_scanned (fuel : nat) (pending s : jsstring) :
  (length s < fuel)%nat ->
  ∃ p0 blocks,
    scanned s p0 blocks
    ∧ split_loop fence 2 fuel pending s = parts_of (pending ++ p0) blocks.
Proof.
  revert pending s. induction fuel as [|fuel IH]; intros pending s Hfuel; [lia|].
  destruct s as [|ch s'].
  - exists [], []. split; [constructor|]. simpl. by rewrite app_nil_r.
  - cbn [split_loop]. destruct (exec fence 2 (ch :: s')) as [[rest caps]|] eqn:E.
    + rewrite exec_fence in E. pose proof E as E'.
      apply match_fence_Some in E' as (tag & code & -> & Es & _ & Hlen).
      rewrite bool_decide_eq_false_2 by lia.
      destruct (IH [] rest) as (prose & blocks & Hsc & Hsplit); [simpl in *; lia|].
      exists [], ((tag, code, prose) :: blocks). split.
      * by eapply scanned_block.
      * rewrite Hsplit. by rewrite app_nil_r.
    + rewrite exec_fence in E.
      destruct (IH (pending ++ [ch]) s') as (p0 & blocks & Hsc & Hsplit);
        [simpl in *; lia|].
      exists (ch :: p0), blocks. split.
      * by constructor.
      * rewrite Hsplit. by rewrite <- app_assoc.
Qed.

Lemma split_fence_scanned (text : jsstring) :
  ∃ p0 blocks, scanned text p0 blocks ∧ split fence 2 text = parts_of p0 blocks.
Proof.
  unfold split. destruct text as [|c text].
  - exists [], []. split; [constructor|]. by rewrite exec_fence.
  - destruct (split_loop_scanned (2 * length (c :: text) + 1) [] (c :: text))
      as (p0 & blocks & Hsc & Hsplit); [simpl; lia|].
    by exists p0, blocks.
Qed.

Lemma scanned_unsplit (text p0 : jsstring) (blocks : list Block) :
  scanned text p0 blocks -> text = unsplit p0 blocks ∧ Forall block_ok blocks.
Proof.
  induction 1 as [|c text p0 blocks Hnone Hsc [IH1 IH2]
                  |text tag code rest prose blocks Hm Hsc [IH1 IH2]].
  - done.
  - split; [|done]. destruct blocks as [|[[tag code] prose] blocks]; simpl in *.
    + by rewrite IH1.
    + by rewrite IH1.
  - apply match_fence_Some in Hm as (tag' & code' & [= <- <-] & Es & Hok & _).
    split.
    + simpl. by rewrite Es, IH1.
    + constructor; [|done]. exact Hok.
Qed.

Lemma mod3_0 (k : nat) : ((3 * k) mod 3 = 0)%nat.
Proof. rewrite Nat.mul_comm. apply Nat.Div0.mod_mul. Qed.
Lemma mod3_1 (k : nat) : ((3 * k + 1) mod 3 = 1)%nat.
Proof. rewrite Nat.add_comm, Nat.mul_comm. by rewrite Nat.Div0.mod_add. Qed.
Lemma mod3_2 (k : nat) : ((3 * k + 2) mod 3 = 2)%nat.
Proof. rewrite Nat.add_comm, Nat.mul_comm. by rewrite Nat.Div0.mod_add. Qed.

Lemma format_part_prose (parts : list (option jsstring)) (k : nat) (p : jsstring) :
  parts !! (3 * k)%nat = Some (Some p) ->
  format_part parts (3 * k) = Normal (span k p).
Proof.
  intros Hp. unfold format_part, span. rewrite mod3_0, Hp.
  change (0 =? 0)%nat with true. cbv iota.
  by destruct (truthy (trim p)).
Qed.

Lemma format_part_tag (parts : list (option jsstring)) (k : nat) :
  format_part parts (3 * k + 1) = Normal [].
Proof. unfold format_part. by rewrite mod3_1. Qed.

Lemma language_of_tag (tag : option jsstring) :
  match tag with Some w => w ≠ [] | None => True end ->
  language_of (Some tag) = default (codeUnits "javascript") tag.
Proof. destruct tag as [[|c w]|]; simpl; done. Qed.

Lemma format_part_code (parts : list (option jsstring)) (k : nat)
    (tag : option jsstring) (code : jsstring) :
  match tag with Some w => w ≠ [] | None => True end ->
  parts !! (3 * k + 1)%nat = Some tag ->
  parts !! (3 * k + 2)%nat = Some (Some code) ->
  format_part parts (3 * k + 2)
  = Normal [CodeBlock (3 * k + 2) (default (codeUnits "javascript") tag) (Some code)].
Proof.
  intros Htag H1 H2. unfold format_part. rewrite mod3_2.
  change (2 =? 0)%nat with false. change (2 =? 2)%nat with true. cbv iota.
  replace (3 * k + 2 - 1)%nat with (3 * k + 1)%nat by lia.
  rewrite H1, H2. by rewrite language_of_tag.
Qed.

Lemma format_loop_blocks (parts : list (option jsstring)) (blocks : list Block)
    (p : jsstring) (k : nat) :
  Forall block_ok blocks ->
  drop (3 * k) parts = Some p :: flat_blocks blocks ->
  format_loop parts (3 * k) (1 + 3 * length blocks)
  = Normal (span k p ++ render_blocks k blocks).
Proof.
  revert p k. induction blocks as [|[[tag code] prose] blocks IH];
    intros p k Hok Hdrop.
  - assert (L0 : parts !! (3 * k)%nat = Some (Some p)).
    { rewrite <- (Nat.add_0_r (3 * k)), <- lookup_drop. by rewrite Hdrop. }
    change (1 + 3 * length (@nil Block))%nat with 1%nat. cbn [format_loop].
    rewrite (format_part_prose _ k p L0).
    cbn [render_blocks]. by rewrite !app_nil_r.
  - apply Forall_cons in Hok as [[Htag _] Hok]. simpl in Htag.
    assert (L0 : parts !! (3 * k)%nat = Some (Some p)).
    { rewrite <- (Nat.add_0_r (3 * k)), <- lookup_drop. by rewrite Hdrop. }
    assert (L1 : parts !! (3 * k + 1)%nat = Some tag).
    { rewrite <- lookup_drop. by rewrite Hdrop. }
    assert (L2 : parts !! (3 * k + 2)%nat = Some (Some code)).
    { rewrite <- lookup_drop. by rewrite Hdrop. }
    assert (Hnext : drop (3 * S k) parts = Some prose :: flat_blocks blocks).
    { replace (3 * S k)%nat with (3 * k + 3)%nat by lia.
      rewrite <- drop_drop, Hdrop. done. }
    change (length ((tag, code, prose) :: blocks)) with (S (length blocks)).
    replace (1 + 3 * S (length blocks))%nat
      with (S (S (S (1 + 3 * length blocks)))) by lia.
    cbn [format_loop]. rewrite (format_part_prose parts k p L0).
    replace (S (3 * k)) with (3 * k + 1)%nat by lia. rewrite format_part_tag.
    replace (S (3 * k + 1)) with (3 * k + 2)%nat by lia.
    assert (Htag' : match tag with Some w => w ≠ [] | None => True end)
      by (destruct tag; [apply Htag | done]).
    rewrite (format_part_code parts k tag code Htag' L1 L2).
    replace (S (3 * k + 2)) with (3 * S k)%nat by lia.
    rewrite (IH prose (S k)) by done.
    cbn [render_blocks]. done.
Qed.

Lemma flat_blocks_length (blocks : list Block) :
  length (flat_blocks blocks) = (3 * length blocks)%nat.
Proof. induction blocks as [|[[??]?] ? IH]; simpl; lia. Qed.

(** C3.  For every text, the regular expression of [formatDiagnosisText]
    cuts it, from left to right, into prose and fenced blocks (three
    backticks, an optional tag of word characters, a newline, the code up
    to the next three backticks): the text is the prose and the fences in
    that order.  The function does not throw, and its elements are, in the
    order of the text, one span per prose segment that is not all white
    space, holding the prose as it is, and one code block per fence,
    holding the code and labelled with the tag, or with [javascript] when
    the fence has no tag; prose and blocks alternate, with an all-white or
    empty prose segment dropped. *)
Theorem C3_formatDiagnosisText (text : jsstring) :
  ∃ (p0 : jsstring) (blocks : list Block),
    scanned text p0 blocks
    ∧ text = unsplit p0 blocks
    ∧ Forall block_ok blocks
    ∧ split fence 2 text = parts_of p0 blocks
    ∧ formatDiagnosisText text = Normal (render p0 blocks).
Proof.
  destruct (split_fence_scanned text) as (p0 & blocks & Hsc & Hsplit).
  destruct (scanned_unsplit _ _ _ Hsc) as [Htext Hok].
  exists p0, blocks. repeat (split; [done|]).
  unfold formatDiagnosisText. rewrite Hsplit. unfold parts_of.
  simpl length. rewrite flat_blocks_length.
  exact (format_loop_blocks (Some p0 :: flat_blocks blocks) blocks p0 0 Hok eq_refl).
Qed.

End SplitFacts.

(** The text [ab```js\nx=1\n``` ```\ny````z] has two fenced blocks, the first
    tagged [js], the second without a tag and preceded by white space
    only. *)
Example formatDiagnosisText_sample :
  TraceView.formatDiagnosisText
    (codeUnits "ab```js" ++ [10%N] ++ codeUnits "x=1" ++ [10%N]
     ++ codeUnits "``` ```" ++ [10%N] ++ codeUnits "y````z")
  = Normal
      [ TraceView.Span 0 (codeUnits "ab");
        TraceView.CodeBlock 2 (codeUnits "js") (Some (codeUnits "x=1" ++ [10%N]));
        TraceView.CodeBlock 5 (codeUnits "javascript") (Some (codeUnits "y"));
        TraceView.Span 6 (codeUnits "`z") ].
Proof. vm_compute. reflexivity. Qed.

(** Without rounding error: twelve wheel-ups from the initial view reach the
    upper bound, and thirty wheel-downs the lower one. *)
Lemma C4_zoom_bounds_witness :
  ((literal (H := exact) (1 # 10)
    <= AgentGraph.zoom (AgentGraph.run (H := exact) (replicate 30 (AgentGraph.Wheel 1))))%Q
   ∧ (AgentGraph.zoom (AgentGraph.run (H := exact) (replicate 30 (AgentGraph.Wheel 1)))
      <= 3)%Q)
  ∧ (AgentGraph.zoom (AgentGraph.run (H := exact) (replicate 30 (AgentGraph.Wheel 1)))
     == 1 # 10)%Q
  ∧ (AgentGraph.zoom (AgentGraph.run (H := exact) (replicate 12 (AgentGraph.Wheel (-1))))
     == 3)%Q.
Proof.
  split; [|split; vm_compute; reflexivity].
  apply (C4_zoom_bounds (H := exact) (replicate 30 (AgentGraph.Wheel 1)) AgentGraph.initial).
Defined.

(** Eleven of the 23 sample traces have an odd number, hence an error: the
    error rate is 48 per cent. *)
Lemma C10_statistics_witness :
  Dashboard.errorRate (H := exact) sample_dashboard = Num (inject_Z 48)
  ∧ ∃ z : Z, Dashboard.errorRate (H := exact) sample_dashboard = Num (inject_Z z)
             ∧ 0 <= z <= 100.
Proof.
  split; [vm_compute; reflexivity|].
  apply (C10_statistics_total (H := exact) sample_dashboard).
Defined.

Lemma C6_fetchJson_witness :
  Api.fetchJson (Normal sample_response)
  = Throw (Error "HTTP error! status: 403")
  ∧ (Api.fetchJson (Normal sample_response)
       = Throw (Error (Api.http_error_message (Api.status sample_response)))
     ↔ Api.ok sample_response = false).
Proof.
  split; [vm_compute; reflexivity|].
  apply (C6_fetchJson_contained (H := exact) sample_response None
           (Throw (TypeError "Failed to fetch")) (Throw (TypeError "Failed to fetch"))
           (Throw (TypeError "Failed to fetch")) (Throw (TypeError "Failed to fetch"))
           (Normal sample_response)
           TraceView.initial AgentGraph.initial Dashboard.initial).
Defined.

(** An ok response whose body is not JSON: [fetchJson] neither throws the
    error that names the status nor returns a parsed body; it rejects with
    the error of the parser. *)
Lemma C6_counterexample :
  Api.ok unreadable_response = true
  ∧ Api.fetchJson (Normal unreadable_response)
    = Throw (SyntaxError "Unexpected token <")
  ∧ (∀ v : SystemStatus, Api.fetchJson (Normal unreadable_response) ≠ Normal v)
  ∧ Api.fetchJson (Normal unreadable_response)
    ≠ Throw (Error (Api.http_error_message (Api.status unreadable_response))).
Proof. by repeat split. Qed.

(** A payload with a [chartjs] field whose type is the number 5, which
    does not lowercase to [line]: [renderChart] gives no Bar chart, it
    throws.  And with a [chartjs] field that is null it gives no chart. *)
Lemma C9_counterexample :
  ResultCard.get numeric_type_payload "chartjs"
  = Normal (ResultCard.obj [ ("type", ResultCard.num 5) ])
  ∧ selects_line (ResultCard.num 5) = false
  ∧ ResultCard.renderChart numeric_type_payload
    = Throw (TypeError "toLowerCase is not a function")
  ∧ (∀ d o, ResultCard.renderChart numeric_type_payload
            ≠ Normal (Some (ResultCard.Bar d o)))
  ∧ ResultCard.renderChart (ResultCard.obj [ ("chartjs", ResultCard.null) ])
    = Normal None.
Proof. by repeat split. Qed.

(** * Further properties *)

(** ** Dashboard: the pages and their buttons *)

Section DashboardPages.
Context `{Rounding}.
Import Dashboard DashboardRender.

Lemma tracesOfPage_window (s : State) (page : Z) :
  1 <= page ->
  tracesOfPage s page = take 10 (drop (Z.to_nat ((page - 1) * 10)) (traces s)).
Proof.
  intros Hp. unfold tracesOfPage, currentTraces, endIndex, startIndex, tracesPerPage.
  simpl. by rewrite slice_window by lia.
Qed.

Lemma chunks_concat {A} (l : list A) (k j : nat) :
  (length l <= 10 * (j + k))%nat ->
  concat (map (fun page => take 10 (drop (Z.to_nat ((page - 1) * 10)) l))
              (seqZ (1 + Z.of_nat j) (Z.of_nat k)))
  = drop (10 * j) l.
Proof.
  revert j. induction k as [|k IH]; intros j Hlen.
  - simpl. rewrite drop_ge by lia. done.
  - rewrite seqZ_cons by lia. cbn [map concat].
    replace (Z.succ (1 + Z.of_nat j)) with (1 + Z.of_nat (S j)) by lia.
    replace (Z.pred (Z.of_nat (S k))) with (Z.of_nat k) by lia.
    rewrite IH by lia.
    replace (Z.to_nat ((1 + Z.of_nat j - 1) * 10)) with (10 * j)%nat by lia.
    replace (10 * S j)%nat with (10 * j + 10)%nat by lia.
    rewrite <- drop_drop. apply take_drop.
Qed.


Lemma pages_bounds (s : State) :
  traces_length s <= max_array_length ->
  0 <= traces_length s
  ∧ 10 * (totalPages s - 1) < traces_length s <= 10 * totalPages s.
Proof.
  intros Hlen. rewrite totalPages_ceiling by done.
  pose proof (traces_length_range s Hlen) as [Hn _].
  pose proof (Z.div_mod (traces_length s + 9) 10 ltac:(lia)) as Hdm.
  pose proof (Z.mod_pos_bound (traces_length s + 9) 10 ltac:(lia)) as Hr.
  lia.
Qed.

(** X1.  The pages partition the traces: the tables of pages 1 to
    [totalPages], one after the other, are the list of traces; every page
    before the last has 10 rows, the last page has between 1 and 10, and a
    page after the last has none. *)
Theorem pages_partition (s : State) :
  traces_length s <= max_array_length ->
  concat (map (tracesOfPage s) (pages s)) = traces s
  ∧ (∀ page, 1 <= page < totalPages s -> length (tracesOfPage s page) = 10%nat)
  ∧ (1 <= totalPages s ->
     (1 <= length (tracesOfPage s (totalPages s)) <= 10)%nat)
  ∧ (∀ page, totalPages s < page -> tracesOfPage s page = []).
Proof.
  intros Hlen. pose proof (pages_bounds s Hlen) as (Hn & HT).
  unfold traces_length, pages in *. generalize dependent (totalPages s). intros T HT.
  split; [|split; [|split]].
  - rewrite (map_ext_in _ (fun page =>
               take 10 (drop (Z.to_nat ((page - 1) * 10)) (traces s)))).
    2:{ intros page Hin. apply list_elem_of_In, elem_of_seqZ in Hin.
        apply tracesOfPage_window. lia. }
    pose proof (chunks_concat (traces s) (Z.to_nat T) 0) as E.
    rewrite Z2Nat.id in E by lia. apply E. lia.
  - intros page Hp. rewrite tracesOfPage_window by lia.
    rewrite length_take, length_drop. lia.
  - intros HT1. rewrite tracesOfPage_window by lia.
    rewrite length_take, length_drop. lia.
  - intros page Hp. rewrite tracesOfPage_window by lia.
    rewrite drop_ge by lia. done.
Qed.

Lemma paginated_pages (s : State) :
  traces_length s <= max_array_length ->
  1 < totalPages s -> paginated s = true.
Proof.
  intros Hlen HT. unfold paginated. pose proof (pages_bounds s Hlen).
  apply andb_true_iff. split; [apply Z.ltb_lt | apply Z.ltb_lt]; lia.
Qed.

(** X2.  Previous undoes Next and Next undoes Previous: on a page before
    the last, pressing Next and then Previous restores the component
    state; on a page after the first, so does Previous and then Next. *)
Theorem next_previous_inverse (s : State) :
  traces_length s <= max_array_length ->
  1 <= currentPage s <= totalPages s ->
  (currentPage s < totalPages s -> interact (interact s Next) Previous = s)
  ∧ (1 < currentPage s -> interact (interact s Previous) Next = s).
Proof.
  intros Hlen Hp. split; intros Hlt.
  - assert (Hpag : paginated s = true) by (apply paginated_pages; [done|lia]).
    cbn [interact]. rewrite Hpag.
    replace (currentPage s =? totalPages s) with false by (symmetry; apply Z.eqb_neq; lia).
    cbn [andb negb].
    change (paginated (goToNext s)) with (paginated s). rewrite Hpag.
    unfold goToNext at 1. cbn [currentPage setCurrentPage].
    replace (Z.min (totalPages s) (currentPage s + 1) =? 1) with false
      by (symmetry; apply Z.eqb_neq; lia).
    cbn [andb negb]. unfold goToPrevious, goToNext, setCurrentPage. cbn.
    destruct s as [st tr iv ld er cp]; cbn in *. f_equal. lia.
  - assert (Hpag : paginated s = true) by (apply paginated_pages; [done|lia]).
    cbn [interact]. rewrite Hpag.
    replace (currentPage s =? 1) with false by (symmetry; apply Z.eqb_neq; lia).
    cbn [andb negb].
    change (paginated (goToPrevious s)) with (paginated s). rewrite Hpag.
    change (totalPages (goToPrevious s)) with (totalPages s).
    unfold goToPrevious at 1. cbn [currentPage setCurrentPage].
    replace (Z.max 1 (currentPage s - 1) =? totalPages s) with false
      by (symmetry; apply Z.eqb_neq; lia).
    cbn [andb negb]. unfold goToNext.
    change (totalPages (goToPrevious s)) with (totalPages s).
    unfold goToPrevious, setCurrentPage. cbn.
    destruct s as [st tr iv ld er cp]; cbn in *. f_equal. lia.
Qed.









(** X4.  A refresh overwrites: after two refreshes the component is in the
    state that the second alone would have produced, and no refresh moves
    the current page. *)
Theorem refresh_overwrites
    (r0 r0' : PromiseSettledResult SystemStatus)
    (r1 r1' : PromiseSettledResult DashboardData)
    (r2 r2' : PromiseSettledResult (list InterventionEvent))
    (s : State) :
  interact (interact s (Refreshed r0 r1 r2)) (Refreshed r0' r1' r2')
  = interact s (Refreshed r0' r1' r2')
  ∧ currentPage (interact s (Refreshed r0 r1 r2)) = currentPage s.
Proof.
  cbn [interact]. by rewrite !fetchData_run.
Qed.

(** X5.  A refresh that brings fewer traces leaves the component on a page
    that no longer exists: the table is then empty, although there may be
    traces, and the page number is shown as it was; Next leads from there
    to the last page. *)
Theorem refresh_stale_page
    (r0 : PromiseSettledResult SystemStatus) (d : DashboardData)
    (r2 : PromiseSettledResult (list InterventionEvent)) (s : State) :
  Z.of_nat (length (dd_traces d)) <= max_array_length ->
  1 <= currentPage s ->
  Z.of_nat (length (dd_traces d)) <= 10 * (currentPage s - 1) ->
  let s' := interact s (Refreshed r0 (fulfilled d) r2) in
  traces s' = dd_traces d
  ∧ totalPages s' < currentPage s'
  ∧ currentPage s' = currentPage s
  ∧ currentTraces s' = []
  ∧ (1 < totalPages s' -> currentPage (interact s' Next) = totalPages s').
Proof.
  intros Hlen Hp Hfew s'. subst s'. cbn [interact]. rewrite fetchData_run. cbn [snd].
  set (s' := {| status := _ |}).
  assert (Hlen' : traces_length s' <= max_array_length) by exact Hlen.
  pose proof (pages_bounds s' Hlen') as (_ & HT).
  assert (Hn : traces_length s' = Z.of_nat (length (dd_traces d))) by done.
  assert (Hcp : currentPage s' = currentPage s) by done.
  split; [done|]. split; [lia|]. split; [done|]. split.
  - change (currentTraces s') with (tracesOfPage s' (currentPage s)).
    rewrite tracesOfPage_window by done. rewrite drop_ge; [done|].
    change (traces s') with (dd_traces d). lia.
  - intros HT1. rewrite (paginated_pages s' Hlen' HT1).
    replace (currentPage s' =? totalPages s') with false
      by (symmetry; apply Z.eqb_neq; lia).
    cbn [andb negb]. unfold goToNext. cbn [setCurrentPage currentPage]. lia.
Qed.

Lemma interact_invariant (s : State) (e : Interaction) :
  dashboard_invariant s -> dashboard_invariant (interact s e).
Proof.
  intros (Hp & Hi & He). destruct e as [r0 r1 r2| | |page]; cbn [interact].
  - rewrite fetchData_run. cbn [snd]. unfold dashboard_invariant. cbn.
    split; [done|]. split.
    + destruct r2; [|simpl; lia]. rewrite slice_from_zero by lia.
      rewrite length_take. lia.
    + destruct r0, r1; cbn; auto.
  - destruct (paginated s && negb (currentPage s =? 1)); [|done].
    unfold dashboard_invariant. cbn. split; [lia|done].
  - destruct (paginated s && negb (currentPage s =? totalPages s)) eqn:E; [|done].
    unfold dashboard_invariant. cbn. split; [|done].
    apply andb_true_iff in E as [E _]. unfold paginated in E.
    apply andb_true_iff in E as [_ E]. apply Z.ltb_lt in E. lia.
  - destruct (paginated s && (1 <=? page) && (page <=? totalPages s) && showPage s page)
      eqn:E; [|done].
    unfold dashboard_invariant. cbn. split; [|done].
    rewrite !andb_true_iff in E. destruct E as [[[_ E] _] _]. by apply Z.leb_le.
Qed.

(** X6.  In every state the dashboard can reach from its initial state,
    by refreshes with any outcome and by any use of the pagination
    controls: the current page is at least 1, at most five interventions
    are stored, and the error is either absent or the one message of the
    component, in which case there is no status and no trace. *)
Theorem run_invariant (es : list Interaction) :
  1 <= currentPage (run es)
  ∧ (length (interventions (run es)) <= 5)%nat
  ∧ (error (run es) = None
     ∨ error (run es) = Some "Failed to fetch dashboard data"%string
       ∧ status (run es) = None ∧ traces (run es) = []).
Proof.
  change (dashboard_invariant (run es)). unfold run.
  assert (Hinit : dashboard_invariant initial).
  { unfold dashboard_invariant. cbn. split; [lia|]. split; [lia|]. by left. }
  revert Hinit. generalize initial. induction es as [|e es IH]; intros s Hs; [done|].
  cbn [foldl]. apply IH. by apply interact_invariant.
Qed.

End DashboardPages.

Lemma pages_partition_witness :
  concat (map (DashboardRender.tracesOfPage sample_dashboard)
              (DashboardRender.pages (H := exact) sample_dashboard))
  = Dashboard.traces sample_dashboard
  ∧ length (DashboardRender.tracesOfPage sample_dashboard 3) = 3%nat.
Proof.
  split; [|reflexivity].
  apply (pages_partition (H := exact) sample_dashboard). vm_compute. congruence.
Defined.

Lemma next_previous_inverse_witness :
  Dashboard.interact (H := exact)
    (Dashboard.interact (H := exact) sample_dashboard Dashboard.Previous) Dashboard.Next
  = sample_dashboard.
Proof.
  apply (next_previous_inverse (H := exact) sample_dashboard).
  - vm_compute. congruence.
  - vm_compute. split; congruence.
  - vm_compute. reflexivity.
Defined.


Lemma refresh_stale_page_witness :
  Dashboard.currentTraces
    (Dashboard.interact (H := exact) sample_dashboard
       (Dashboard.Refreshed (rejected (Error "offline"))
          (fulfilled {| total := 12; dd_trace_count := 12;
                        dd_traces := map sample_trace (seqZ 0 12); insights := None |})
          (rejected (Error "offline"))))
  = [].
Proof.
  apply (refresh_stale_page (H := exact) (rejected (Error "offline"))
           {| total := 12; dd_trace_count := 12;
              dd_traces := map sample_trace (seqZ 0 12); insights := None |}
           (rejected (Error "offline")) sample_dashboard).
  - vm_compute. congruence.
  - vm_compute. congruence.
  - vm_compute. congruence.
Defined.

(** ** TraceView: previews, the timestamp cell and the diagnosis *)

Section TraceViewFacts.
Import RegExp TraceView TraceViewRender.

(** X7.  Expanding a preview and collapsing it again restores the
    component state; a toggle flips the row it is given and no other. *)
Theorem togglePreviewExpansion_involutive (index : Z) (s : State) :
  togglePreviewExpansion index (togglePreviewExpansion index s) = s
  ∧ (index ∈ expandedPreviews (togglePreviewExpansion index s)
     ↔ index ∉ expandedPreviews s)
  ∧ (∀ other, other ≠ index ->
       other ∈ expandedPreviews (togglePreviewExpansion index s)
       ↔ other ∈ expandedPreviews s).
Proof.
  destruct s as [ev ld er ex dg di de sh].
  unfold togglePreviewExpansion, setExpandedPreviews.
  cbn [expandedPreviews setExpandedPreviews events loading error diagnosing diagnosis
       diagnosisError showDiagnosisModal].
  split; [|split].
  - f_equal. apply set_eq. intros z.
    destruct (bool_decide_reflect (index ∈ ex)) as [Hin|Hin].
    + rewrite bool_decide_eq_false_2 by (rewrite elem_of_difference, elem_of_singleton; tauto).
      rewrite elem_of_union, elem_of_difference, elem_of_singleton.
      destruct (decide (z = index)) as [->|]; tauto.
    + rewrite bool_decide_eq_true_2 by (rewrite elem_of_union, elem_of_singleton; tauto).
      rewrite elem_of_difference, elem_of_union, elem_of_singleton.
      destruct (decide (z = index)) as [->|]; tauto.
  - destruct (bool_decide_reflect (index ∈ ex)).
    + rewrite elem_of_difference, elem_of_singleton. tauto.
    + rewrite elem_of_union, elem_of_singleton. tauto.
  - intros other Hne. destruct (bool_decide_reflect (index ∈ ex)).
    + rewrite elem_of_difference, elem_of_singleton. tauto.
    + rewrite elem_of_union, elem_of_singleton. tauto.
Qed.

Lemma append_colon_nonempty (a b : string) :
  String.eqb (a +:+ ": " +:+ b) "" = false.
Proof. by destruct a. Qed.


(** X8.  When a row of the trace table has a preview.  The end of a span
    that failed always has one, also when the event carries neither an
    error type nor a message (the text is then [undefined: undefined]);
    the start of a span has one exactly when it has arguments or keyword
    arguments, the end of a span without an error exactly when it has a
    result; an event of any other type has none. *)
Theorem getPreview_shown (event : TraceEvent) :
  (event_type event = "span_end"%string -> ev_status event = "error"%string ->
     showsPreview event = true
     ∧ (error_type event = None -> error_message event = None ->
        getPreview event = "undefined: undefined"%string))
  ∧ (event_type event = "span_start"%string ->
     showsPreview event
     = nonempty (args_preview event) || nonempty (kwargs_preview event))
  ∧ (event_type event = "span_end"%string -> ev_status event ≠ "error"%string ->
     showsPreview event = nonempty (result_preview event)
     ∧ getPreview event = default ""%string (result_preview event))
  ∧ (event_type event ≠ "span_start"%string -> event_type event ≠ "span_end"%string ->
     showsPreview event = false).
Proof.
  unfold showsPreview, getPreview. split; [|split; [|split]].
  - intros -> ->. cbn. rewrite append_colon_nonempty. split; [done|].
    by intros -> ->.
  - intros ->. cbn.
    destruct (nonempty (args_preview event)) eqn:Ea,
             (nonempty (kwargs_preview event)) eqn:Ek; cbn; try done.
  - intros -> Hs. cbn. apply String.eqb_neq in Hs. rewrite Hs.
    destruct (result_preview event) as [r|]; cbn; [|done].
    destruct (String.eqb r "") eqn:E; cbn; [|by rewrite E].
    apply String.eqb_eq in E. by subst r.
  - intros H1 H2. apply String.eqb_neq in H1, H2. by rewrite H1, H2.
Qed.

(** X9.  The time cell shows a window of the timestamp: the eight code
    units that come before the last four.  A timestamp of fewer than
    twelve code units gives a shorter cell, and one of at most four an
    empty cell. *)
Theorem timestampCell_window {A} (timestamp : list A) :
  ∃ before after : list A,
    timestamp = before ++ timestampCell timestamp ++ after
    ∧ length before = (length timestamp - 12)%nat
    ∧ length (timestampCell timestamp) = Nat.min (length timestamp - 4) 8
    ∧ length after = Nat.min (length timestamp) 4.
Proof.
  destruct timestamp as [|c l]; [by exists [], []|].
  unfold timestampCell, slice. set (t := c :: l).
  change (-12 <? 0) with true. change (-4 <? 0) with true. cbn match.
  exists (take (Z.to_nat (Z.max (Z.of_nat (length t) + -12) 0)) t),
         (drop (Z.to_nat (Z.max (Z.max (Z.of_nat (length t) + -4) 0
                                  - Z.max (Z.of_nat (length t) + -12) 0) 0))
               (drop (Z.to_nat (Z.max (Z.of_nat (length t) + -12) 0)) t)).
  split; [by rewrite !take_drop|].
  rewrite !length_take, !length_drop. lia.
Qed.

Lemma formatDiagnosisText_render (text : jsstring) :
  ∃ (p0 : jsstring) (blocks : list Block),
    text = unsplit p0 blocks
    ∧ formatDiagnosisText text = Normal (render p0 blocks).
Proof.
  destruct (split_fence_scanned text) as (p0 & blocks & Hsc & Hsplit).
  destruct (scanned_unsplit _ _ _ Hsc) as [Htext Hok].
  exists p0, blocks. split; [done|].
  unfold formatDiagnosisText. rewrite Hsplit. unfold parts_of.
  simpl length. rewrite flat_blocks_length.
  exact (format_loop_blocks (Some p0 :: flat_blocks blocks) blocks p0 0 Hok eq_refl).
Qed.





Lemma increasing_weaken (lo lo' : nat) (l : list nat) :
  (lo' <= lo)%nat -> increasing lo l -> increasing lo' l.
Proof. destruct l as [|k l]; [done|]. cbn. intros Hle [Hk Hl]. split; [lia|done]. Qed.

Lemma increasing_NoDup (l : list nat) :
  ∀ lo, increasing lo l -> Forall (fun k => (lo <= k)%nat) l ∧ NoDup l.
Proof.
  induction l as [|k l IH]; intros lo; cbn.
  - intros _. split; constructor.
  - intros [Hk Hl]. destruct (IH _ Hl) as [Hall Hnd]. split.
    + constructor; [done|]. eapply Forall_impl; [exact Hall|]. cbn. lia.
    + constructor; [|done]. intros Hin. rewrite Forall_forall in Hall.
      specialize (Hall _ Hin). lia.
Qed.

Lemma render_blocks_keys (blocks : list Block) :
  ∀ k, increasing (3 * k + 1) (map element_key (render_blocks k blocks)).
Proof.
  induction blocks as [|[[tag code] prose] blocks IH]; intros k; [done|].
  cbn [render_blocks map element_key increasing]. split; [lia|].
  specialize (IH (S k)). unfold span. destruct (truthy (trim prose)); cbn [app map].
  - cbn [element_key increasing]. split; [lia|].
    eapply increasing_weaken; [|exact IH]. lia.
  - eapply increasing_weaken; [|exact IH]. lia.
Qed.

(** X25.  The keys of the elements that [formatDiagnosisText] returns
    increase strictly from one element to the next, for every text: no two
    elements of the list share a key. *)
Theorem formatDiagnosisText_keys (text : jsstring) :
  ∃ elements,
    formatDiagnosisText text = Normal elements
    ∧ increasing 0 (map element_key elements)
    ∧ NoDup (map element_key elements).
Proof.
  destruct (formatDiagnosisText_render text) as (p0 & blocks & _ & E).
  exists (render p0 blocks). split; [done|].
  assert (Hinc : increasing 0 (map element_key (render p0 blocks))).
  { unfold render, span. pose proof (render_blocks_keys blocks 0) as Hb.
    destruct (truthy (trim p0)); cbn [app map].
    - cbn [element_key increasing]. split; [lia|]. exact Hb.
    - eapply increasing_weaken; [|exact Hb]. lia. }
  split; [done|]. by apply (increasing_NoDup _ 0).
Qed.

Lemma unsplit_backtick (p0 : jsstring) (blocks : list Block) :
  backtick ∉ unsplit p0 blocks -> blocks = [].
Proof.
  destruct blocks as [|[[tag code] prose] blocks]; [done|].
  intros Hno. exfalso. apply Hno. cbn [unsplit]. unfold fence_text.
  apply elem_of_app. right. apply elem_of_app. left. left.
Qed.

(** X26.  A diagnosis without a backtick is shown as it is: one span that
    holds the whole text, or nothing at all when the text is empty or
    white space only. *)
Theorem formatDiagnosisText_plain (text : jsstring) :
  backtick ∉ text ->
  formatDiagnosisText text
  = Normal (if truthy (trim text) then [Span 0 text] else []).
Proof.
  intros Hno. destruct (formatDiagnosisText_render text) as (p0 & blocks & Htext & E).
  rewrite Htext in Hno. apply unsplit_backtick in Hno. subst blocks.
  cbn [unsplit] in Htext. subst p0. rewrite E. unfold render, span.
  cbn [render_blocks]. rewrite app_nil_r. done.
Qed.

End TraceViewFacts.

Lemma formatDiagnosisText_plain_witness :
  TraceView.formatDiagnosisText (codeUnits "All good.")
  = Normal [TraceView.Span 0 (codeUnits "All good.")].
Proof.
  apply (formatDiagnosisText_plain (codeUnits "All good.")). compute_done.
Defined.

(** ** AgentGraph: the zoom label, dragging, and what zooming and panning
    leave alone *)

Section AgentGraphCanvas.
Context `{Rounding}.
Import AgentGraph AgentGraphRender.
#[local] Open Scope Q_scope.

(** A positive number in the range of the rounding is rounded to at least
    [1 - 2^-53] times itself. *)
Lemma rnd_lower (v : Q) :
  range_min <= v -> v <= range_max -> v * (1 - unit_roundoff) <= rnd v.
Proof.
  intros Hlo Hhi.
  assert (Hpos : 0 <= v) by (unfold range_min in Hlo; lra).
  pose proof (rnd_err v) as E. rewrite (Qabs_pos v) in E by done.
  specialize (E Hlo Hhi). apply Qabs_Qle_condition in E as [E _].
  unfold unit_roundoff in *. lra.
Qed.

Lemma zoomLabel_in_range (s : State) :
  zoom_in_range s ->
  ∃ percent : Z, zoomLabel s = Num (inject_Z percent) ∧ (10 <= percent <= 300)%Z.
Proof.
  intros [Hlo Hhi]. unfold zoomLabel, Math_round, mul.
  eexists. split; [reflexivity|].
  assert (Htenth : (99 # 1000) <= literal (1 # 10)).
  { unfold literal.
    pose proof (rnd_lower (1 # 10)) as E. unfold range_min, range_max, unit_roundoff in E.
    specialize (E ltac:(lra) ltac:(lra)). lra. }
  assert (Hmul : (99 # 10) <= zoom s * 100) by lra.
  assert (Hrnd : (95 # 10) <= rnd (zoom s * 100)).
  { pose proof (rnd_mono _ _ Hmul) as E1.
    pose proof (rnd_lower (99 # 10)) as E2. unfold range_min, range_max, unit_roundoff in E2.
    specialize (E2 ltac:(lra) ltac:(lra)). lra. }
  assert (Hup : rnd (zoom s * 100) <= 300).
  { apply (rnd_le_int _ 300); [simpl; lia|]. change (inject_Z 300) with 300. lra. }
  split.
  - assert (E : (Qfloor 10 <= Qfloor (rnd (zoom s * 100) + (1 # 2)))%Z).
    { apply Qfloor_resp_le. lra. }
    exact E.
  - assert (E : (Qfloor (rnd (zoom s * 100) + (1 # 2)) <= Qfloor (300 + (1 # 2)))%Z).
    { apply Qfloor_resp_le. lra. }
    exact E.
Qed.

(** X12.  The percentage shown between the zoom buttons is a whole number
    between 10 and 300, whatever was done to the canvas. *)
Theorem zoomLabel_range (es : list Interaction) :
  ∃ percent : Z,
    zoomLabel (run es) = Num (inject_Z percent) ∧ (10 <= percent <= 300)%Z.
Proof.
  apply zoomLabel_in_range. unfold run. apply foldl_in_range, initial_in_range.
Qed.

Lemma rnd_inject (v : Q) (z : Z) :
  (Z.abs z <= 2 ^ 53)%Z -> v == inject_Z z -> rnd v == inject_Z z.
Proof.
  intros Hz E. rewrite (rnd_proper _ _ E). by apply rnd_int.
Qed.

Lemma moves_follow (points : list (Z * Z)) :
  ∀ (a : Z * Z) (bx by_ : Z) (t : State),
    on_screen a -> Forall on_screen points ->
    (Z.abs bx <= 2 ^ 52 + 2 ^ 31)%Z -> (Z.abs by_ <= 2 ^ 52 + 2 ^ 31)%Z ->
    isDragging t = true ->
    lastMousePos t = (inject_Z a.1, inject_Z a.2) ->
    panX t == inject_Z (bx + a.1) -> panY t == inject_Z (by_ + a.2) ->
    let t' := foldl (fun st p => interact st (move_to p)) t points in
    panX t' == inject_Z (bx + (default a (last points)).1)
    ∧ panY t' == inject_Z (by_ + (default a (last points)).2)
    ∧ zoom t' = zoom t
    ∧ isDragging t' = true
    ∧ lastMousePos t'
      = (inject_Z (default a (last points)).1, inject_Z (default a (last points)).2).
Proof.
  induction points as [|p points IH]; intros a bx by_ t Ha Hps Hbx Hby Hd Hl Hx Hy.
  - cbn. done.
  - apply Forall_cons in Hps as [Hp Hps]. cbn [foldl].
    destruct Ha as [Ha1 Ha2], Hp as [Hp1 Hp2].
    set (t1 := interact t (move_to p)).
    assert (Ht1 : isDragging t1 = true ∧ lastMousePos t1 = (inject_Z p.1, inject_Z p.2)
                  ∧ zoom t1 = zoom t
                  ∧ panX t1 == inject_Z (bx + p.1) ∧ panY t1 == inject_Z (by_ + p.2)).
    { subst t1. unfold interact, move_to. cbn [handle]. unfold handleMouseMove.
      rewrite Hd. cbn [negb].
      cbn [isDragging lastMousePos zoom panX panY setLastMousePos setPanX setPanY].
      rewrite Hl. cbn [fst snd]. repeat (split; [done|]).
      unfold add, sub. split.
      - apply rnd_inject; [lia|].
        rewrite (rnd_inject (inject_Z p.1 - inject_Z a.1) (p.1 - a.1)).
        + rewrite Hx. unfold Qeq. simpl. lia.
        + lia.
        + unfold Qeq. simpl. lia.
      - apply rnd_inject; [lia|].
        rewrite (rnd_inject (inject_Z p.2 - inject_Z a.2) (p.2 - a.2)).
        + rewrite Hy. unfold Qeq. simpl. lia.
        + lia.
        + unfold Qeq. simpl. lia. }
    destruct Ht1 as (Hd1 & Hl1 & Hz1 & Hx1 & Hy1).
    specialize (IH p bx by_ t1 (conj Hp1 Hp2) Hps Hbx Hby Hd1 Hl1 Hx1 Hy1).
    cbv zeta in IH. rewrite last_cons.
    destruct (last points) as [f|]; cbn [default] in *; rewrite <- Hz1; exact IH.
Qed.

(** With a render after every move, the canvas goes through the states of
    [interact]. *)
Lemma play_rendered_moves (points : list (Z * Z)) (t : State) :
  play {| rendered := t; latest := t |}
       (flat_map (fun p => [Handle (move_to p); Render]) points)
  = {| rendered := foldl (fun st p => interact st (move_to p)) t points;
       latest := foldl (fun st p => interact st (move_to p)) t points |}.
Proof.
  revert t. induction points as [|p points IH]; intros t; [done|].
  cbn [flat_map app]. unfold play in *. cbn [foldl step rendered latest].
  exact (IH (interact t (move_to p))).
Qed.

(** Moves with no render between them are all measured from the position
    that the last render saw. *)
Lemma batched_moves_offsets (points : list (Z * Z)) :
  ∀ (r t : State) (a : Z * Z) (qx qy : Z),
    on_screen a -> Forall on_screen points ->
    (Z.abs qx + Z.of_nat (length points) * 2 ^ 32 <= 2 ^ 53)%Z ->
    (Z.abs qy + Z.of_nat (length points) * 2 ^ 32 <= 2 ^ 53)%Z ->
    isDragging r = true ->
    lastMousePos r = (inject_Z a.1, inject_Z a.2) ->
    panX t == inject_Z qx -> panY t == inject_Z qy ->
    let c := play {| rendered := r; latest := t |}
                  (map (fun p => Handle (move_to p)) points) in
    rendered c = r
    ∧ panX (latest c) == inject_Z (qx + offsets a.1 points.*1)
    ∧ panY (latest c) == inject_Z (qy + offsets a.2 points.*2)
    ∧ zoom (latest c) = zoom t.
Proof.
  induction points as [|p points IH]; intros r t a qx qy Ha Hps Hbx Hby Hd Hl Hx Hy.
  - cbn. split; [done|]. split; [|split; [|done]].
    + rewrite Hx. unfold Qeq. simpl. lia.
    + rewrite Hy. unfold Qeq. simpl. lia.
  - apply Forall_cons in Hps as [Hp Hps]. cbn [map]. unfold play in *. cbn [foldl].
    destruct Ha as [Ha1 Ha2], Hp as [Hp1 Hp2].
    cbn [length] in Hbx, Hby.
    cbn [step rendered latest move_to handle].
    set (t1 := handleMouseMove r (inject_Z p.1) (inject_Z p.2) t).
    assert (Ht1 : zoom t1 = zoom t
                  ∧ panX t1 == inject_Z (qx + (p.1 - a.1))
                  ∧ panY t1 == inject_Z (qy + (p.2 - a.2))).
    { subst t1. unfold handleMouseMove. rewrite Hd. cbn [negb].
      cbn [zoom panX panY setLastMousePos setPanX setPanY].
      rewrite Hl. cbn [fst snd]. split; [done|].
      unfold add, sub. split.
      - apply rnd_inject; [lia|].
        rewrite (rnd_inject (inject_Z p.1 - inject_Z a.1) (p.1 - a.1)).
        + rewrite Hx. unfold Qeq. simpl. lia.
        + lia.
        + unfold Qeq. simpl. lia.
      - apply rnd_inject; [lia|].
        rewrite (rnd_inject (inject_Z p.2 - inject_Z a.2) (p.2 - a.2)).
        + rewrite Hy. unfold Qeq. simpl. lia.
        + lia.
        + unfold Qeq. simpl. lia. }
    destruct Ht1 as (Hz1 & Hx1 & Hy1).
    destruct (IH r t1 a (qx + (p.1 - a.1))%Z (qy + (p.2 - a.2))%Z
                (conj Ha1 Ha2) Hps ltac:(lia) ltac:(lia) Hd Hl Hx1 Hy1)
      as (I0 & I1 & I2 & I3).
    split; [exact I0|]. split; [|split].
    + rewrite I1. cbn [fmap list_fmap offsets foldr]. unfold Qeq. simpl. unfold offsets. lia.
    + rewrite I2. cbn [fmap list_fmap offsets foldr]. unfold Qeq. simpl. unfold offsets. lia.
    + by rewrite I3.
Qed.

(** X13.  Dragging.  A mouse move adds to the pan the offset of the
    pointer from the position that the last render recorded.  So when a
    render follows every mouse event, the pan after a drag has changed by
    exactly the displacement of the pointer from where the button went
    down, along any path on the screen, and the zoom is as it was.  Moves
    that are handled with no render between them are all measured from the
    same recorded position: the pan then changes by the sum of their
    offsets from it, not by the displacement.  (Pointer coordinates are
    whole numbers; the pan is one as long as nothing else has moved it.) *)
Theorem drag_follows_pointer (start : Z * Z) (points : list (Z * Z))
    (px py : Z) (c : Canvas) :
  Forall on_screen (start :: points) ->
  panX (latest c) == inject_Z px -> panY (latest c) == inject_Z py ->
  (Z.abs px <= 2 ^ 52)%Z -> (Z.abs py <= 2 ^ 52)%Z ->
  (Z.of_nat (length points) <= 2 ^ 20)%Z ->
  let finish := default start (last points) in
  (panX (latest (play c (drag_rendered start points)))
   == inject_Z (px + (finish.1 - start.1))
   ∧ panY (latest (play c (drag_rendered start points)))
     == inject_Z (py + (finish.2 - start.2))
   ∧ zoom (latest (play c (drag_rendered start points))) = zoom (latest c)
   ∧ isDragging (latest (play c (drag_rendered start points))) = true)
  ∧ (panX (latest (play c (drag_batched start points)))
     == inject_Z (px + offsets start.1 points.*1)
     ∧ panY (latest (play c (drag_batched start points)))
       == inject_Z (py + offsets start.2 points.*2)
     ∧ zoom (latest (play c (drag_batched start points))) = zoom (latest c)).
Proof.
  intros Hall Hx Hy Hpx Hpy Hlen finish. subst finish.
  apply Forall_cons in Hall as [Hs Hps]. destruct Hs as [Hs1 Hs2].
  set (t0 := handleMouseDown (inject_Z start.1) (inject_Z start.2) (latest c)).
  assert (Hdown : ∀ ts, play c (Handle (MouseDown (inject_Z start.1) (inject_Z start.2))
                                 :: Render :: ts)
                        = play {| rendered := t0; latest := t0 |} ts) by done.
  split.
  - unfold drag_rendered. rewrite Hdown, play_rendered_moves. cbn [latest].
    pose proof (moves_follow points start (px - start.1) (py - start.2) t0) as E.
    specialize (E (conj Hs1 Hs2) Hps ltac:(lia) ltac:(lia) eq_refl eq_refl).
    subst t0. cbn [handleMouseDown panX panY setLastMousePos setIsDragging] in E.
    specialize (E ltac:(rewrite Hx; unfold Qeq; simpl; lia)
                  ltac:(rewrite Hy; unfold Qeq; simpl; lia)).
    cbv zeta in E. destruct E as (E1 & E2 & E3 & E4 & _).
    split; [|split; [|split]].
    + rewrite E1. unfold Qeq. simpl. lia.
    + rewrite E2. unfold Qeq. simpl. lia.
    + exact E3.
    + exact E4.
  - unfold drag_batched. rewrite Hdown.
    pose proof (batched_moves_offsets points t0 t0 start px py
                  (conj Hs1 Hs2) Hps ltac:(lia) ltac:(lia) eq_refl eq_refl) as E.
    subst t0. cbn [handleMouseDown panX panY setLastMousePos setIsDragging] in E.
    specialize (E Hx Hy). cbv zeta in E. destruct E as (_ & E1 & E2 & E3).
    split; [exact E1|]. split; [exact E2|exact E3].
Qed.

Lemma zoom_interact (s t : State) (e : Interaction) :
  zoom s = zoom t -> zoom (interact s e) = zoom (interact t e).
Proof.
  intros E. destruct e; cbn; unfold handleMouseMove; rewrite ?E; try done.
  destruct (isDragging s), (isDragging t); cbn; done.
Qed.

Lemma pan_interact (s t : State) (e : Interaction) :
  panX s = panX t -> panY s = panY t -> isDragging s = isDragging t ->
  lastMousePos s = lastMousePos t ->
  panX (interact s e) = panX (interact t e)
  ∧ panY (interact s e) = panY (interact t e)
  ∧ isDragging (interact s e) = isDragging (interact t e)
  ∧ lastMousePos (interact s e) = lastMousePos (interact t e).
Proof.
  intros E1 E2 E3 E4. destruct e; cbn; unfold handleMouseMove; rewrite ?E3; try done.
  destruct (isDragging t) eqn:Et; cbn; rewrite ?E1, ?E2, ?E4; repeat split; congruence.
Qed.

Lemma zoom_of_interactions (es : list Interaction) :
  ∀ s t, zoom s = zoom t ->
    zoom (foldl interact s es) = zoom (foldl interact t (zoom_interactions es)).
Proof.
  induction es as [|e es IH]; intros s t E; [done|].
  cbn [foldl zoom_interactions List.filter].
  destruct e; cbn [foldl]; apply IH;
    first [ by apply zoom_interact
          | cbn; unfold handleMouseMove; try destruct (isDragging s); cbn; done ].
Qed.

Lemma pan_of_interactions (es : list Interaction) :
  ∀ s t, panX s = panX t -> panY s = panY t -> isDragging s = isDragging t ->
    lastMousePos s = lastMousePos t ->
    panX (foldl interact s es) = panX (foldl interact t (pan_interactions es))
    ∧ panY (foldl interact s es) = panY (foldl interact t (pan_interactions es)).
Proof.
  induction es as [|e es IH]; intros s t E1 E2 E3 E4; [done|].
  cbn [foldl pan_interactions List.filter].
  destruct e as [d|cx cy|cx cy| | | | | ]; cbn [foldl].
  - by apply IH.
  - destruct (pan_interact s t (MouseDown cx cy) E1 E2 E3 E4) as (?&?&?&?). by apply IH.
  - destruct (pan_interact s t (MouseMove cx cy) E1 E2 E3 E4) as (?&?&?&?). by apply IH.
  - destruct (pan_interact s t MouseUp E1 E2 E3 E4) as (?&?&?&?). by apply IH.
  - destruct (pan_interact s t MouseLeave E1 E2 E3 E4) as (?&?&?&?). by apply IH.
  - by apply IH.
  - by apply IH.
  - destruct (pan_interact s t ResetView E1 E2 E3 E4) as (?&?&?&?). by apply IH.
Qed.

(** X14.  Zooming and panning do not interfere.  The zoom after any
    sequence of interactions is the zoom after its wheel, zoom-button and
    reset interactions alone; the pan is the pan after its mouse and reset
    interactions alone: no wheel turn or zoom button moves the graph, and
    no drag changes its scale. *)
Theorem zoom_pan_independent (es : list Interaction) (s : State) :
  zoom (foldl interact s es) = zoom (foldl interact s (zoom_interactions es))
  ∧ panX (foldl interact s es) = panX (foldl interact s (pan_interactions es))
  ∧ panY (foldl interact s es) = panY (foldl interact s (pan_interactions es)).
Proof.
  split; [by apply zoom_of_interactions|]. by apply pan_of_interactions.
Qed.

End AgentGraphCanvas.

(** ** AgentGraph: what the layout gives the renderer *)

Section AgentGraphDrawing.
Context `{Rounding}.
Import AgentGraph AgentGraphRender.

Lemma map_get_elem_of {V} (k : string) (v : V) (m : JsMap V) :
  map_get k m = Some v -> (k, v) ∈ m.
Proof.
  induction m as [|[k' v'] m IH]; [done|]. cbn [map_get].
  destruct (String.eqb k' k) eqn:E.
  - apply String.eqb_eq in E as ->. intros [= ->]. left.
  - intros Hg. right. by apply IH.
Qed.

Lemma map_get_keys {V} (k : string) (m : JsMap V) :
  k ∈ m.*1 ↔ is_Some (map_get k m).
Proof.
  induction m as [|[k' v'] m IH]; cbn [map_get fmap list_fmap fst].
  - split; [by intros ?%elem_of_nil | by intros [? ?]].
  - destruct (String.eqb k' k) eqn:E.
    + apply String.eqb_eq in E as ->. split; [eauto|left].
    + apply String.eqb_neq in E. rewrite elem_of_cons, IH. cbn.
      split; [intros [?|?]; [congruence|done] | by right].
Qed.

(** The entries of the table: every point has both coordinates positive
    and an ordinate that is 50 more than a multiple of 100, and no two ids
    share a point. *)
Lemma positions_points (k : string) (xy : Z * Z) :
  map_get k positions = Some xy ->
  0 < xy.1 ∧ 0 < xy.2 ∧ xy.2 mod 100 = 50.
Proof.
  intros Hg. apply map_get_elem_of in Hg. unfold positions in Hg.
  repeat (apply elem_of_cons in Hg as [Hg|Hg]; [injection Hg as -> ->; by cbn|]).
  by apply elem_of_nil in Hg.
Qed.

Lemma positions_injective (k k' : string) (xy : Z * Z) :
  map_get k positions = Some xy -> map_get k' positions = Some xy -> k = k'.
Proof.
  intros Hg Hg'. apply map_get_elem_of in Hg, Hg'. unfold positions in Hg, Hg'.
  repeat (apply elem_of_cons in Hg as [Hg|Hg];
          [injection Hg as -> ->;
           repeat (apply elem_of_cons in Hg' as [Hg'|Hg']; [by injection Hg' as ->|]);
           by apply elem_of_nil in Hg'|]).
  by apply elem_of_nil in Hg.
Qed.

Lemma placed_claimed (nodes : list Node) (i : nat) (n : Node) :
  Z.of_nat (length nodes) <= max_array_length ->
  NoDup (map id nodes) ->
  id n ∉ Object_prototype_keys ->
  nodes !! i = Some n ->
  placed nodes n
  = set_xy n (Some (claimed_position i n).1) (Some (claimed_position i n).2).
Proof.
  intros Hlen Hnd Hproto Hi. unfold placed, claimed_position.
  destruct (map_get (id n) positions) as [xy|] eqn:Hk.
  - by rewrite (positions_get_own _ xy).
  - rewrite positions_get_unknown by done.
    unfold findIndex. rewrite (findIndex_from_distinct nodes i n 0) by done.
    rewrite Z.add_0_l. pose proof (lookup_lt_Some _ _ _ Hi) as Hlt.
    change 5%Q with (inject_Z 5).
    rewrite Math_floor_quotient by (unfold max_array_length in Hlen; lia).
    rewrite Z.rem_mod_nonneg by lia. simpl. done.
Qed.

Lemma claimed_position_positive (i : nat) (n : Node) :
  0 < (claimed_position i n).1 ∧ 0 < (claimed_position i n).2.
Proof.
  unfold claimed_position. destruct (map_get (id n) positions) as [xy|] eqn:Hk.
  - apply positions_points in Hk. tauto.
  - cbn [fst snd].
    pose proof (Z.mod_pos_bound (Z.of_nat i) 5 ltac:(lia)).
    pose proof (Z.div_pos (Z.of_nat i) 5 ltac:(lia) ltac:(lia)). lia.
Qed.

Lemma claimed_position_injective (nodes : list Node) (i j : nat) (n m : Node) :
  NoDup (map id nodes) ->
  nodes !! i = Some n -> nodes !! j = Some m ->
  claimed_position i n = claimed_position j m -> i = j.
Proof.
  intros Hnd Hi Hj. unfold claimed_position.
  assert (Hids : id n = id m -> i = j).
  { intros E. eapply NoDup_lookup; [exact Hnd| |].
    - rewrite list_lookup_fmap, Hi. done.
    - rewrite list_lookup_fmap, Hj. cbn. by rewrite E. }
  destruct (map_get (id n) positions) as [xy|] eqn:Hn,
           (map_get (id m) positions) as [xy'|] eqn:Hm.
  - intros ->. apply Hids. by apply (positions_injective _ _ xy').
  - intros ->. apply positions_points in Hn as (_ & _ & Hn). cbn [snd] in Hn.
    rewrite Z.mod_add in Hn by lia. done.
  - intros <-. apply positions_points in Hm as (_ & _ & Hm). cbn [snd] in Hm.
    rewrite Z.mod_add in Hm by lia. done.
  - intros [= E1 E2].
    pose proof (Z.div_mod (Z.of_nat i) 5 ltac:(lia)).
    pose proof (Z.div_mod (Z.of_nat j) 5 ltac:(lia)). lia.
Qed.

Lemma drawsNode_set_xy (n : Node) (cx cy : Z) :
  0 < cx -> 0 < cy -> drawsNode (set_xy n (Some cx) (Some cy)) = true.
Proof.
  intros Hx Hy. unfold drawsNode. cbn.
  apply andb_true_iff. split; apply negb_true_iff, Z.eqb_neq; lia.
Qed.

Lemma placed_drawn (nodes : list Node) (n : Node) :
  Z.of_nat (length nodes) <= max_array_length ->
  NoDup (map id nodes) ->
  id n ∉ Object_prototype_keys ->
  n ∈ nodes ->
  drawsNode (placed nodes n) = true.
Proof.
  intros Hlen Hnd Hproto Hin. destruct (list_elem_of_lookup_1 _ _ Hin) as [i Hi].
  rewrite (placed_claimed nodes i n) by auto.
  apply drawsNode_set_xy; apply claimed_position_positive.
Qed.

(** X15.  With distinct ids, none of them the name of a member of
    [Object.prototype], every node of the layout is drawn (both of its
    coordinates are there and not zero) and no two nodes are drawn at the
    same point. *)
Theorem positionNodes_drawn_apart (nodes : list Node) (edges : list Edge) :
  Z.of_nat (length nodes) <= max_array_length ->
  NoDup (map id nodes) ->
  Forall (fun n => id n ∉ Object_prototype_keys) nodes ->
  length (positionNodes nodes edges) = length nodes
  ∧ Forall (fun n => drawsNode n = true) (positionNodes nodes edges)
  ∧ (∀ (i j : nat) (n m : Node),
       positionNodes nodes edges !! i = Some n ->
       positionNodes nodes edges !! j = Some m ->
       x n = x m -> y n = y m -> i = j).
Proof.
  intros Hlen Hnd Hproto. rewrite positionNodes_distinct by done.
  rewrite Forall_forall in Hproto.
  split; [by rewrite length_map|]. split.
  - apply Forall_forall. intros n' Hin. apply list_elem_of_In, in_map_iff in Hin.
    destruct Hin as (n & <- & Hin). apply list_elem_of_In in Hin.
    destruct (list_elem_of_lookup_1 _ _ Hin) as [i Hi].
    rewrite (placed_claimed nodes i n) by auto.
    apply drawsNode_set_xy; apply claimed_position_positive.
  - intros i j n' m'. change (map (placed nodes) nodes) with (placed nodes <$> nodes).
    rewrite !list_lookup_fmap.
    destruct (nodes !! i) as [n|] eqn:Hi; [|done].
    destruct (nodes !! j) as [m|] eqn:Hj; [|done].
    cbn. intros [= <-] [= <-].
    rewrite (placed_claimed nodes i n), (placed_claimed nodes j m);
      eauto using list_elem_of_lookup_2.
    cbn. intros [= Ex] [= Ey].
    apply (claimed_position_injective nodes i j n m); try done.
    destruct (claimed_position i n), (claimed_position j m). cbn in *. congruence.
Qed.

Lemma findNode_map (f : Node -> Node) (l : list Node) (n : Node) :
  (∀ m, id (f m) = id m) ->
  NoDup (map id l) -> n ∈ l ->
  findNode (map f l) (id n) = Some (f n).
Proof.
  intros Hf. induction l as [|a l IH]; intros Hnd Hin.
  - by apply elem_of_nil in Hin.
  - cbn [map] in *. apply NoDup_cons in Hnd as [Ha Hnd].
    unfold findNode. cbn [List.find]. rewrite Hf.
    apply elem_of_cons in Hin as [->|Hin].
    + by rewrite String.eqb_refl.
    + destruct (String.eqb (id a) (id n)) eqn:E.
      * apply String.eqb_eq in E. exfalso. apply Ha. rewrite E.
        apply list_elem_of_In, in_map, list_elem_of_In, Hin.
      * by apply IH.
Qed.

Lemma findNode_unknown (f : Node -> Node) (l : list Node) (k : string) :
  (∀ m, id (f m) = id m) ->
  k ∉ map id l -> findNode (map f l) k = None.
Proof.
  intros Hf. induction l as [|a l IH]; intros Hk; [done|].
  cbn [map] in *. apply not_elem_of_cons in Hk as [Hne Hk].
  unfold findNode. cbn [List.find]. rewrite Hf.
  destruct (String.eqb (id a) k) eqn:E.
  - apply String.eqb_eq in E. congruence.
  - by apply IH.
Qed.

Lemma elem_of_map_id (l : list Node) (k : string) :
  k ∈ map id l -> ∃ n, n ∈ l ∧ id n = k.
Proof.
  intros Hin. apply list_elem_of_In, in_map_iff in Hin as (n & E & Hin).
  exists n. split; [by apply list_elem_of_In|done].
Qed.

(** X16.  With the same ids, an edge is drawn exactly when both of its
    ends are ids of nodes: an edge to an id that no node has is left out
    without an error. *)
Theorem drawsEdge_known_ends (nodes : list Node) (edges : list Edge) (edge : Edge) :
  Z.of_nat (length nodes) <= max_array_length ->
  NoDup (map id nodes) ->
  Forall (fun n => id n ∉ Object_prototype_keys) nodes ->
  drawsEdge (positionNodes nodes edges) edge = true
  ↔ source edge ∈ map id nodes ∧ target edge ∈ map id nodes.
Proof.
  intros Hlen Hnd Hproto. rewrite positionNodes_distinct by done.
  rewrite Forall_forall in Hproto. unfold drawsEdge.
  assert (Hdraw : ∀ n, n ∈ nodes -> drawsNode (placed nodes n) = true).
  { intros n Hin. destruct (list_elem_of_lookup_1 _ _ Hin) as [i Hi].
    rewrite (placed_claimed nodes i n) by auto.
    apply drawsNode_set_xy; apply claimed_position_positive. }
  destruct (decide (source edge ∈ map id nodes)) as [Hs|Hs].
  - destruct (elem_of_map_id _ _ Hs) as (n & Hn & En). rewrite <- En.
    rewrite (findNode_map _ _ n (placed_id nodes)) by done.
    destruct (decide (target edge ∈ map id nodes)) as [Ht|Ht].
    + destruct (elem_of_map_id _ _ Ht) as (m & Hm & Em). rewrite <- Em.
      rewrite (findNode_map _ _ m (placed_id nodes)) by done.
      rewrite !Hdraw by done. rewrite En, Em. done.
    + rewrite (findNode_unknown _ _ _ (placed_id nodes)) by done.
      split; [done | by intros [? ?]].
  - rewrite (findNode_unknown _ _ _ (placed_id nodes)) by done.
    split; [done | by intros [? ?]].
Qed.

Lemma prototype_key_not_positioned (k : string) :
  k ∈ Object_prototype_keys -> positions_get k = Inherited.
Proof.
  intros Hk. unfold Object_prototype_keys in Hk.
  repeat (apply elem_of_cons in Hk as [->|Hk]; [done|]).
  by apply elem_of_nil in Hk.
Qed.

End AgentGraphDrawing.

(** ** AgentGraph: ids that occur more than once, and the edge labels *)

Section AgentGraphDuplicates.
Context `{Rounding}.
Import AgentGraph AgentGraphRender.

Lemma map_set_keys {V} (k : string) (v : V) (m : JsMap V) :
  (map_set k v m).*1 = first_seen m.*1 k.
Proof.
  unfold first_seen. induction m as [|[k' v'] m IH]; [done|].
  cbn [map_set]. destruct (String.eqb k' k) eqn:E.
  - apply String.eqb_eq in E as ->. cbn [fmap list_fmap fst].
    rewrite bool_decide_eq_true_2 by left. done.
  - apply String.eqb_neq in E. cbn [fmap list_fmap fst]. rewrite IH.
    destruct (bool_decide_reflect (k ∈ m.*1)) as [Hin|Hin].
    + rewrite bool_decide_eq_true_2 by (by right). done.
    + rewrite bool_decide_eq_false_2; [done|].
      intros [?|?]%elem_of_cons; [congruence|done].
Qed.

Lemma new_Map_keys {V} (entries : list (string * V)) (m : JsMap V) :
  (foldl (fun m e => map_set e.1 e.2 m) m entries).*1
  = foldl first_seen m.*1 entries.*1.
Proof.
  revert m. induction entries as [|e entries IH]; intros m; [done|].
  cbn [foldl fmap list_fmap]. rewrite IH, map_set_keys. done.
Qed.

Lemma first_seen_known (seen : list string) (k : string) :
  k ∈ seen -> first_seen seen k = seen.
Proof. intros Hin. unfold first_seen. by rewrite bool_decide_eq_true_2. Qed.

Lemma place_keys (nodes : list Node) (m : JsMap Node) (n : Node) :
  (place nodes m n).*1 = m.*1.
Proof.
  unfold place. destruct (map_get (id n) m) as [mapNode|] eqn:E; [|done].
  assert (Hin : id n ∈ m.*1) by (apply map_get_keys; eauto).
  destruct (positions_get (id n)); rewrite map_set_keys; by apply first_seen_known.
Qed.

Lemma map_set_filed (k : string) (v : Node) (m : JsMap Node) :
  filed_by_id m -> id v = k -> filed_by_id (map_set k v m).
Proof.
  intros Hm Hv. induction Hm as [|[k' v'] m Hk Hm IH]; cbn [map_set].
  - by apply Forall_singleton.
  - destruct (String.eqb k' k) eqn:E.
    + apply String.eqb_eq in E as ->. by apply Forall_cons.
    + by apply Forall_cons.
Qed.

Lemma map_get_filed (k : string) (v : Node) (m : JsMap Node) :
  filed_by_id m -> map_get k m = Some v -> id v = k.
Proof.
  intros Hm Hg. apply map_get_elem_of in Hg. unfold filed_by_id in Hm.
  rewrite Forall_forall in Hm. exact (Hm _ Hg).
Qed.

Lemma place_filed (nodes : list Node) (m : JsMap Node) (n : Node) :
  filed_by_id m -> filed_by_id (place nodes m n).
Proof.
  intros Hm. unfold place. destruct (map_get (id n) m) as [mapNode|] eqn:E; [|done].
  pose proof (map_get_filed _ _ _ Hm E) as Hid.
  destruct (positions_get (id n)); by apply map_set_filed.
Qed.

Lemma foldl_place_keys (nodes todo : list Node) (m : JsMap Node) :
  filed_by_id m ->
  (foldl (place nodes) m todo).*1 = m.*1 ∧ filed_by_id (foldl (place nodes) m todo).
Proof.
  revert m. induction todo as [|n todo IH]; intros m Hm; [done|].
  cbn [foldl]. destruct (IH (place nodes m n) (place_filed nodes m n Hm)) as [E Hf].
  split; [|done]. by rewrite E, place_keys.
Qed.

Lemma new_Map_filed (todo : list Node) (m : JsMap Node) :
  filed_by_id m ->
  filed_by_id (foldl (fun m e => map_set e.1 e.2 m) m (map (fun n => (id n, n)) todo)).
Proof.
  revert m. induction todo as [|n todo IH]; intros m Hm; [done|].
  cbn [map foldl]. apply IH. by apply map_set_filed.
Qed.

Lemma filed_values (m : JsMap Node) : filed_by_id m -> map id (m.*2) = m.*1.
Proof.
  induction 1 as [|[k v] m Hk Hm IH]; [done|].
  cbn [fmap list_fmap map fst snd] in *. by rewrite IH, Hk.
Qed.

Lemma first_seen_spec (seen : list string) (k : string) :
  (NoDup seen -> NoDup (first_seen seen k))
  ∧ (∀ j, j ∈ first_seen seen k ↔ j ∈ seen ∨ j = k)
  ∧ (length (first_seen seen k) <= S (length seen))%nat.
Proof.
  unfold first_seen. destruct (bool_decide_reflect (k ∈ seen)) as [Hin|Hin].
  - split; [done|]. split; [|lia]. intros j. split; [by left|].
    intros [? | ->]; done.
  - split; [|split].
    + intros Hnd. apply NoDup_app. split; [done|]. split; [|apply NoDup_singleton].
      intros j Hj ->%list_elem_of_singleton. done.
    + intros j. by rewrite elem_of_app, list_elem_of_singleton.
    + rewrite length_app. cbn. lia.
Qed.

Lemma foldl_first_seen_spec (ids seen : list string) :
  (NoDup seen -> NoDup (foldl first_seen seen ids))
  ∧ (∀ j, j ∈ foldl first_seen seen ids ↔ j ∈ seen ∨ j ∈ ids)
  ∧ (length (foldl first_seen seen ids) <= length seen + length ids)%nat.
Proof.
  revert seen. induction ids as [|k ids IH]; intros seen.
  - cbn. split; [done|]. split; [|lia]. intros j. split; [by left|].
    intros [?|?%elem_of_nil]; done.
  - cbn [foldl]. destruct (IH (first_seen seen k)) as (I1 & I2 & I3).
    destruct (first_seen_spec seen k) as (F1 & F2 & F3).
    split; [auto|]. split.
    + intros j. rewrite I2, F2, elem_of_cons. tauto.
    + cbn [length]. lia.
Qed.

Lemma positionNodes_first (nodes : list Node) (edges : list Edge) :
  map id (positionNodes nodes edges) = first_occurrences (map id nodes).
Proof.
  unfold positionNodes, map_values, new_Map.
  pose proof (new_Map_filed nodes [] ltac:(constructor)) as Hf.
  destruct (foldl_place_keys nodes nodes _ Hf) as [Ek Hf'].
  rewrite (filed_values _ Hf'), Ek, new_Map_keys. unfold first_occurrences.
  f_equal. clear. induction nodes as [|n nodes IH]; [done|].
  cbn [map fmap list_fmap fst]. f_equal. exact IH.
Qed.

(** X18.  The layout of a list in which ids repeat: [positionNodes]
    returns one node per id, in the order in which the ids first occur in
    the input; so the ids of the result are distinct, they are the ids of
    the input, and the result is no longer than the input. *)
Theorem positionNodes_ids (nodes : list Node) (edges : list Edge) :
  map id (positionNodes nodes edges) = first_occurrences (map id nodes)
  ∧ NoDup (map id (positionNodes nodes edges))
  ∧ (∀ k, k ∈ map id (positionNodes nodes edges) ↔ k ∈ map id nodes)
  ∧ (length (positionNodes nodes edges) <= length nodes)%nat.
Proof.
  pose proof (positionNodes_first nodes edges) as E.
  destruct (foldl_first_seen_spec (map id nodes) []) as (F1 & F2 & F3).
  fold (first_occurrences (map id nodes)) in F1, F2, F3. rewrite <- E in F1, F2, F3.
  split; [done|]. split; [apply F1, NoDup_nil_2|]. split.
  - intros k. rewrite F2. split; [intros [?%elem_of_nil|?]; done | by right].
  - rewrite !length_map in F3. exact F3.
Qed.

Lemma map_get_set_same {V} (k : string) (v : V) (m : JsMap V) :
  k ∈ m.*1 -> map_get k (map_set k v m) = Some v.
Proof.
  induction m as [|[k' v'] m IH]; [by intros ?%elem_of_nil|].
  cbn [fmap list_fmap fst map_set]. intros Hin.
  destruct (String.eqb k' k) eqn:E.
  - cbn [map_get]. by rewrite E.
  - cbn [map_get]. rewrite E. apply IH.
    apply String.eqb_neq in E. apply elem_of_cons in Hin as [?|?]; [congruence|done].
Qed.

Lemma map_get_set_other {V} (k k' : string) (v : V) (m : JsMap V) :
  k ≠ k' -> map_get k (map_set k' v m) = map_get k m.
Proof.
  intros Hne. induction m as [|[k0 v0] m IH]; cbn [map_set map_get].
  - destruct (String.eqb k' k) eqn:E; [|done]. apply String.eqb_eq in E. congruence.
  - destruct (String.eqb k0 k') eqn:E'; cbn [map_get].
    + apply String.eqb_eq in E' as ->.
      destruct (String.eqb k' k) eqn:E; [|done]. apply String.eqb_eq in E. congruence.
    + destruct (String.eqb k0 k); [done|exact IH].
Qed.

Lemma elem_of_map_get {V} (k : string) (v : V) (m : JsMap V) :
  NoDup m.*1 -> (k, v) ∈ m -> map_get k m = Some v.
Proof.
  induction m as [|[k' v'] m IH]; [by intros _ ?%elem_of_nil|].
  cbn [fmap list_fmap fst map_get]. intros [Hk Hnd]%NoDup_cons [E|Hin]%elem_of_cons.
  - injection E as -> ->. by rewrite String.eqb_refl.
  - destruct (String.eqb k' k) eqn:E; [|by apply IH].
    apply String.eqb_eq in E as ->. exfalso. apply Hk.
    apply list_elem_of_fmap. by exists (k, v).
Qed.

(** Once a node whose id is inherited from [Object.prototype] has been
    placed, the entry of that id has no coordinates, and no later placement
    gives it any. *)
Lemma place_inherited (nodes : list Node) (m : JsMap Node) (n : Node) (k : string) :
  positions_get k = Inherited ->
  (id n = k -> k ∈ m.*1 ->
   ∀ v, map_get k (place nodes m n) = Some v -> x v = None ∧ y v = None)
  ∧ ((∀ v, map_get k m = Some v -> x v = None ∧ y v = None) ->
     ∀ v, map_get k (place nodes m n) = Some v -> x v = None ∧ y v = None).
Proof.
  intros Hk. unfold place. split.
  - intros <- Hin v. apply map_get_keys in Hin as [mapNode E]. rewrite E, Hk.
    rewrite map_get_set_same by (apply map_get_keys; eauto). by intros [= <-].
  - intros Hbare v. destruct (map_get (id n) m) as [mapNode|] eqn:E; [|by apply Hbare].
    destruct (decide (id n = k)) as [<-|Hne].
    + rewrite Hk. rewrite map_get_set_same by (apply map_get_keys; eauto).
      by intros [= <-].
    + destruct (positions_get (id n)); rewrite map_get_set_other by done; apply Hbare.
Qed.

Lemma foldl_place_inherited (nodes todo : list Node) (k : string) :
  positions_get k = Inherited ->
  ∀ m, k ∈ m.*1 ->
    (∀ v, map_get k m = Some v -> x v = None ∧ y v = None) ∨ k ∈ map id todo ->
    ∀ v, map_get k (foldl (place nodes) m todo) = Some v -> x v = None ∧ y v = None.
Proof.
  intros Hk. induction todo as [|n todo IH]; intros m Hin Hor.
  - destruct Hor as [Hbare|Hno]; [exact Hbare | by apply elem_of_nil in Hno].
  - cbn [foldl]. destruct (place_inherited nodes m n k Hk) as [Hsame Hkeep].
    apply IH; [by rewrite place_keys|].
    destruct (decide (id n = k)) as [E|Hne]; [left; by apply Hsame|].
    destruct Hor as [Hbare|Hlater]; [left; by apply Hkeep|].
    right. cbn [map] in Hlater. apply elem_of_cons in Hlater as [?|?]; [congruence|done].
Qed.

Lemma prototype_id_positioned (nodes : list Node) (edges : list Edge) (n : Node) :
  n ∈ nodes -> id n ∈ Object_prototype_keys ->
  (∃ m, m ∈ positionNodes nodes edges ∧ id m = id n)
  ∧ (∀ m, m ∈ positionNodes nodes edges -> id m = id n -> x m = None ∧ y m = None).
Proof.
  intros Hn Hproto. apply prototype_key_not_positioned in Hproto.
  pose proof (positionNodes_first nodes edges) as Hids.
  destruct (foldl_first_seen_spec (map id nodes) []) as (F1 & F2 & _).
  fold (first_occurrences (map id nodes)) in F1, F2.
  unfold positionNodes, map_values, new_Map in *.
  pose proof (new_Map_filed nodes [] ltac:(constructor)) as Hf.
  destruct (foldl_place_keys nodes nodes _ Hf) as [Ek Hf'].
  set (start := foldl (fun (m : JsMap Node) (e : string * Node) => map_set e.1 e.2 m) []
                      (map (fun n : Node => (id n, n)) nodes)) in *.
  set (final := foldl (place nodes) start nodes) in *.
  assert (Hkeys : final.*1 = first_occurrences (map id nodes)).
  { rewrite <- Hids. symmetry. by apply filed_values. }
  assert (Hin : id n ∈ final.*1).
  { rewrite Hkeys. apply F2. right. apply list_elem_of_In, in_map, list_elem_of_In, Hn. }
  assert (Hbare : ∀ v, map_get (id n) final = Some v -> x v = None ∧ y v = None).
  { apply foldl_place_inherited; [done| by rewrite <- Ek |].
    right. apply list_elem_of_In, in_map, list_elem_of_In, Hn. }
  split.
  - apply map_get_keys in Hin as [m0 E]. exists m0. split.
    + apply list_elem_of_fmap. exists (id n, m0). split; [done|].
      by apply map_get_elem_of.
    + by apply (map_get_filed _ _ _ Hf' E).
  - intros m Hm Hidm. apply list_elem_of_fmap in Hm as ([key m'] & -> & Hm).
    cbn [snd] in *. apply Hbare. apply elem_of_map_get.
    + rewrite Hkeys. apply F1, NoDup_nil_2.
    + unfold filed_by_id in Hf'. rewrite Forall_forall in Hf'.
      specialize (Hf' _ Hm). cbn in Hf'. by rewrite <- Hidm, Hf'.
Qed.

Lemma findNode_Some (l : list Node) (k : string) (m : Node) :
  findNode l k = Some m -> m ∈ l ∧ id m = k.
Proof.
  intros E. apply find_some in E as [Hin E]. apply String.eqb_eq in E.
  split; [by apply list_elem_of_In|done].
Qed.

(** X17.  A node whose id is the name of a member of [Object.prototype]
    (such as [constructor] or [toString]) comes out of the layout without
    coordinates, whatever the list of nodes is: a node of that id is
    returned, it is not drawn, and neither is any edge that starts or ends
    at it.  When the ids of the list are distinct, the node that is
    returned is the node itself, less its coordinates. *)
Theorem positionNodes_prototype_id (nodes : list Node) (edges : list Edge)
    (n : Node) (edge : Edge) :
  n ∈ nodes ->
  id n ∈ Object_prototype_keys ->
  (∃ m, m ∈ positionNodes nodes edges ∧ id m = id n)
  ∧ (∀ m, m ∈ positionNodes nodes edges -> id m = id n ->
       x m = None ∧ y m = None ∧ drawsNode m = false)
  ∧ (source edge = id n ∨ target edge = id n ->
     drawsEdge (positionNodes nodes edges) edge = false)
  ∧ (NoDup (map id nodes) -> set_xy n None None ∈ positionNodes nodes edges).
Proof.
  intros Hin Hk. destruct (prototype_id_positioned nodes edges n Hin Hk) as [Hex Hbare].
  assert (Hhidden : ∀ m, m ∈ positionNodes nodes edges -> id m = id n ->
                      drawsNode m = false).
  { intros m Hm Hid. destruct (Hbare m Hm Hid) as [Hx _]. unfold drawsNode.
    by rewrite Hx. }
  split; [exact Hex|]. split; [|split].
  - intros m Hm Hid. destruct (Hbare m Hm Hid) as [Hx Hy]. auto.
  - unfold drawsEdge. intros [E|E].
    + destruct (findNode _ (source edge)) as [sn|] eqn:Es; [|done].
      apply findNode_Some in Es as [Hs Hids]. rewrite E in Hids.
      rewrite (Hhidden sn Hs Hids). by destruct (findNode _ (target edge)).
    + destruct (findNode _ (source edge)) as [sn|]; [|done].
      destruct (findNode _ (target edge)) as [tn|] eqn:Et; [|done].
      apply findNode_Some in Et as [Ht Hidt]. rewrite E in Hidt.
      rewrite (Hhidden tn Ht Hidt). apply andb_false_r.
  - intros Hnd. rewrite positionNodes_distinct by done.
    assert (Hp : placed nodes n = set_xy n None None).
    { unfold placed. by rewrite prototype_key_not_positioned. }
    rewrite <- Hp. by apply list_elem_of_In, in_map, list_elem_of_In.
Qed.

Lemma map_id_of_api_node (l : list Api.GraphNode) :
  map id (map of_api_node l) = map Api.gn_id l.
Proof. induction l as [|n l IH]; [done|]. cbn. by rewrite IH. Qed.

(** X27.  What a successful fetch of the agent graph leaves in the
    component: the nodes of the response laid out, one per id in the order
    of the response, and its edges as they came; the zoom and the pan are
    not touched.  When the ids of the response are distinct and none is
    the name of a member of [Object.prototype], every node of the response
    is drawn. *)
Theorem fetchGraphData_graph (response : Api.Response Api.AgentGraphBody)
    (data : Api.AgentGraphBody) (s : State) :
  Api.ok response = true ->
  Api.body response = inl data ->
  let out := fetchGraphData (Api.getAgentGraph (Normal response)) s in
  ∃ graph,
    graphData out.2 = Some graph
    ∧ map id (nodes graph) = first_occurrences (map Api.gn_id (Api.ag_nodes data))
    ∧ edges graph = map of_api_edge (Api.ag_edges data)
    ∧ zoom out.2 = zoom s ∧ panX out.2 = panX s ∧ panY out.2 = panY s
    ∧ (Z.of_nat (length (Api.ag_nodes data)) <= max_array_length ->
       NoDup (map Api.gn_id (Api.ag_nodes data)) ->
       Forall (fun n => Api.gn_id n ∉ Object_prototype_keys) (Api.ag_nodes data) ->
       length (nodes graph) = length (Api.ag_nodes data)
       ∧ Forall (fun n => drawsNode n = true) (nodes graph)).
Proof.
  intros Hok Hbody out. subst out.
  assert (E : Api.getAgentGraph (Normal response) = Normal data).
  { unfold Api.getAgentGraph. rewrite fetchJson_response, Hok. unfold Api.json.
    by rewrite Hbody. }
  rewrite E.
  destruct (fetchGraphData_run (Normal data) s) as (_ & _ & _ & Hg).
  eexists. split; [exact Hg|]. cbn [nodes edges].
  split; [by rewrite positionNodes_first, map_id_of_api_node|].
  split; [done|]. split; [done|]. split; [done|]. split; [done|].
  intros Hlen Hnd Hproto.
  set (input := map of_api_node (Api.ag_nodes data)).
  assert (Hlen' : Z.of_nat (length input) <= max_array_length).
  { subst input. by rewrite length_map. }
  assert (Hnd' : NoDup (map id input)).
  { subst input. by rewrite map_id_of_api_node. }
  rewrite positionNodes_distinct by done.
  split; [subst input; by rewrite !length_map|].
  apply Forall_forall. intros n' Hin. apply list_elem_of_In, in_map_iff in Hin.
  destruct Hin as (n & <- & Hin). apply list_elem_of_In in Hin.
  apply placed_drawn; try done.
  subst input. apply list_elem_of_In, in_map_iff in Hin as (g & <- & Hg').
  rewrite Forall_forall in Hproto. apply Hproto. by apply list_elem_of_In.
Qed.

Lemma split_head (s : string) :
  default EmptyString (head (split "_" s))
  = match s with
    | EmptyString => EmptyString
    | String a s' =>
        if Ascii.eqb a "_" then EmptyString
        else String a (default EmptyString (head (split "_" s')))
    end.
Proof.
  destruct s as [|a s']; [done|]. cbn [split].
  destruct (Ascii.eqb a "_"); [done|].
  destruct s' as [|b s'']; [done|]. cbn [split].
  destruct (Ascii.eqb b "_"); [done|]. by destruct (split "_" s'').
Qed.

Lemma split_head_prefix (s : string) :
  ∃ rest : string,
    s = default EmptyString (head (split "_" s)) +:+ rest
    ∧ (rest = EmptyString ∨ ∃ rest', rest = String "_" rest')
    ∧ ∀ a, In a (list_ascii_of_string (default EmptyString (head (split "_" s)))) ->
           a ≠ "_"%char.
Proof.
  induction s as [|a s IH]; rewrite split_head.
  - exists EmptyString. split; [done|]. split; [by left|]. by intros a [].
  - destruct (Ascii.eqb a "_") eqn:E.
    + apply Ascii.eqb_eq in E as ->. exists (String "_" s).
      split; [done|]. split; [right; eauto|]. by intros a [].
    + apply Ascii.eqb_neq in E. destruct IH as (rest & Hs & Hrest & Hno).
      exists rest. split; [by rewrite Hs at 1|]. split; [done|].
      intros b [<-|Hb]; [done|]. by apply Hno.
Qed.

(** X19.  The label on an edge is the target up to its first underscore:
    it has no underscore, the target continues after it with an underscore
    or ends, and so an edge to an id that starts with an underscore, as
    [__end__] does, has an empty label. *)
Theorem edgeLabel_prefix (edge : Edge) :
  (∃ rest : string,
     target edge = edgeLabel edge +:+ rest
     ∧ (rest = EmptyString ∨ ∃ rest', rest = String "_" rest')
     ∧ ∀ a, In a (list_ascii_of_string (edgeLabel edge)) -> a ≠ "_"%char)
  ∧ (∀ rest, target edge = String "_" rest -> edgeLabel edge = EmptyString).
Proof.
  split; [apply split_head_prefix|].
  intros rest E. unfold edgeLabel. by rewrite E.
Qed.

End AgentGraphDuplicates.

(** ** The API client: the endpoints that project a field *)

Section ApiEndpoints.
Import Api.

Lemma fetchJson_Normal {T} (fetched : Completion (Response T)) (v : T) :
  fetchJson fetched = Normal v
  ↔ ∃ response, fetched = Normal response ∧ ok response = true
                ∧ body response = inl v.
Proof.
  split.
  - destruct fetched as [response|e]; [|done]. rewrite fetchJson_response.
    destruct (ok response) eqn:Hok; [|done]. unfold json.
    destruct (body response) as [w|[m|m]] eqn:Hb; [|done|done].
    intros [= ->]. eauto.
  - intros (response & -> & Hok & Hb). rewrite fetchJson_response, Hok.
    unfold json. by rewrite Hb.
Qed.

(** X20.  [getTraceDetails] and [getRecentErrors] deliver a field of the
    body and nothing else: they succeed exactly when the request got a
    response that is ok and whose body could be read, with the [events]
    and the [errors] of that body, and otherwise they fail with the error
    of [fetchJson], passed on as it is; a request that failed on the
    network fails with the error of the network. *)
Theorem projecting_endpoints
    (traceFetch : Completion (Response TraceDetails))
    (errorsFetch : Completion (Response ErrorsBody)) :
  (∀ events, getTraceDetails traceFetch = Normal events
     ↔ ∃ response details, traceFetch = Normal response ∧ ok response = true
         ∧ body response = inl details ∧ td_events details = events)
  ∧ (∀ e, getTraceDetails traceFetch = Throw e ↔ fetchJson traceFetch = Throw e)
  ∧ (∀ recent, getRecentErrors errorsFetch = Normal recent
     ↔ ∃ response listed, errorsFetch = Normal response ∧ ok response = true
         ∧ body response = inl listed ∧ errors listed = recent)
  ∧ (∀ e, getRecentErrors errorsFetch = Throw e ↔ fetchJson errorsFetch = Throw e)
  ∧ (∀ e, traceFetch = Throw e -> getTraceDetails traceFetch = Throw e)
  ∧ (∀ e, errorsFetch = Throw e -> getRecentErrors errorsFetch = Throw e).
Proof.
  unfold getTraceDetails, getRecentErrors.
  split; [|split; [|split; [|split; [|split]]]].
  - intros events. destruct (fetchJson traceFetch) as [details|e] eqn:E.
    + apply fetchJson_Normal in E as (response & -> & Hok & Hb). split.
      * intros [= <-]. eauto 10.
      * intros (r & d & [= <-] & _ & Hb' & <-). congruence.
    + split; [done|]. intros (r & d & -> & Hok & Hb & _).
      assert (E' : fetchJson (Normal r) = Normal d) by (apply fetchJson_Normal; eauto).
      congruence.
  - intros e. destruct (fetchJson traceFetch); split; intros E0; try discriminate;
      by injection E0 as ->.
  - intros recent. destruct (fetchJson errorsFetch) as [listed|e] eqn:E.
    + apply fetchJson_Normal in E as (response & -> & Hok & Hb). split.
      * intros [= <-]. eauto 10.
      * intros (r & d & [= <-] & _ & Hb' & <-). congruence.
    + split; [done|]. intros (r & d & -> & Hok & Hb & _).
      assert (E' : fetchJson (Normal r) = Normal d) by (apply fetchJson_Normal; eauto).
      congruence.
  - intros e. destruct (fetchJson errorsFetch); split; intros E0; try discriminate;
      by injection E0 as ->.
  - by intros e ->.
  - by intros e ->.
Qed.

End ApiEndpoints.

(** ** ResultCard: every outcome of [renderChart] *)

Section ResultCardOutcomes.
Import ResultCard.

Lemma get_of_truthy (v : value) (name : string) :
  truthy v = true ->
  get v name = Normal match v with obj fields => field name fields | _ => undefined end.
Proof. by destruct v. Qed.

Lemma chartPayload_cases (payload : value) :
  chartPayload payload
  = Normal (if truthy payload
            then match payload with obj fields => field "chartjs" fields | _ => undefined end
            else payload).
Proof.
  unfold chartPayload, and_then. destruct (truthy payload) eqn:E; [|done].
  by apply get_of_truthy.
Qed.

Lemma renderChart_truthy (payload cp : value) :
  chartPayload payload = Normal cp -> truthy cp = true ->
  renderChart payload
  = match (match cp with obj fields => field "type" fields | _ => undefined end) with
    | str s =>
        if String.eqb s "" then Normal (Some (Bar (chart_data cp) (chart_options cp)))
        else if String.eqb (lower s) "line"
             then Normal (Some (Line (chart_data cp) (chart_options cp)))
             else Normal (Some (Bar (chart_data cp) (chart_options cp)))
    | type0 =>
        if truthy type0 then Throw (TypeError "toLowerCase is not a function")
        else Normal (Some (Bar (chart_data cp) (chart_options cp)))
    end.
Proof.
  intros Hcp Ht. unfold renderChart. rewrite Hcp. cbn [bind]. rewrite Ht. cbn [negb].
  unfold chart_data, chart_options.
  rewrite !(get_of_truthy cp) by done.
  set (type0 := match cp with obj fields => field "type" fields | _ => undefined end).
  set (d := match cp with obj fields => field "data" fields | _ => undefined end).
  set (o := match cp with obj fields => field "options" fields | _ => undefined end).
  unfold or_else. destruct (truthy d), (truthy o);
    destruct type0 as [| |b|q|s|items|fields]; cbn [truthy bind negb toLowerCase];
    try done;
    try (by destruct b);
    try (by destruct (Qeq_bool q 0));
    (destruct (String.eqb s ""); cbn [truthy bind negb toLowerCase]; [done|];
     by destruct (String.eqb (lower s) "line")).
Qed.

(** X21.  Every outcome of [renderChart].  It returns no chart exactly
    when the payload is falsy or its [chartjs] is; it throws exactly when
    there is a chart payload whose [type] is truthy and not a string (a
    number, [true], an array or an object); in every other case it returns
    a chart. *)
Theorem renderChart_outcomes (payload : value) :
  ∃ cp, chartPayload payload = Normal cp
    ∧ (renderChart payload = Normal None ↔ truthy cp = false)
    ∧ ((∃ e, renderChart payload = Throw e)
       ↔ truthy cp = true
         ∧ ∃ type0, get cp "type" = Normal type0 ∧ truthy type0 = true
                    ∧ ∀ s, type0 ≠ str s)
    ∧ (truthy payload = false -> cp = payload)
    ∧ (truthy payload = true -> get payload "chartjs" = Normal cp).
Proof.
  eexists. split; [apply chartPayload_cases|].
  set (cp := if truthy payload then _ else payload).
  assert (Hcp : chartPayload payload = Normal cp) by apply chartPayload_cases.
  split; [|split; [|split]].
  - destruct (truthy cp) eqn:Ht.
    + rewrite (renderChart_truthy payload cp) by done. split; [|done].
      destruct (match cp with obj fields => field "type" fields | _ => undefined end)
        as [| |b|q|s|items|fields]; cbn; try done.
      * by destruct b.
      * by destruct (Qeq_bool q 0).
      * by destruct (String.eqb s ""), (String.eqb (lower s) "line").
    + split; [done|]. intros _. unfold renderChart. rewrite Hcp. cbn [bind].
      by rewrite Ht.
  - destruct (truthy cp) eqn:Ht.
    + rewrite (renderChart_truthy payload cp), (get_of_truthy cp) by done.
      set (type0 := match cp with obj fields => field "type" fields | _ => undefined end).
      split.
      * intros [e He]. split; [done|]. exists type0. split; [done|].
        destruct type0 as [| |b|q|s|items|fields]; cbn in *; try done.
        -- by destruct b.
        -- by destruct (Qeq_bool q 0).
        -- by destruct (String.eqb s ""), (String.eqb (lower s) "line").
      * intros (_ & t & [= <-] & Htt & Hns).
        destruct type0 as [| |b|q|s|items|fields]; cbn in *; try done.
        -- rewrite Htt. eauto.
        -- rewrite Htt. eauto.
        -- by destruct (Hns s).
        -- eauto.
        -- eauto.
    + split; [|by intros [? _]]. intros [e He]. unfold renderChart in He.
      rewrite Hcp in He. cbn [bind] in He. by rewrite Ht in He.
  - intros Hp. subst cp. by rewrite Hp.
  - intros Hp. subst cp. rewrite Hp. by apply get_of_truthy.
Qed.

End ResultCardOutcomes.

(** ** The ask form of the banking assistant *)

Section AskForm.
Import RegExp AskApp.

Lemma handleAsk_run (fetched : Completion AskResponse) (s : State) :
  handleAsk fetched s
  = (Normal tt,
     if truthy (trim (question s)) then
       let outcome : ResultCard.value + JsError :=
         match fetched with
         | Throw e => inr e
         | Normal resp =>
             match a_json resp with
             | Normal data => inl (normalize data)
             | Throw e => inr e
             end
         end in
       {| question := question s; loading := false;
          payload := match outcome with inl v => v | inr _ => ResultCard.null end;
          error := match outcome with
                   | inl _ => None
                   | inr e => Some (String_of_error e)
                   end |}
     else
       {| question := question s; loading := loading s; payload := payload s;
          error := Some "Please enter a question."%string |}).
Proof.
  unfold handleAsk. destruct (truthy (trim (question s))); [|done].
  destruct fetched as [resp|e]; [|done].
  cbv [mbind M_bind bind mret M_ret ret await throw try_catch_finally modify
       setError setLoading setPayload].
  by destruct (a_json resp).
Qed.

(** X22.  Asking with a blank question (empty, or white space only) makes
    no request: whatever the fetch would have done, the form only sets the
    error that asks for a question; the answer that was on screen, and the
    loading flag, stay as they were. *)
Theorem handleAsk_blank (fetched : Completion AskResponse) (s : State) :
  trim (question s) = [] ->
  handleAsk fetched s
  = (Normal tt,
     {| question := question s; loading := loading s; payload := payload s;
        error := Some "Please enter a question."%string |})
  ∧ canAsk s = false.
Proof.
  intros Hq. rewrite handleAsk_run. unfold canAsk. by rewrite Hq.
Qed.

(** X23.  Asking with a question never fails and always ends with the
    loading overlay off and the question kept.  A body that is JSON is
    shown whatever the status of the response was (the form does not look
    at [ok]): the payload is the [result] of the body when the body is an
    object with that key, and the body otherwise.  A request that failed,
    or a body that is not JSON, leaves no payload and the error as a
    string.  A payload and an error are never shown together. *)
Theorem handleAsk_asked (fetched : Completion AskResponse) (s : State) :
  trim (question s) ≠ [] ->
  let out := handleAsk fetched s in
  out.1 = Normal tt
  ∧ loading out.2 = false
  ∧ question out.2 = question s
  ∧ (∀ resp data, fetched = Normal resp -> a_body resp = inl data ->
       payload out.2 = normalize data ∧ error out.2 = None)
  ∧ (∀ e, fetched = Throw e ->
       payload out.2 = ResultCard.null ∧ error out.2 = Some (String_of_error e))
  ∧ (∀ resp failure, fetched = Normal resp -> a_body resp = inr failure ->
       payload out.2 = ResultCard.null ∧ is_Some (error out.2))
  ∧ ¬ (ResultCard.truthy (payload out.2) = true ∧ is_Some (error out.2)).
Proof.
  intros Hq out. subst out. rewrite handleAsk_run.
  destruct (trim (question s)) as [|c q] eqn:E; [done|]. cbn [truthy fst snd].
  cbv zeta. cbn [loading question payload error].
  split; [done|]. split; [done|]. split; [done|].
  split; [|split; [|split]].
  - intros resp data -> Hb. unfold a_json. by rewrite Hb.
  - by intros e ->.
  - intros resp failure -> Hb. unfold a_json. rewrite Hb.
    destruct failure; split; eauto.
  - intros [Hp [m Hm]]. destruct fetched as [resp|e]; [|done].
    by destruct (a_json resp).
Qed.

End AskForm.

(** ** The client behind the development proxy *)

Section ProxyFacts.
Import Proxy.




End ProxyFacts.

(** ** The further properties at sample inputs *)

Lemma getPreview_shown_witness :
  TraceViewRender.showsPreview (sample_event "span_end" "error" None None) = true
  ∧ TraceViewRender.getPreview (sample_event "span_end" "error" None None)
    = "undefined: undefined"%string
  ∧ TraceViewRender.showsPreview (sample_event "span_start" "ok" None None) = false.
Proof.
  destruct (getPreview_shown (sample_event "span_end" "error" None None)) as [W _].
  destruct W as [W1 W2]; [reflexivity|reflexivity|].
  split; [exact W1|]. split; [by apply W2|].
  destruct (getPreview_shown (sample_event "span_start" "ok" None None)) as (_ & W & _).
  by rewrite W.
Defined.


Lemma drag_follows_pointer_witness :
  Qeq (AgentGraph.panX (AgentGraph.latest
         (AgentGraph.play (H := exact) mounted_canvas
            (drag_rendered (10, 20) [(15, 25); (40, 5)]))))
      (inject_Z 30)
  ∧ Qeq (AgentGraph.panY (AgentGraph.latest
           (AgentGraph.play (H := exact) mounted_canvas
              (drag_rendered (10, 20) [(15, 25); (40, 5)]))))
        (inject_Z (-15))
  ∧ Qeq (AgentGraph.panX (AgentGraph.latest
           (AgentGraph.play (H := exact) mounted_canvas
              (drag_batched (10, 20) [(15, 25); (40, 5)]))))
        (inject_Z 35)
  ∧ Qeq (AgentGraph.panY (AgentGraph.latest
           (AgentGraph.play (H := exact) mounted_canvas
              (drag_batched (10, 20) [(15, 25); (40, 5)]))))
        (inject_Z (-10)).
Proof.
  destruct (drag_follows_pointer (H := exact) (10, 20) [(15, 25); (40, 5)] 0 0
              mounted_canvas) as ((W1 & W2 & _) & (W3 & W4 & _)).
  - repeat constructor; cbn; lia.
  - reflexivity.
  - reflexivity.
  - cbn. lia.
  - cbn. lia.
  - cbn. lia.
  - split; [exact W1|]. split; [exact W2|]. split; [exact W3 | exact W4].
Defined.

Lemma positionNodes_drawn_apart_witness :
  Forall (fun n => AgentGraphRender.drawsNode n = true)
         (AgentGraph.positionNodes (H := exact) sample_nodes []).
Proof.
  apply (positionNodes_drawn_apart (H := exact) sample_nodes []).
  - vm_compute. congruence.
  - compute_done.
  - compute_done.
Defined.

Lemma drawsEdge_known_ends_witness :
  AgentGraphRender.drawsEdge (AgentGraph.positionNodes (H := exact) sample_nodes [])
    edge_start_db = true.
Proof.
  apply (drawsEdge_known_ends (H := exact) sample_nodes [] edge_start_db).
  - vm_compute. congruence.
  - compute_done.
  - compute_done.
  - split; compute_done.
Defined.

Lemma positionNodes_prototype_id_witness :
  (∃ m, m ∈ AgentGraph.positionNodes (H := exact) [node_ctor; node_start; node_ctor] []
        ∧ AgentGraph.id m = "constructor"%string)
  ∧ AgentGraphRender.drawsEdge
      (AgentGraph.positionNodes (H := exact) [node_ctor; node_start; node_ctor] [])
      edge_ctor
    = false.
Proof.
  destruct (positionNodes_prototype_id (H := exact) [node_ctor; node_start; node_ctor] []
              node_ctor edge_ctor) as (W1 & _ & W2 & _).
  - left.
  - compute_done.
  - split; [exact W1|]. apply W2. by right.
Defined.

Lemma handleAsk_blank_witness :
  AskApp.handleAsk (Throw (TypeError "Failed to fetch")) blank_ask
  = (Normal tt,
     {| AskApp.question := codeUnits "  "; AskApp.loading := false;
        AskApp.payload := pie_payload;
        AskApp.error := Some "Please enter a question."%string |}).
Proof.
  apply (handleAsk_blank (Throw (TypeError "Failed to fetch")) blank_ask).
  reflexivity.
Defined.

Lemma handleAsk_asked_witness :
  AskApp.payload (AskApp.handleAsk (Normal sample_answer) sample_ask).2
  = ResultCard.obj [ ("answer", ResultCard.str "down") ]
  ∧ AskApp.error (AskApp.handleAsk (Normal sample_answer) sample_ask).2 = None.
Proof.
  destruct (handleAsk_asked (Normal sample_answer) sample_ask) as (_ & _ & _ & W & _).
  - vm_compute. congruence.
  - exact (W sample_answer _ eq_refl eq_refl).
Defined.

Lemma fetchGraphData_graph_witness :
  AgentGraph.graphData
    (AgentGraph.fetchGraphData (H := exact) (Api.getAgentGraph (Normal sample_graph))
       AgentGraph.initial).2
  = Some {| AgentGraph.nodes :=
              [ AgentGraph.set_xy node_start (Some 400) (Some 50);
                AgentGraph.set_xy node_db (Some 300) (Some 350) ];
            AgentGraph.edges := [edge_start_db];
            AgentGraph.description := "workflow" |}
  ∧ ∃ graph,
      AgentGraph.graphData
        (AgentGraph.fetchGraphData (H := exact) (Api.getAgentGraph (Normal sample_graph))
           AgentGraph.initial).2 = Some graph
      ∧ map AgentGraph.id (AgentGraph.nodes graph) = ["__start__"; "db_agent"]%string.
Proof.
  split; [reflexivity|].
  destruct (fetchGraphData_graph (H := exact) sample_graph _ AgentGraph.initial
              eq_refl eq_refl) as (graph & W1 & W2 & _).
  exists graph. split; [exact W1 | exact W2].
Defined.
